(** * simple-rest-go: the metrics aggregator and the HTTP handlers of main.go

    A shallow embedding of [main.go] and the properties of its
    specification.  Go strings are byte strings and are modelled by
    [string] (a list of 8-bit [ascii]); [int] and [int64] are [Z] with the
    two's-complement wrap-around of the amd64 build written out; [float64]
    is the primitive binary64 [float]; Go maps are [gmap]s.  What the
    standard library does around the program (net/url and the request
    target, the path cleaning and the routing tree of [http.ServeMux],
    the status that [WriteHeader] and [Write] produce, [sync.RWMutex])
    is modelled after the library of the Go release that the Dockerfile
    builds with. *)

From Stdlib Require Import ZArith Lia Ascii.
From Stdlib Require Import Floats.PrimFloat Numbers.Cyclic.Int63.Uint63.
From Stdlib Require Floats.SpecFloat Floats.FloatOps Floats.FloatAxioms.
From stdpp Require Import gmap strings list fin_maps.

Set Warnings "-inexact-float".
Local Open Scope Z_scope.

(** ** Machine integers *)

Definition MaxInt64 : Z := 2 ^ 63 - 1.

(** Two's-complement reduction of an [int64] (and of [int] on amd64). *)
Definition wrap64 (z : Z) : Z := (z + 2 ^ 63) mod 2 ^ 64 - 2 ^ 63.

(** [x++] on an [int64] or [int] variable. *)
Definition incr64 (x : Z) : Z := wrap64 (x + 1).

(** ** Bytes, runes and UTF-8 (package unicode/utf8) *)

Definition byteZ (a : ascii) : Z := Z.of_N (N_of_ascii a).

(** The conversion [byte(r)]: the low eight bits. *)
Definition byte_of_Z (z : Z) : ascii := ascii_of_N (Z.to_N (z mod 256)).

Definition RuneError : Z := 65533.

(** The table [first] of unicode/utf8, by ranges of the leading byte. *)
Definition first (b : Z) : Z :=
  if b <? 128 then 240        (* as: ASCII, size 1 *)
  else if b <? 194 then 241   (* xx: invalid, size 1 *)
  else if b <? 224 then 2     (* s1: accept 0, size 2 *)
  else if b =? 224 then 19    (* s2: accept 1, size 3 *)
  else if b <? 237 then 3     (* s3: accept 0, size 3 *)
  else if b =? 237 then 35    (* s4: accept 2, size 3 *)
  else if b <? 240 then 3     (* s3 *)
  else if b =? 240 then 52    (* s5: accept 3, size 4 *)
  else if b <? 244 then 4     (* s6: accept 0, size 4 *)
  else if b =? 244 then 68    (* s7: accept 4, size 4 *)
  else 241.

Definition acceptRanges (i : Z) : Z * Z :=
  if i =? 0 then (128, 191)
  else if i =? 1 then (160, 191)
  else if i =? 2 then (128, 159)
  else if i =? 3 then (144, 191)
  else if i =? 4 then (128, 143)
  else (0, 0).

Definition continuation (b : Z) : bool := (128 <=? b) && (b <=? 191).

(** [utf8.DecodeRuneInString]: the first rune of [s] and its width in
    bytes; an invalid or truncated encoding is [RuneError] of width 1. *)
Definition DecodeRuneInString (s : string) : Z * nat :=
  match s with
  | EmptyString => (RuneError, 0%nat)
  | String c0 t0 =>
    let s0 := byteZ c0 in
    let x := first s0 in
    if 240 <=? x then ((if x =? 240 then s0 else RuneError), 1%nat)
    else
      let sz := Z.land x 7 in
      let '(lo, hi) := acceptRanges (Z.shiftr x 4) in
      match t0 with
      | EmptyString => (RuneError, 1%nat)
      | String c1 t1 =>
        let s1 := byteZ c1 in
        if (s1 <? lo) || (hi <? s1) then (RuneError, 1%nat)
        else if sz <=? 2
        then (Z.lor (Z.shiftl (Z.land s0 31) 6) (Z.land s1 63), 2%nat)
        else
          match t1 with
          | EmptyString => (RuneError, 1%nat)
          | String c2 t2 =>
            let s2 := byteZ c2 in
            if negb (continuation s2) then (RuneError, 1%nat)
            else if sz <=? 3
            then (Z.lor (Z.lor (Z.shiftl (Z.land s0 15) 12)
                               (Z.shiftl (Z.land s1 63) 6))
                        (Z.land s2 63), 3%nat)
            else
              match t2 with
              | EmptyString => (RuneError, 1%nat)
              | String c3 _ =>
                let s3 := byteZ c3 in
                if negb (continuation s3) then (RuneError, 1%nat)
                else (Z.lor (Z.lor (Z.lor (Z.shiftl (Z.land s0 7) 18)
                                          (Z.shiftl (Z.land s1 63) 12))
                                   (Z.shiftl (Z.land s2 63) 6))
                            (Z.land s3 63), 4%nat)
              end
          end
      end
  end.

Definition str1 (a : Z) : string := String (byte_of_Z a) EmptyString.

(** [utf8.AppendRune] on an empty buffer: the UTF-8 encoding of a rune;
    surrogates and values outside the Unicode range encode [RuneError]. *)
Definition EncodeRune (r : Z) : string :=
  let enc3 r :=
    str1 (Z.lor 224 (Z.shiftr r 12))
    +:+ str1 (Z.lor 128 (Z.land (Z.shiftr r 6) 63))
    +:+ str1 (Z.lor 128 (Z.land r 63)) in
  if (0 <=? r) && (r <? 128) then str1 r
  else if (0 <=? r) && (r <=? 2047)
  then str1 (Z.lor 192 (Z.shiftr r 6)) +:+ str1 (Z.lor 128 (Z.land r 63))
  else if (r <? 0) || (1114111 <? r) || ((55296 <=? r) && (r <=? 57343))
  then enc3 RuneError
  else if r <=? 65535 then enc3 r
  else
    str1 (Z.lor 240 (Z.shiftr r 18))
    +:+ str1 (Z.lor 128 (Z.land (Z.shiftr r 12) 63))
    +:+ str1 (Z.lor 128 (Z.land (Z.shiftr r 6) 63))
    +:+ str1 (Z.lor 128 (Z.land r 63)).

(** The runes of a string, in the order [for _, c := range s] yields them.
    [skip] counts the bytes that still belong to the rune decoded last. *)
Fixpoint runesFrom (skip : nat) (s : string) : list Z :=
  match s with
  | EmptyString => []
  | String _ t =>
    match skip with
    | S k => runesFrom k t
    | O => let '(r, w) := DecodeRuneInString s in r :: runesFrom (w - 1) t
    end
  end.

Definition runes (s : string) : list Z := runesFrom 0 s.

(** [strings.Map]: every rune of [s] is replaced by its image under
    [mapping]; a negative image drops the rune. *)
Fixpoint MapFrom (mapping : Z → Z) (skip : nat) (s : string) : string :=
  match s with
  | EmptyString => EmptyString
  | String _ t =>
    match skip with
    | S k => MapFrom mapping k t
    | O =>
      let '(c, w) := DecodeRuneInString s in
      let r := mapping c in
      (if r <? 0 then EmptyString else EncodeRune r)
      +:+ MapFrom mapping (w - 1) t
    end
  end.

Definition strings_Map (mapping : Z → Z) (s : string) : string :=
  MapFrom mapping 0 s.

(** The line feed, the double quote, and a string between double quotes. *)
Definition newline : string := String "010"%char EmptyString.
Definition dq : string := String "034"%char EmptyString.
Definition quoted (s : string) : string := dq +:+ s +:+ dq.

(** ** Path keys (the first lines of [Metrics.RecordRequest]) *)

(** The function literal handed to [strings.Map]. *)
Definition cleanRune (r : Z) : Z :=
  if ((97 <=? r) && (r <=? 122)) || ((65 <=? r) && (r <=? 90))
     || ((48 <=? r) && (r <=? 57) || (r =? 47))
  then r else 95.

Definition mapped (path : string) : string := strings_Map cleanRune path.

(** The value of the variable [cleanPath] once the prefix test has run. *)
Definition cleanPath (path : string) : string :=
  let cp := mapped path in
  match cp with
  | EmptyString => "root" +:+ cp
  | String c0 _ => if byteZ c0 =? 95 then "root" +:+ cp else cp
  end.

(** A byte of a key: an ASCII letter, a digit, '/' or '_'. *)
Definition keyByte (a : ascii) : bool :=
  let b := byteZ a in
  ((97 <=? b) && (b <=? 122)) || ((65 <=? b) && (b <=? 90))
  || ((48 <=? b) && (b <=? 57)) || (b =? 47) || (b =? 95).

Fixpoint allBytes (P : ascii → bool) (s : string) : bool :=
  match s with
  | EmptyString => true
  | String c t => P c && allBytes P t
  end.

Fixpoint string_of_bytes (l : list Z) : string :=
  match l with
  | [] => EmptyString
  | b :: l' => String (byte_of_Z b) (string_of_bytes l')
  end.

(** ** The metrics aggregator *)

(** [sync.RWMutex], as far as a sequential run observes it: an operation
    that would block, or [Unlock]/[RUnlock] of a lock not held, has no
    result.  The lock prefers writers: once a [Lock] call waits for the
    readers to leave, a new [RLock] waits behind it. *)
Inductive RWMutex : Type :=
  | Unlocked
  | WriteLocked
  | ReadLocked (readers : nat) (writerWaiting : bool).
      (* [S readers] readers hold the lock *)

Definition Lock (mu : RWMutex) : option RWMutex :=
  match mu with Unlocked => Some WriteLocked | _ => None end.

(** The lock once a [Lock] call that cannot return has begun to wait. *)
Definition LockWaiting (mu : RWMutex) : RWMutex :=
  match mu with
  | ReadLocked n _ => ReadLocked n true
  | _ => mu
  end.

Definition Unlock (mu : RWMutex) : option RWMutex :=
  match mu with WriteLocked => Some Unlocked | _ => None end.

Definition RLock (mu : RWMutex) : option RWMutex :=
  match mu with
  | Unlocked => Some (ReadLocked 0 false)
  | ReadLocked n false => Some (ReadLocked (S n) false)
  | ReadLocked _ true => None
  | WriteLocked => None
  end.

(** When the last reader leaves, a waiting writer gets the lock. *)
Definition RUnlock (mu : RWMutex) : option RWMutex :=
  match mu with
  | ReadLocked 0 false => Some Unlocked
  | ReadLocked 0 true => Some WriteLocked
  | ReadLocked (S n) waiting => Some (ReadLocked n waiting)
  | _ => None
  end.

Record Metrics : Type := mkMetrics {
  mutex : RWMutex;
  totalRequests : gmap string Z;            (* map[string]int64 *)
  statusCodes : gmap string (gmap Z Z);     (* map[string]map[int]int64 *)
  requestDurations : gmap string (list float);  (* map[string][]float64 *)
  appStartTimestamp : Z                     (* int64 *)
}.

Definition withMutex (mu : RWMutex) (m : Metrics) : Metrics :=
  {| mutex := mu;
     totalRequests := totalRequests m;
     statusCodes := statusCodes m;
     requestDurations := requestDurations m;
     appStartTimestamp := appStartTimestamp m |}.

(** [NewMetrics]; [now] is the value of [time.Now().Unix()]. *)
Definition NewMetrics (now : Z) : Metrics :=
  {| mutex := Unlocked;
     totalRequests := ∅;
     statusCodes := ∅;
     requestDurations := ∅;
     appStartTimestamp := now |}.

(** [float64(z)] for an integer below 2^63 in absolute value. *)
Definition float64_of_Z (z : Z) : float :=
  if z <? 0 then PrimFloat.opp (PrimFloat.of_uint63 (Uint63.of_Z (- z)))
  else PrimFloat.of_uint63 (Uint63.of_Z z).

(** [time.Duration.Seconds]; a [Duration] is an [int64] of nanoseconds and
    Go's [/] and [%] truncate toward zero. *)
Definition Seconds (d : Z) : float :=
  let sec := Z.quot d 1000000000 in
  let nsec := Z.rem d 1000000000 in
  PrimFloat.add (float64_of_Z sec)
                (PrimFloat.div (float64_of_Z nsec) 1000000000%float).

(** The three updates of [RecordRequest], made while the lock is held.
    The trace line that [fmt.Printf] puts on standard output changes no
    state and is [RecordRequest_stdout] below. *)
Definition recordLocked (path : string) (statusCode : Z) (duration : Z)
    (m : Metrics) : Metrics :=
  let key := cleanPath path in
  (* m.totalRequests[cleanPath]++ *)
  let tr := <[key := incr64 (default 0 (totalRequests m !! key))]>
              (totalRequests m) in
  (* if _, exists := m.statusCodes[cleanPath]; !exists { ... = make(...) } *)
  let sc1 := match statusCodes m !! key with
             | Some _ => statusCodes m
             | None => <[key := ∅]> (statusCodes m)
             end in
  (* m.statusCodes[cleanPath][statusCode]++ *)
  let codes := default ∅ (sc1 !! key) in
  let sc2 := <[key := <[statusCode := incr64 (default 0 (codes !! statusCode))]>
                        codes]> sc1 in
  (* m.requestDurations[cleanPath] = append(..., duration.Seconds()) *)
  let rd := <[key := default [] (requestDurations m !! key)
                     ++ [Seconds duration]]> (requestDurations m) in
  {| mutex := mutex m;
     totalRequests := tr;
     statusCodes := sc2;
     requestDurations := rd;
     appStartTimestamp := appStartTimestamp m |}.

(** [fmt.Printf("Path: %s : %s\n", path, cleanPath)], which runs before
    the prefix test. *)
Definition RecordRequest_stdout (path : string) : string :=
  "Path: " +:+ path +:+ " : " +:+ mapped path +:+ newline.

(** [Metrics.RecordRequest]: [m.mutex.Lock()], the updates, and the
    deferred [m.mutex.Unlock()]. *)
Definition RecordRequest (path : string) (statusCode : Z) (duration : Z)
    (m : Metrics) : option Metrics :=
  mu ← Lock (mutex m);
  let m1 := recordLocked path statusCode duration (withMutex mu m) in
  mu' ← Unlock (mutex m1);
  Some (withMutex mu' m1).

(** ** The exposition *)

(** The upper bound of a histogram bucket: a finite boundary (printed with
    [%g]) or the literal [+Inf]. *)
Inductive Bound : Type :=
  | Le (b : float)
  | Inf.

(** One line of the text returned by [GetPrometheusMetrics].  Each format
    string of the function has a constructor, whose arguments are the
    values that [fmt.Sprintf] substitutes; [Text] is a line written
    verbatim. *)
Inductive Line : Type :=
  | Text (s : string)
  | AppInfo (version : string)
  | Uptime (seconds : Z)
  | RequestsTotal (path : string) (count : Z)
  | ResponseStatusTotal (path : string) (code : Z) (count : Z)
  | DurationBucket (path : string) (le : Bound) (count : Z)
  | DurationSum (path : string) (sum : float)
  | DurationCount (path : string) (count : Z).

Definition buckets : list float :=
  [0.005; 0.01; 0.025; 0.05; 0.1; 0.25; 0.5; 1; 2.5; 5; 10]%float.

(** [bucketCounts[i]++] on a [[]int]; the loops below only use indices
    within the slice, which has one element more than [buckets]. *)
Definition incrAt (i : nat) (bucketCounts : list Z) : list Z :=
  alter incr64 i bucketCounts.

(** [for i, b := range buckets { if d <= b { bucketCounts[i]++ } }], from
    index [i] on. *)
Fixpoint bucketLoop (d : float) (i : nat) (bs : list float)
    (bucketCounts : list Z) : list Z :=
  match bs with
  | [] => bucketCounts
  | b :: bs' =>
    bucketLoop d (S i) bs'
      (if PrimFloat.leb d b then incrAt i bucketCounts else bucketCounts)
  end.

(** The body of [for _, d := range durations]. *)
Definition observe (acc : list Z * float) (d : float) : list Z * float :=
  let '(bucketCounts, sum) := acc in
  let sum' := PrimFloat.add sum d in
  let bc := bucketLoop d 0 buckets bucketCounts in
  (incrAt (length buckets) bc, sum').

Definition histogram (durations : list float) : list Z * float :=
  fold_left observe durations
            (replicate (S (length buckets)) 0, 0%float).

(** The lines written for one entry of [m.requestDurations]. *)
Definition histogramBlock (path : string) (durations : list float)
    : list Line :=
  let '(bucketCounts, sum) := histogram durations in
  imap (λ i b, DurationBucket path (Le b) (default 0 (bucketCounts !! i)))
       buckets
  ++ [ DurationBucket path Inf
         (default 0 (bucketCounts !! length buckets));
       DurationSum path sum;
       DurationCount path (Z.of_nat (length durations)) ].

(** The order in which [range] visits the entries of a map is chosen by
    the Go runtime: any enumeration of the entries. *)
Record RangeOrder : Type := mkRangeOrder {
  range : ∀ V : Type, gmap string V → list (string * V);
  rangeCodes : gmap Z Z → list (Z * Z);
  range_perm : ∀ V (m : gmap string V), range V m ≡ₚ map_to_list m;
  rangeCodes_perm : ∀ m : gmap Z Z, rangeCodes m ≡ₚ map_to_list m
}.
Arguments range _ {V} _.

(** One of these orders. *)
Definition mapOrder : RangeOrder :=
  {| range := λ V, map_to_list;
     rangeCodes := map_to_list;
     range_perm := λ V m, reflexivity (map_to_list m);
     rangeCodes_perm := λ m, reflexivity (map_to_list m) |}.

(** The text of [GetPrometheusMetrics], read under the lock. *)
Definition exposition (o : RangeOrder) (version : string) (now : Z)
    (m : Metrics) : list Line :=
  [ Text "# HELP app_info Information about the application";
    Text "# TYPE app_info gauge";
    AppInfo version;
    Text "";
    Text "# HELP app_uptime_seconds How long the application has been running";
    Text "# TYPE app_uptime_seconds counter";
    Uptime (wrap64 (now - appStartTimestamp m));
    Text "";
    Text "# HELP http_requests_total Total number of HTTP requests";
    Text "# TYPE http_requests_total counter" ]
  ++ map (λ '(path, count), RequestsTotal path count)
         (range o (totalRequests m))
  ++ [ Text "";
       Text "# HELP http_response_status_total HTTP response status codes";
       Text "# TYPE http_response_status_total counter" ]
  ++ flat_map (λ '(path, codes),
                 map (λ '(code, count), ResponseStatusTotal path code count)
                     (rangeCodes o codes))
              (range o (statusCodes m))
  ++ [ Text "";
       Text "# HELP http_request_duration_seconds HTTP request duration in seconds";
       Text "# TYPE http_request_duration_seconds histogram" ]
  ++ flat_map (λ '(path, durations), histogramBlock path durations)
              (range o (requestDurations m)).

(** [Metrics.GetPrometheusMetrics]: [m.mutex.RLock()], the text, and the
    deferred [m.mutex.RUnlock()]; [now] is [time.Now().Unix()] and [o] the
    order of the [range] loops. *)
Definition GetPrometheusMetrics (o : RangeOrder) (version : string)
    (now : Z) (m : Metrics) : option (list Line * Metrics) :=
  mu ← RLock (mutex m);
  let m1 := withMutex mu m in
  let out := exposition o version now m1 in
  mu' ← RUnlock (mutex m1);
  Some (out, withMutex mu' m1).

(** The states of the aggregator that a run of the program started at
    time [start] can reach. *)
Inductive reachableFrom (start : Z) : Metrics → Prop :=
  | reach_new : reachableFrom start (NewMetrics start)
  | reach_record m path statusCode duration m' :
      reachableFrom start m →
      RecordRequest path statusCode duration m = Some m' →
      reachableFrom start m'
  | reach_render m o version now out m' :
      reachableFrom start m →
      GetPrometheusMetrics o version now m = Some (out, m') →
      reachableFrom start m'.

(** *** Reading an exposition *)

(** The first line of [out] that [sel] accepts. *)
Fixpoint findLine {A} (sel : Line → option A) (out : list Line) : option A :=
  match out with
  | [] => None
  | l :: rest =>
    match sel l with
    | Some x => Some x
    | None => findLine sel rest
    end
  end.

Definition selTotal (key : string) (l : Line) : option Z :=
  match l with
  | RequestsTotal p n => if decide (p = key) then Some n else None
  | _ => None
  end.

Definition selStatus (key : string) (code : Z) (l : Line) : option Z :=
  match l with
  | ResponseStatusTotal p c n =>
    if decide (p = key) then if decide (c = code) then Some n else None
    else None
  | _ => None
  end.

Definition selCount (key : string) (l : Line) : option Z :=
  match l with
  | DurationCount p n => if decide (p = key) then Some n else None
  | _ => None
  end.

Definition selSum (key : string) (l : Line) : option float :=
  match l with
  | DurationSum p x => if decide (p = key) then Some x else None
  | _ => None
  end.

Definition selInf (key : string) (l : Line) : option Z :=
  match l with
  | DurationBucket p Inf n => if decide (p = key) then Some n else None
  | _ => None
  end.

(** The value on the [http_requests_total] line of a path, and so on. *)
Definition requestsTotalOf (out : list Line) (key : string) : option Z :=
  findLine (selTotal key) out.
Definition responseStatusOf (out : list Line) (key : string) (code : Z)
    : option Z :=
  findLine (selStatus key code) out.
Definition durationCountOf (out : list Line) (key : string) : option Z :=
  findLine (selCount key) out.
Definition durationSumOf (out : list Line) (key : string) : option float :=
  findLine (selSum key) out.
Definition infBucketOf (out : list Line) (key : string) : option Z :=
  findLine (selInf key) out.

(** The number of durations of [ds] that are at most [b]. *)
Definition countLe (b : float) (ds : list float) : Z :=
  Z.of_nat (length (filter (λ d, PrimFloat.leb d b = true) ds)).

(** The sum of the counters of one status-code map. *)
Definition sumCodes (codes : gmap Z Z) : Z :=
  map_fold (λ _ n acc, n + acc) 0 codes.

(** The lines of one histogram, in closed form. *)
Definition histogramLines (path : string) (ds : list float) : list Line :=
  map (λ b, DurationBucket path (Le b) (countLe b ds)) buckets
  ++ [ DurationBucket path Inf (Z.of_nat (length ds));
       DurationSum path (fold_left PrimFloat.add ds 0%float);
       DurationCount path (Z.of_nat (length ds)) ].

(** The runes that a path key keeps: ASCII letters, digits and '/'. *)
Definition letterDigitSlash (r : Z) : bool :=
  ((65 <=? r) && (r <=? 90)) || ((97 <=? r) && (r <=? 122))
  || ((48 <=? r) && (r <=? 57)) || (r =? 47).

(** ** HTTP: requests, response writers and the handlers *)

(** What a handler hands to [Write]: bytes, or the exposition (kept as
    lines). *)
Inductive Chunk : Type :=
  | Bytes (s : string)
  | Lines (ls : list Line).

(** A call on an [http.ResponseWriter]; [w.Header().Set(k, v)] and its
    siblings count as calls on [w]. *)
Inductive Call : Type :=
  | HeaderSet (key value : string)
  | HeaderAdd (key value : string)
  | HeaderDel (key : string)
  | CallWriteHeader (code : Z)
  | CallWrite (data : Chunk).

(** The interface [http.ResponseWriter]. *)
Class http_ResponseWriter (W : Type) : Type := {
  Header_Set : string → string → W → W;
  Header_Add : string → string → W → W;
  Header_Del : string → W → W;
  WriteHeader : Z → W → W;
  Write : Chunk → W → W
}.

(** The writer that net/http hands to the mux, as the calls that a handler
    makes on it, oldest first.  The record takes every call; what
    net/http does with the calls is read off it by [sentStatus] and
    [panics]. *)
Definition response : Type := list Call.

#[export] Instance response_writer : http_ResponseWriter response := {|
  Header_Set k v w := w ++ [HeaderSet k v];
  Header_Add k v w := w ++ [HeaderAdd k v];
  Header_Del k w := w ++ [HeaderDel k];
  WriteHeader code w := w ++ [CallWriteHeader code];
  Write data w := w ++ [CallWrite data]
|}.

(** The codes that [WriteHeader] of net/http accepts
    ([checkWriteHeaderCode]). *)
Definition validCode (code : Z) : bool := (100 <=? code) && (code <=? 999).

(** The codes that [WriteHeader] sends as an informational header, after
    which the status of the response is still to come: 100 to 199, except
    101. *)
Definition informational (code : Z) : bool :=
  (100 <=? code) && (code <=? 199) && negb (code =? 101).

(** A code that [WriteHeader] makes the status of the response. *)
Definition finalCode (code : Z) : bool :=
  validCode code && negb (informational code).

(** The status line net/http sends for a sequence of calls: the code of
    the first [WriteHeader] that is not informational, or 200 when a
    [Write] comes first; none while neither has happened, and none when
    [WriteHeader] is called, before that, with a code outside 100..999:
    that call panics.  Once the status is set a later [WriteHeader] is
    ignored. *)
Fixpoint sentStatus (w : response) : option Z :=
  match w with
  | [] => None
  | CallWriteHeader code :: rest =>
    if negb (validCode code) then None
    else if informational code then sentStatus rest
    else Some code
  | CallWrite _ :: _ => Some 200
  | _ :: rest => sentStatus rest
  end.

(** Whether one of the calls panics in net/http: a [WriteHeader] with a
    code outside 100..999 while the status is not yet set.  The handler
    making that call does not return from it, and the calls listed after
    it are not made. *)
Fixpoint panics (w : response) : bool :=
  match w with
  | [] => false
  | CallWriteHeader code :: rest =>
    if negb (validCode code) then true
    else if informational code then panics rest
    else false
  | CallWrite _ :: _ => false
  | _ :: rest => panics rest
  end.

(** The body written, in order. *)
Fixpoint sentBody (w : response) : list Chunk :=
  match w with
  | [] => []
  | CallWrite data :: rest => data :: sentBody rest
  | _ :: rest => sentBody rest
  end.

(** The arguments of the [WriteHeader] calls, in order. *)
Fixpoint headerWrites (calls : list Call) : list Z :=
  match calls with
  | [] => []
  | CallWriteHeader code :: rest => code :: headerWrites rest
  | _ :: rest => headerWrites rest
  end.

(** [type responseWriter struct { http.ResponseWriter; statusCode int }] *)
Record responseWriter (W : Type) : Type := mkResponseWriter {
  ResponseWriter : W;
  statusCode : Z
}.
Arguments mkResponseWriter {W} _ _.
Arguments ResponseWriter {W} _.
Arguments statusCode {W} _.

(** [Header] and [Write] are promoted from the embedded writer;
    [WriteHeader] is the method of [*responseWriter]. *)
#[export] Instance responseWriter_writer {W} `{http_ResponseWriter W}
    : http_ResponseWriter (responseWriter W) := {|
  Header_Set k v rw :=
    mkResponseWriter (Header_Set k v (ResponseWriter rw)) (statusCode rw);
  Header_Add k v rw :=
    mkResponseWriter (Header_Add k v (ResponseWriter rw)) (statusCode rw);
  Header_Del k rw :=
    mkResponseWriter (Header_Del k (ResponseWriter rw)) (statusCode rw);
  WriteHeader code rw :=
    (* rw.statusCode = code; rw.ResponseWriter.WriteHeader(code) *)
    mkResponseWriter (WriteHeader code (ResponseWriter rw)) code;
  Write data rw :=
    mkResponseWriter (Write data (ResponseWriter rw)) (statusCode rw)
|}.

(** One call made through the interface. *)
Definition call {W} `{http_ResponseWriter W} (c : Call) (w : W) : W :=
  match c with
  | HeaderSet k v => Header_Set k v w
  | HeaderAdd k v => Header_Add k v w
  | HeaderDel k => Header_Del k w
  | CallWriteHeader code => WriteHeader code w
  | CallWrite data => Write data w
  end.

Definition calls {W} `{http_ResponseWriter W} (cs : list Call) (w : W) : W :=
  fold_left (λ w c, call c w) cs w.

(** *** Packages net/url and path: the path of a request *)

Definition ishex (c : ascii) : bool :=
  let b := byteZ c in
  ((48 <=? b) && (b <=? 57)) || ((97 <=? b) && (b <=? 102))
  || ((65 <=? b) && (b <=? 70)).

Definition unhex (c : ascii) : Z :=
  let b := byteZ c in
  if (48 <=? b) && (b <=? 57) then b - 48
  else if (97 <=? b) && (b <=? 102) then b - 97 + 10
  else if (65 <=? b) && (b <=? 70) then b - 65 + 10
  else 0.

(** [url.unescape] in the mode of a path, which is also
    [url.PathUnescape]: every [%XX] becomes the byte it spells; none when
    a '%' is not followed by two hexadecimal digits. *)
Fixpoint unescape (s : string) : option string :=
  match s with
  | EmptyString => Some EmptyString
  | String c rest =>
    if byteZ c =? 37 then
      match rest with
      | String h (String l rest') =>
        if ishex h && ishex l
        then String (byte_of_Z (16 * unhex h + unhex l)) <$> unescape rest'
        else None
      | _ => None
      end
    else String c <$> unescape rest
  end.

Definition alnum (b : Z) : bool :=
  ((97 <=? b) && (b <=? 122)) || ((65 <=? b) && (b <=? 90))
  || ((48 <=? b) && (b <=? 57)).

(** [url.shouldEscape] in the mode of a path: letters, digits,
    [- _ . ~] and [$ & + , / : ; = @] stay as they are. *)
Definition shouldEscape (c : ascii) : bool :=
  let b := byteZ c in
  negb (alnum b
        || (b =? 45) || (b =? 95) || (b =? 46) || (b =? 126)
        || (b =? 36) || (b =? 38) || (b =? 43) || (b =? 44) || (b =? 47)
        || (b =? 58) || (b =? 59) || (b =? 61) || (b =? 64)).

(** [url.validEncoded] in the mode of a path: besides the bytes that need
    no escape, [! $ & ' ( ) * + , ; = : @ [ ] %] may stand in an encoded
    path. *)
Definition validEncodedByte (c : ascii) : bool :=
  let b := byteZ c in
  (b =? 33) || (b =? 36) || (b =? 38) || (b =? 39) || (b =? 40)
  || (b =? 41) || (b =? 42) || (b =? 43) || (b =? 44) || (b =? 59)
  || (b =? 61) || (b =? 58) || (b =? 64) || (b =? 91) || (b =? 93)
  || (b =? 37) || negb (shouldEscape c).

Definition validEncoded (s : string) : bool := allBytes validEncodedByte s.

Definition upperhex (n : Z) : ascii :=
  if n <? 10 then byte_of_Z (48 + n) else byte_of_Z (65 + (n - 10)).

(** [url.escape] in the mode of a path. *)
Fixpoint escape (s : string) : string :=
  match s with
  | EmptyString => EmptyString
  | String c rest =>
    if shouldEscape c
    then String "%" (String (upperhex (byteZ c / 16))
                       (String (upperhex (byteZ c mod 16)) (escape rest)))
    else String c (escape rest)
  end.

(** [strings.Split(s, "/")] *)
Fixpoint splitSlash (s : string) : list string :=
  match s with
  | EmptyString => [EmptyString]
  | String c rest =>
    if byteZ c =? 47 then EmptyString :: splitSlash rest
    else match splitSlash rest with
         | seg :: segs => String c seg :: segs
         | [] => [String c EmptyString]
         end
  end.

(** [strings.Count(s, "/")] *)
Fixpoint countSlash (s : string) : nat :=
  match s with
  | EmptyString => 0
  | String c rest => (if byteZ c =? 47 then 1 else 0) + countSlash rest
  end.

Definition endsInSlash (s : string) : bool :=
  match String.get (String.length s - 1) s with
  | Some c => byteZ c =? 47
  | None => false
  end.

(** One element of a path in [path.Clean]: an empty element and "." are
    dropped, ".." drops the element before it (at the root, nothing). *)
Definition cleanStep (out : list string) (elem : string) : list string :=
  if String.eqb elem "" || String.eqb elem "." then out
  else if String.eqb elem ".." then removelast out
  else out ++ [elem].

(** [path.Clean] of a path that begins with '/'. *)
Definition path_Clean (p : string) : string :=
  match fold_left cleanStep (splitSlash p) [] with
  | [] => "/"
  | out => fold_right (λ elem acc, String "/" (elem +:+ acc)) EmptyString out
  end.

(** [cleanPath] of net/http: [path.Clean] of the rooted path, with the
    trailing slash put back. *)
Definition mux_cleanPath (p : string) : string :=
  if String.eqb p "" then "/"
  else
    let p := if String.prefix "/" p then p else String "/" p in
    let np := path_Clean p in
    if endsInSlash p && negb (String.eqb np "/") then np +:+ "/" else np.

(** *** Requests *)

(** A request as it arrives: the fields of [*http.Request] that the
    program and the mux read.  [PathAndQuery] is the path of the request
    target and, after a '?', its query, as they were received (for a
    target in origin form, the target itself); net/url derives the fields
    of [r.URL] from it.  A target in asterisk form has neither and is not
    modelled, and the request is taken to be well-formed in all but its
    target. *)
Record Request : Type := mkRequest {
  Method : string;
  PathAndQuery : string;
  Proto : string;
  RemoteAddr : string;
  Header : list (string * list string);   (* http.Header, as ranged over *)
  Body : string
}.

(** What comes before the first '?'. *)
Fixpoint beforeQuery (s : string) : string :=
  match s with
  | EmptyString => EmptyString
  | String c rest =>
    if byteZ c =? 63 then EmptyString else String c (beforeQuery rest)
  end.

(** The path of the request target, before unescaping. *)
Definition TargetPath (r : Request) : string := beforeQuery (PathAndQuery r).

(** The targets that the server accepts: there is no space and no control
    byte, and the path is empty or begins with '/' and holds no '%' that
    is not followed by two hexadecimal digits.  Any other request is
    answered 400 by the server itself. *)
Definition targetAccepted (target : string) : bool :=
  (String.eqb (beforeQuery target) "" || String.prefix "/" (beforeQuery target))
  && allBytes (λ c, (32 <? byteZ c) && negb (byteZ c =? 127)) target
  && match unescape (beforeQuery target) with
     | Some _ => true
     | None => false
     end.

(** [r.URL.Path]: the unescaped path (empty for a target that the server
    does not accept, for which there is no [r]). *)
Definition URL_Path (r : Request) : string :=
  if targetAccepted (PathAndQuery r)
  then default EmptyString (unescape (TargetPath r))
  else EmptyString.

(** [r.URL.RawPath], as [URL.setPath] leaves it: empty when the path was
    received in the default encoding. *)
Definition URL_RawPath (r : Request) : string :=
  if String.eqb (TargetPath r) (escape (URL_Path r)) then EmptyString
  else TargetPath r.

(** [r.URL.EscapedPath()] *)
Definition EscapedPath (r : Request) : string :=
  let raw := URL_RawPath r in
  if negb (String.eqb raw "") && validEncoded raw
     && bool_decide (unescape raw = Some (URL_Path r))
  then raw
  else if String.eqb (URL_Path r) "*" then "*"
  else escape (URL_Path r).

(** The request built by [http.NewRequest], with the headers added since. *)
Record Outbound : Type := mkOutbound {
  outMethod : string;
  outURL : string;
  outHeader : list (string * string);
  outBody : string
}.

(** [*http.Response]; [copied] are the pieces of the body that [io.Copy]
    gets written before it returns, and [copyErr] the error it returns. *)
Record Response : Type := mkResponse {
  StatusCode : Z;
  respHeader : list (string * list string);
  copied : list string;
  copyErr : option string
}.

(** What lies outside the program while one request is served. *)
Record Env : Type := mkEnv {
  version : string;                      (* the package variables *)
  backendURL : string;
  NewRequest_err : string → string → option string;
                                         (* the error of [http.NewRequest] *)
  client_Do : Outbound → string + Response;
  sinceStart : string;                   (* time.Since(startTime).String() *)
  nowUnix : Z;                           (* time.Now().Unix() *)
  order : RangeOrder;                    (* the order of the [range] loops *)
  elapsed : Z;                           (* time.Since(requestStart) *)
  redirectCalls : string → list Call
    (* what [http.RedirectHandler] writes for a location; the status is
       301 or 307 with the release of Go *)
}.

Inductive LogEntry : Type :=
  | AccessLine (remoteAddr method path proto : string) (status : Z)
               (userAgent : string) (duration : Z)
  | LogLine (msg : string)
  | StdoutLine (msg : string).

(** The state of the process: the package variable [metrics] and what has
    been logged. *)
Record Process : Type := mkProcess {
  metrics : Metrics;
  logged : list LogEntry
}.

(** [http.HandlerFunc]: a handler works on any writer, reads and changes
    the process state, and has no result when it waits for a lock that is
    held.  The result is the writer after the calls of the handler, made
    on a writer that returns from every call; which of them panics in
    net/http, so that the handler stops there, is told by [panics]. *)
Definition HandlerFunc : Type :=
  ∀ W : Type, http_ResponseWriter W → W → Request → Process →
  option (W * Process).

(** [http.Error] *)
Definition http_Error {W} `{http_ResponseWriter W} (w : W) (error : string)
    (code : Z) : W :=
  let w := Header_Del "Content-Length" w in
  let w := Header_Set "Content-Type" "text/plain; charset=utf-8" w in
  let w := Header_Set "X-Content-Type-Options" "nosniff" w in
  let w := WriteHeader code w in
  Write (Bytes (error +:+ newline)) w.

(** [http.NotFound] *)
Definition http_NotFound {W} `{http_ResponseWriter W} (w : W) (r : Request)
    : W :=
  http_Error w "404 page not found" 404.

(** [for name, values := range h { for _, value := range values { f } }] *)
Definition headerPairs (h : list (string * list string))
    : list (string * string) :=
  flat_map (λ '(name, values), map (λ value, (name, value)) values) h.

(** [r.Header.Get("User-Agent")] *)
Definition userAgent (r : Request) : string :=
  match list_find (λ kv, kv.1 = "User-Agent") (Header r) with
  | Some (_, (_, v :: _)) => v
  | _ => EmptyString
  end.

(** The bytes of a header name ([validHeaderFieldByte]): letters, digits
    and [! # $ % & ' * + - . ^ _ ` | ~]. *)
Definition validHeaderFieldByte (c : ascii) : bool :=
  let b := byteZ c in
  alnum b
  || (b =? 33) || (b =? 35) || (b =? 36) || (b =? 37) || (b =? 38)
  || (b =? 39) || (b =? 42) || (b =? 43) || (b =? 45) || (b =? 46)
  || (b =? 94) || (b =? 95) || (b =? 96) || (b =? 124) || (b =? 126).

(** The loop of [canonicalMIMEHeaderKey]: upper case for the first letter
    and for a letter after '-', lower case for every other letter. *)
Fixpoint canonicalBytes (upper : bool) (s : string) : string :=
  match s with
  | EmptyString => EmptyString
  | String c rest =>
    let b := byteZ c in
    let b' := if upper && (97 <=? b) && (b <=? 122) then b - 32
              else if negb upper && (65 <=? b) && (b <=? 90) then b + 32
              else b in
    String (byte_of_Z b') (canonicalBytes (b' =? 45) rest)
  end.

(** [textproto.CanonicalMIMEHeaderKey]: a name that holds a byte which no
    header name can hold is left as it is. *)
Definition CanonicalMIMEHeaderKey (s : string) : string :=
  if allBytes validHeaderFieldByte s then canonicalBytes true s else s.

(** The request that [ForwardToBackend] sends.  [http.NewRequest] gives it
    the method of the inbound request ("GET" when that is empty), the
    backend URL and the inbound body; every inbound header value is then
    added with [Header.Add], which files it under the canonical form of
    its name. *)
Definition outbound (env : Env) (r : Request) : Outbound :=
  {| outMethod := if String.eqb (Method r) "" then "GET" else Method r;
     outURL := backendURL env;
     outHeader := map (λ '(name, value), (CanonicalMIMEHeaderKey name, value))
                      (headerPairs (Header r));
     outBody := Body r |}.

Section Handlers.
Variable env : Env.

Definition ForwardToBackend : HandlerFunc := λ W _ w r p,
  if negb (String.eqb (URL_Path r) "/") then Some (http_NotFound w r, p)
  else
    match NewRequest_err env (Method r) (backendURL env) with
    | Some err =>
      Some (http_Error w ("Error creating request: " +:+ err) 500, p)
    | None =>
      match client_Do env (outbound env r) with
      | inl err =>
        Some (http_Error w ("Error forwarding to backend: " +:+ err) 503, p)
      | inr resp =>
        let w := fold_left (λ w '(name, value), Header_Add name value w)
                           (headerPairs (respHeader resp)) w in
        let w := WriteHeader (StatusCode resp) w in
        let w := fold_left (λ w piece, Write (Bytes piece) w)
                           (copied resp) w in
        match copyErr resp with
        | Some err =>
          Some (w, {| metrics := metrics p;
                      logged := logged p ++
                        [LogLine ("Error copying response body: " +:+ err)] |})
        | None => Some (w, p)
        end
      end
    end.

Definition VersionHandler : HandlerFunc := λ W _ w r p,
  if negb (String.eqb (URL_Path r) "/version")
  then Some (http_NotFound w r, p)
  else
    let w := Header_Set "Content-Type" "text/plain" w in
    Some (Write (Bytes ("Version: " +:+ version env +:+ newline)) w, p).

Definition LivenessHandler : HandlerFunc := λ W _ w r p,
  if negb (String.eqb (URL_Path r) "/health/live")
  then Some (http_NotFound w r, p)
  else
    let w := Header_Set "Content-Type" "application/json" w in
    Some (Write (Bytes ("{" +:+ quoted "status" +:+ ":" +:+ quoted "UP"
                        +:+ "," +:+ quoted "uptime" +:+ ":"
                        +:+ quoted (sinceStart env) +:+ "}")) w, p).

Definition ReadinessHandler : HandlerFunc := λ W _ w r p,
  if negb (String.eqb (URL_Path r) "/health/ready")
  then Some (http_NotFound w r, p)
  else
    let w := Header_Set "Content-Type" "application/json" w in
    let w := WriteHeader 200 w in
    Some (Write (Bytes ("{" +:+ quoted "status" +:+ ":" +:+ quoted "UP"
                        +:+ "," +:+ quoted "backend" +:+ ":"
                        +:+ quoted (backendURL env) +:+ "}")) w, p).

Definition MetricsHandler : HandlerFunc := λ W _ w r p,
  if negb (String.eqb (URL_Path r) "/metrics")
  then Some (http_NotFound w r, p)
  else
    let w := Header_Set "Content-Type" "text/plain" w in
    '(out, m) ← GetPrometheusMetrics (order env) (version env) (nowUnix env)
                                     (metrics p);
    Some (Write (Lines out) w, {| metrics := m; logged := logged p |}).

(** The body that [NotFoundHandler] writes for a path. *)
Definition notFoundJSON (path : string) : string :=
  "{" +:+ quoted "status" +:+ ":" +:+ quoted "Not Found" +:+ ","
  +:+ quoted "message" +:+ ":"
  +:+ quoted "The requested URI does not exist" +:+ ","
  +:+ quoted "path" +:+ ":" +:+ quoted path +:+ "}".

Definition NotFoundHandler : HandlerFunc := λ W _ w r p,
  let w := Header_Set "Content-Type" "application/json" w in
  let w := WriteHeader 404 w in
  Some (Write (Bytes (notFoundJSON (URL_Path r))) w, p).

Definition AccessLogMiddleware (next : HandlerFunc) : HandlerFunc :=
  λ W _ w r p,
  let rw := {| ResponseWriter := w; statusCode := 200 |} in
  '(rw, p) ← next (responseWriter W) _ rw r p;
  let duration := elapsed env in
  let line := AccessLine (RemoteAddr r) (Method r) (URL_Path r) (Proto r)
                         (statusCode rw) (userAgent r) duration in
  m ← RecordRequest (URL_Path r) (statusCode rw) duration (metrics p);
  Some (ResponseWriter rw,
        {| metrics := m;
           logged := logged p ++
             [line; StdoutLine (RecordRequest_stdout (URL_Path r))] |}).

(** The routes that [main] registers, in its order. *)
Definition routes : list (string * HandlerFunc) :=
  [ ("/", AccessLogMiddleware ForwardToBackend);
    ("/version", AccessLogMiddleware VersionHandler);
    ("/health/live", AccessLogMiddleware LivenessHandler);
    ("/health/ready", AccessLogMiddleware ReadinessHandler);
    ("/metrics", AccessLogMiddleware MetricsHandler) ].
End Handlers.

(** *** The request multiplexer *)

(** [http.ServeMux] as it is since Go 1.22, for patterns without method,
    host and wildcards. *)

(** [pathUnescape] of the mux: a segment that does not unescape is taken
    as it is. *)
Definition pathUnescape (s : string) : string := default s (unescape s).

(** The segments that the mux takes off a path one by one
    ([firstSegment]), unescaped; the slash that ends a path counts as the
    segment "/". *)
Definition pathSegments (path : string) : list string :=
  let segs := tail (splitSlash path) in
  match last segs with
  | Some EmptyString => map pathUnescape (removelast segs) ++ ["/"]
  | _ => map pathUnescape segs
  end.

(** A pattern without method, host and wildcards, as [main] registers
    them: the literal segments, and whether the pattern ends in '/' and so
    names every path below them. *)
Record Pattern : Type := mkPattern {
  literals : list string;
  multi : bool
}.

Definition parsePattern (s : string) : Pattern :=
  let segs := tail (splitSlash s) in
  match last segs with
  | Some EmptyString =>
    {| literals := map pathUnescape (removelast segs); multi := true |}
  | _ => {| literals := map pathUnescape segs; multi := false |}
  end.

(** A pattern matches when its literals are the first segments of the
    path, and either the path ends there and the pattern does not end in
    '/', or the pattern ends in '/' and the path goes on. *)
Fixpoint matchSegs (lits : list string) (rest : bool) (segs : list string)
    : bool :=
  match lits, segs with
  | [], [] => negb rest
  | [], _ :: _ => rest
  | l :: lits', seg :: segs' => String.eqb l seg && matchSegs lits' rest segs'
  | _ :: _, [] => false
  end.

(** The match of the routing tree: a literal is tried before the rest of a
    pattern that ends in '/', so of the patterns that match, the one with
    the most literal segments wins. *)
Fixpoint treeMatch {H : Type} (rs : list (string * H)) (segs : list string)
    : option (string * H) :=
  match rs with
  | [] => None
  | (pattern, h) :: rest =>
    let other := treeMatch rest segs in
    let pat := parsePattern pattern in
    if matchSegs (literals pat) (multi pat) segs then
      match other with
      | Some (pattern', _) =>
        if (length (literals pat)
            <? length (literals (parsePattern pattern')))%nat
        then other else Some (pattern, h)
      | None => Some (pattern, h)
      end
    else other
  end.

(** [exactMatch]: the node matches the path without using the rest of a
    pattern that ends in '/'. *)
Definition exactMatch {H : Type} (n : option (string * H)) (path : string)
    : bool :=
  match n with
  | None => false
  | Some (pattern, _) =>
    let pat := parsePattern pattern in
    if negb (multi pat) then true
    else endsInSlash path
         && (length (literals pat) + 1 =? countSlash path)%nat
  end.

(** [ServeMux.matchOrRedirect]: the match for a path and, when the path is
    matched only by what follows a '/' and the same path with a slash
    added is matched exactly, the location of that path with the slash;
    [uPath] is the path of the URL handed in. *)
Definition matchOrRedirect {H : Type} (rs : list (string * H))
    (path uPath : string) : option (string * H) * option string :=
  let n := treeMatch rs (pathSegments path) in
  if negb (exactMatch n path) && negb (endsInSlash path)
     && exactMatch (treeMatch rs (pathSegments (path +:+ "/")))
                   (path +:+ "/")
  then (None, Some (mux_cleanPath uPath +:+ "/"))
  else (n, None).

(** What the mux decides for a request. *)
Inductive Dispatch (H : Type) : Type :=
  | Handle (pattern : string) (h : H)
  | RedirectTo (location : string)
  | NotFound.
Arguments Handle {H} _ _.
Arguments RedirectTo {H} _.
Arguments NotFound {H}.

(** [ServeMux.findHandler]: the escaped path of a request other than
    CONNECT is cleaned, and a request whose path changes by that is
    redirected to the cleaned path; the handler is found by the segments
    of the escaped path. *)
Definition findHandler {H : Type} (rs : list (string * H)) (r : Request)
    : Dispatch H :=
  let escapedPath := EscapedPath r in
  if String.eqb (Method r) "CONNECT" then
    match matchOrRedirect rs escapedPath (URL_Path r) with
    | (_, Some location) => RedirectTo location
    | (_, None) =>
      match treeMatch rs (pathSegments escapedPath) with
      | Some (pattern, h) => Handle pattern h
      | None => NotFound
      end
    end
  else
    let path := mux_cleanPath escapedPath in
    match matchOrRedirect rs path (URL_Path r) with
    | (_, Some location) => RedirectTo location
    | (n, None) =>
      if negb (String.eqb path escapedPath) then RedirectTo path
      else match n with
           | Some (pattern, h) => Handle pattern h
           | None => NotFound
           end
    end.

(** The paths that [main] registers. *)
Definition servedRoutes : list string :=
  ["/"; "/version"; "/health/live"; "/health/ready"; "/metrics"].

(** What the server writes, without a handler, for a request whose target
    it does not accept. *)
Definition badRequest : response :=
  [ HeaderSet "Content-Type" "text/plain; charset=utf-8";
    HeaderSet "Connection" "close";
    CallWriteHeader 400;
    CallWrite (Bytes "400 Bad Request") ].

(** One request, from the server to the response: the server refuses a
    target it cannot parse; the mux answers a redirect itself or runs the
    handler it finds on a fresh writer.  A handler that makes a call which
    panics does not return, nor does the middleware around it: there is
    no result. *)
Definition serve (env : Env) (r : Request) (p : Process)
    : option (response * Process) :=
  if negb (targetAccepted (PathAndQuery r)) then Some (badRequest, p)
  else
    match findHandler (routes env) r with
    | Handle _ h =>
      '(w, p') ← h response _ [] r p;
      if panics w then None else Some (w, p')
    | RedirectTo location => Some (redirectCalls env location, p)
    | NotFound => Some (http_NotFound [] r, p)
    end.

(** The requests that the mux hands to a handler: the target is accepted
    and its escaped path is in the form that [cleanPath] gives it (for
    CONNECT, which is not cleaned: it is not empty). *)
Definition dispatched (r : Request) : bool :=
  targetAccepted (PathAndQuery r)
  && (if String.eqb (Method r) "CONNECT"
      then negb (String.eqb (EscapedPath r) "")
      else String.eqb (mux_cleanPath (EscapedPath r)) (EscapedPath r)).

(** *** Concrete inputs and the calls of the library helpers *)

(** The calls that [http.Error] makes. *)
Definition errorCalls (error : string) (code : Z) : list Call :=
  [ HeaderDel "Content-Length";
    HeaderSet "Content-Type" "text/plain; charset=utf-8";
    HeaderSet "X-Content-Type-Options" "nosniff";
    CallWriteHeader code;
    CallWrite (Bytes (error +:+ newline)) ].

(** The calls of [ForwardToBackend] once the backend has answered. *)
Definition relayCalls (resp : Response) : list Call :=
  map (λ '(name, value), HeaderAdd name value)
      (headerPairs (respHeader resp))
  ++ [CallWriteHeader (StatusCode resp)]
  ++ map (λ piece, CallWrite (Bytes piece)) (copied resp).

(** The wrapper that [AccessLogMiddleware] builds around a fresh writer. *)
Definition fresh : responseWriter response := mkResponseWriter [] 200.

(** A GET request for a target. *)
Definition getRequest (path : string) : Request :=
  {| Method := "GET"; PathAndQuery := path; Proto := "HTTP/1.1";
     RemoteAddr := "127.0.0.1:50000"; Header := []; Body := EmptyString |}.

Definition process0 : Process :=
  {| metrics := NewMetrics 0; logged := [] |}.

(** A backend that answers 201 with one header and a body in two pieces,
    and whose body breaks off when [broken]. *)
Definition backendResponse (broken : bool) : Response :=
  {| StatusCode := 201;
     respHeader := [("X-Backend", ["a"; "b"])];
     copied := ["he"; "llo"];
     copyErr := if broken then Some "unexpected EOF" else None |}.

(** An environment with the default configuration; the flags choose what
    [http.NewRequest] and [client.Do] return. *)
Definition envWith (build send : bool) (resp : Response) : Env :=
  {| version := "1.0.0";
     backendURL := "http://localhost:8080/version";
     NewRequest_err := λ _ _, if build then None else Some "invalid URL";
     client_Do := λ _, if send then inr resp else inl "connection refused";
     sinceStart := "1s";
     nowUnix := 10;
     order := mapOrder;
     elapsed := 1500000;
     redirectCalls := λ location,
       [HeaderSet "Location" location; CallWriteHeader 301] |}.

(** ** Configuration, runs of calls, and what a text exposes *)

(** [os.Getenv] on the environment of the process: the value of a
    variable, empty when it is not set. *)
Definition Getenv (environ : gmap string string) (key : string) : string :=
  default EmptyString (environ !! key).

(** [init]: the package variables [version] and [backendURL]. *)
Definition init (environ : gmap string string) : string * string :=
  let version := Getenv environ "VERSION" in
  let version := if String.eqb version "" then "1.0.0" else version in
  let backendURL := Getenv environ "BACKEND" in
  let backendURL :=
    if String.eqb backendURL "" then "http://localhost:8080/version"
    else backendURL in
  (version, backendURL).

(** The address that [main] hands to [http.ListenAndServe]. *)
Definition listenAddr (environ : gmap string string) : string :=
  let port := Getenv environ "PORT" in
  let port := if String.eqb port "" then "8080" else port in
  ":" +:+ port.

(** An environment whose package variables are the ones [init] sets. *)
Definition configured (environ : gmap string string) (env : Env) : Env :=
  {| version := (init environ).1;
     backendURL := (init environ).2;
     NewRequest_err := NewRequest_err env;
     client_Do := client_Do env;
     sinceStart := sinceStart env;
     nowUnix := nowUnix env;
     order := order env;
     elapsed := elapsed env;
     redirectCalls := redirectCalls env |}.

(** The same environment with another backend behind [client.Do]. *)
Definition withDo (env : Env) (Do : Outbound → string + Response) : Env :=
  {| version := version env;
     backendURL := backendURL env;
     NewRequest_err := NewRequest_err env;
     client_Do := Do;
     sinceStart := sinceStart env;
     nowUnix := nowUnix env;
     order := order env;
     elapsed := elapsed env;
     redirectCalls := redirectCalls env |}.

(** The five handlers with the paths they own, before [main] wraps them. *)
Definition handlers (env : Env) : list (string * HandlerFunc) :=
  [ ("/", ForwardToBackend env);
    ("/version", VersionHandler env);
    ("/health/live", LivenessHandler env);
    ("/health/ready", ReadinessHandler env);
    ("/metrics", MetricsHandler env) ].

(** Calls of [RecordRequest] one after the other, oldest first; an entry
    is the raw path, the status code and the duration. *)
Fixpoint recordAll (log : list (string * Z * Z)) (m : Metrics)
    : option Metrics :=
  match log with
  | [] => Some m
  | (path, statusCode, duration) :: rest =>
    m' ← RecordRequest path statusCode duration m;
    recordAll rest m'
  end.

(** The entries of a log that fall under a key. *)
Definition hits (key : string) (log : list (string * Z * Z))
    : list (string * Z * Z) :=
  filter (λ e, cleanPath e.1.1 = key) log.

(** Requests served one after the other, each in its own environment;
    the result is the calls each response received and the final state. *)
Fixpoint serveAll (reqs : list (Env * Request)) (p : Process)
    : option (list response * Process) :=
  match reqs with
  | [] => Some ([], p)
  | (env, r) :: rest =>
    '(w, p1) ← serve env r p;
    '(ws, p2) ← serveAll rest p1;
    Some (w :: ws, p2)
  end.

Definition isAccessLine (e : LogEntry) : bool :=
  match e with AccessLine _ _ _ _ _ _ _ => true | _ => false end.

(** The number of access lines in a log. *)
Definition accessLines (l : list LogEntry) : nat :=
  length (filter (λ e, isAccessLine e = true) l).

(** The values that a list of [Header.Add] calls leaves under a name. *)
Definition valuesOf (name : string) (adds : list (string * string))
    : list string :=
  (filter (λ nv, nv.1 = name) adds).*2.

(** A string that can be a key of the aggregator: not empty, not
    beginning with '_', made of letters, digits, '/' and '_'. *)
Definition isKey (k : string) : bool :=
  allBytes keyByte k
  && negb (String.eqb k EmptyString || String.prefix "_" k).

(** The [path] label of a line, if it has one. *)
Definition linePath (l : Line) : option string :=
  match l with
  | RequestsTotal p _ | ResponseStatusTotal p _ _ | DurationBucket p _ _
  | DurationSum p _ | DurationCount p _ => Some p
  | _ => None
  end.

(** The time series a line belongs to: the metric name and the labels. *)
Inductive Series : Type :=
  | SAppInfo (version : string)
  | SUptime
  | STotal (path : string)
  | SStatus (path : string) (code : Z)
  | SBucket (path : string) (le : Bound)
  | SSum (path : string)
  | SCount (path : string).

Definition seriesOf (l : Line) : option Series :=
  match l with
  | Text _ => None
  | AppInfo v => Some (SAppInfo v)
  | Uptime _ => Some SUptime
  | RequestsTotal p _ => Some (STotal p)
  | ResponseStatusTotal p c _ => Some (SStatus p c)
  | DurationBucket p b _ => Some (SBucket p b)
  | DurationSum p _ => Some (SSum p)
  | DurationCount p _ => Some (SCount p)
  end.

(** The body that the handler of one of the four fixed routes writes. *)
Definition okBody (env : Env) (p : Process) (path : string) : Chunk :=
  if String.eqb path "/version"
  then Bytes ("Version: " +:+ version env +:+ newline)
  else if String.eqb path "/health/live"
  then Bytes ("{" +:+ quoted "status" +:+ ":" +:+ quoted "UP" +:+ ","
              +:+ quoted "uptime" +:+ ":" +:+ quoted (sinceStart env)
              +:+ "}")
  else if String.eqb path "/health/ready"
  then Bytes ("{" +:+ quoted "status" +:+ ":" +:+ quoted "UP" +:+ ","
              +:+ quoted "backend" +:+ ":" +:+ quoted (backendURL env)
              +:+ "}")
  else Lines (exposition (order env) (version env) (nowUnix env)
                         (metrics p)).

(** The routes other than "/". *)
Definition fixedRoutes : list string :=
  ["/version"; "/health/live"; "/health/ready"; "/metrics"].

(** The [path] label of a series; empty for the two that have none. *)
Definition seriesPath (x : Series) : string :=
  match x with
  | SAppInfo _ | SUptime => EmptyString
  | STotal p | SStatus p _ | SBucket p _ | SSum p | SCount p => p
  end.

(** The series of the histogram of one path. *)
Definition blockSeries (path : string) : list Series :=
  map (λ b, SBucket path (Le b)) buckets
  ++ [SBucket path Inf; SSum path; SCount path].

(** The values on the bucket lines of a text, in order. *)
Definition bucketValues (out : list Line) : list Z :=
  omap (λ l, match l with DurationBucket _ _ n => Some n | _ => None end) out.

(** The values that the [Header.Add] calls among a list of calls leave
    under a name, in the order of the calls. *)
Definition addedValues (name : string) (cs : list Call) : list string :=
  omap (λ c, match c with
             | HeaderAdd key value =>
               if decide (key = name) then Some value else None
             | _ => None
             end) cs.

(** [http.Header.Values]: the values that a header holds under a name. *)
Definition Header_Values (h : list (string * list string)) (name : string)
    : list string :=
  concat (filter (λ e, e.1 = name) h).*2.

Definition isHeaderAdd (c : Call) : bool :=
  match c with HeaderAdd _ _ => true | _ => false end.

(** The pattern of [main] for the segments of a path: the pattern that
    spells exactly these segments, and "/" when there is none. *)
Definition routeOf (segs : list string) : string :=
  if decide (segs = ["version"]) then "/version"
  else if decide (segs = ["health"; "live"]) then "/health/live"
  else if decide (segs = ["health"; "ready"]) then "/health/ready"
  else if decide (segs = ["metrics"]) then "/metrics"
  else "/".

(** The backend, if it answers the request, answers with a status code
    that [WriteHeader] accepts. *)
Definition backendCodeValid (env : Env) (r : Request) : Prop :=
  ∀ resp, client_Do env (outbound env r) = inr resp →
          validCode (StatusCode resp) = true.

(** [d] nanoseconds in seconds, as [time.Duration.Seconds] documents it:
    the whole seconds plus the remaining nanoseconds over 1e9, in
    float64. *)
Definition inSeconds (d : Z) : float :=
  let whole := Z.quot d 1000000000 in
  let nanos := d - 1000000000 * whole in
  let float64 (z : Z) :=
    if 0 <=? z then PrimFloat.of_uint63 (Uint63.of_Z z)
    else PrimFloat.opp (PrimFloat.of_uint63 (Uint63.of_Z (Z.opp z))) in
  PrimFloat.add (float64 whole) (PrimFloat.div (float64 nanos) 1e9%float).

(** * Properties *)

(** ** Path keys *)

Lemma byteZ_range a : 0 <= byteZ a < 256.
Proof.
  unfold byteZ. pose proof (N_ascii_bounded a). lia.
Qed.

Lemma byte_of_Z_byteZ a : byte_of_Z (byteZ a) = a.
Proof.
  unfold byte_of_Z. pose proof (byteZ_range a) as Hr.
  rewrite Z.mod_small by lia. unfold byteZ.
  rewrite N2Z.id. apply ascii_N_embedding.
Qed.

Lemma byteZ_byte_of_Z z : 0 <= z < 256 → byteZ (byte_of_Z z) = z.
Proof.
  intros Hz. unfold byteZ, byte_of_Z. rewrite Z.mod_small by lia.
  rewrite N_ascii_embedding by lia. lia.
Qed.

Lemma cleanRune_cases r :
  cleanRune r = (if letterDigitSlash r then r else 95).
Proof.
  unfold cleanRune, letterDigitSlash.
  repeat match goal with
         | |- context [?a <=? ?b] => destruct (Z.leb_spec a b)
         | |- context [?a =? ?b] => destruct (Z.eqb_spec a b)
         end; simpl; lia.
Qed.

Lemma cleanRune_range r : 47 <= cleanRune r <= 122.
Proof.
  unfold cleanRune.
  repeat match goal with
         | |- context [?a <=? ?b] => destruct (Z.leb_spec a b)
         | |- context [?a =? ?b] => destruct (Z.eqb_spec a b)
         end; simpl; lia.
Qed.

Lemma cleanRune_keyByte r : keyByte (byte_of_Z (cleanRune r)) = true.
Proof.
  pose proof (cleanRune_range r) as Hr.
  unfold keyByte. rewrite byteZ_byte_of_Z by lia.
  rewrite cleanRune_cases.
  destruct (letterDigitSlash r) eqn:E; [|reflexivity].
  revert E. unfold letterDigitSlash. cbv zeta.
  repeat match goal with
         | |- context [?a <=? ?b] => destruct (Z.leb_spec a b)
         | |- context [?a =? ?b] => destruct (Z.eqb_spec a b)
         end; simpl; intros; try reflexivity; try discriminate; lia.
Qed.

Lemma EncodeRune_ascii r : 0 <= r < 128 → EncodeRune r = str1 r.
Proof.
  intros Hr. unfold EncodeRune.
  destruct (Z.leb_spec 0 r); [|lia]. destruct (Z.ltb_spec r 128); [|lia].
  reflexivity.
Qed.

Lemma emit_cleanRune r :
  (if cleanRune r <? 0 then EmptyString else EncodeRune (cleanRune r))
  = String (byte_of_Z (cleanRune r)) EmptyString.
Proof.
  pose proof (cleanRune_range r) as Hr.
  destruct (Z.ltb_spec (cleanRune r) 0); [lia|].
  rewrite EncodeRune_ascii by lia. reflexivity.
Qed.

Lemma MapFrom_runes skip s :
  MapFrom cleanRune skip s
  = string_of_bytes (map cleanRune (runesFrom skip s)).
Proof.
  revert skip. induction s as [|c t IH]; intros skip; [reflexivity|].
  destruct skip as [|k]; cbn [MapFrom runesFrom].
  - destruct (DecodeRuneInString (String c t)) as [r w].
    rewrite emit_cleanRune, IH. reflexivity.
  - apply IH.
Qed.

Lemma MapFrom_allBytes skip s :
  allBytes keyByte (MapFrom cleanRune skip s) = true.
Proof.
  rewrite MapFrom_runes.
  induction (runesFrom skip s) as [|r l IH]; [reflexivity|].
  cbn [map string_of_bytes allBytes].
  rewrite cleanRune_keyByte, IH. reflexivity.
Qed.

Lemma Decode_ascii c t :
  byteZ c < 128 → DecodeRuneInString (String c t) = (byteZ c, 1%nat).
Proof.
  intros Hc. unfold DecodeRuneInString, first.
  destruct (Z.ltb_spec (byteZ c) 128); [|lia]. reflexivity.
Qed.

Lemma keyByte_cleanRune c :
  keyByte c = true → byteZ c < 128 ∧ cleanRune (byteZ c) = byteZ c.
Proof.
  unfold keyByte, cleanRune. cbv zeta.
  repeat match goal with
         | |- context [?a <=? ?b] => destruct (Z.leb_spec a b)
         | |- context [?a =? ?b] => destruct (Z.eqb_spec a b)
         end; simpl; intros; try discriminate; lia.
Qed.

(** A string of key bytes is left as it is. *)
Lemma mapped_key s : allBytes keyByte s = true → mapped s = s.
Proof.
  unfold mapped, strings_Map.
  induction s as [|c t IH]; [reflexivity|].
  cbn [allBytes]. intros [Hc Ht]%andb_prop.
  destruct (keyByte_cleanRune c Hc) as [Hlt Hid].
  cbn [MapFrom]. rewrite Decode_ascii by exact Hlt.
  rewrite emit_cleanRune, Hid, byte_of_Z_byteZ.
  change (1 - 1)%nat with 0%nat. rewrite (IH Ht). reflexivity.
Qed.

Lemma cleanPath_cases p :
  cleanPath p
  = (if String.eqb (mapped p) EmptyString || String.prefix "_" (mapped p)
     then "root" +:+ mapped p else mapped p).
Proof.
  unfold cleanPath. destruct (mapped p) as [|c t]; [reflexivity|].
  cbn [String.eqb String.prefix orb].
  destruct (Z.eqb_spec (byteZ c) 95) as [He|Hne].
  - assert (c = "_"%char) as ->.
    { rewrite <- (byte_of_Z_byteZ c), He. reflexivity. }
    destruct t; reflexivity.
  - destruct (Ascii.ascii_dec "_"%char c) as [<-|Hc].
    + exfalso. apply Hne. reflexivity.
    + destruct (Ascii.eqb_spec "_"%char c); [contradiction|reflexivity].
Qed.

(** A key is not empty, does not begin with '_' and is made of key
    bytes. *)
Lemma cleanPath_shape p :
  allBytes keyByte (cleanPath p) = true
  ∧ ∃ c t, cleanPath p = String c t ∧ byteZ c ≠ 95.
Proof.
  pose proof (MapFrom_allBytes 0 p) as Hall.
  unfold cleanPath, mapped, strings_Map.
  destruct (MapFrom cleanRune 0 p) as [|c t].
  - split; [reflexivity|]. exists "r"%char, "oot". split; [reflexivity|].
    vm_compute. discriminate.
  - destruct (Z.eqb_spec (byteZ c) 95) as [He|Hne].
    + split; [exact Hall|]. exists "r"%char, ("oot" +:+ String c t).
      split; [reflexivity|]. vm_compute. discriminate.
    + split; [exact Hall|]. exists c, t. split; [reflexivity|exact Hne].
Qed.

(** C4: the path key is a function of the raw path that is idempotent;
    every rune that is not an ASCII letter, a digit or '/' becomes '_',
    the others stay; a result that is empty or begins with '_' gets the
    prefix "root"; the key of the empty path is "root". *)
Theorem cleanPath_idempotent (p : string) :
  cleanPath (cleanPath p) = cleanPath p
  ∧ mapped p
    = string_of_bytes
        (map (λ r, if letterDigitSlash r then r else 95) (runes p))
  ∧ cleanPath p
    = (if String.eqb (mapped p) EmptyString || String.prefix "_" (mapped p)
       then "root" +:+ mapped p else mapped p)
  ∧ cleanPath EmptyString = "root".
Proof.
  split; [|split; [|split]].
  - destruct (cleanPath_shape p) as [Hall (c & t & Heq & Hne)].
    unfold cleanPath at 1. rewrite (mapped_key _ Hall), Heq.
    destruct (Z.eqb_spec (byteZ c) 95); [contradiction|reflexivity].
  - unfold mapped, strings_Map, runes. rewrite MapFrom_runes.
    f_equal. apply map_ext. intros r. apply cleanRune_cases.
  - apply cleanPath_cases.
  - reflexivity.
Qed.

Example cleanPath_plain : cleanPath "/a/b" = "/a/b".
Proof. reflexivity. Qed.

Example cleanPath_query : cleanPath "/a?b=1" = "/a_b_1".
Proof. reflexivity. Qed.

Example cleanPath_dash : cleanPath "-x" = "root_x".
Proof. reflexivity. Qed.

(** A rune of several bytes becomes one '_' ("é" is the bytes 195 169). *)
Example cleanPath_multibyte :
  cleanPath (String "/"%char (String "195"%char (String "169"%char "x")))
  = "/_x".
Proof. reflexivity. Qed.

(** ** Machine arithmetic *)

Lemma wrap64_small z : - 2 ^ 63 <= z <= MaxInt64 → wrap64 z = z.
Proof.
  unfold wrap64, MaxInt64. intros Hz. rewrite Z.mod_small; lia.
Qed.

Lemma incr64_small x : 0 <= x < MaxInt64 → incr64 x = x + 1.
Proof.
  unfold incr64, MaxInt64. intros Hx. apply wrap64_small.
  unfold MaxInt64. lia.
Qed.

Lemma incr64_wrap64 x : incr64 (wrap64 x) = wrap64 (x + 1).
Proof.
  unfold incr64, wrap64.
  replace ((x + 2 ^ 63) mod 2 ^ 64 - 2 ^ 63 + 1 + 2 ^ 63)
    with ((x + 2 ^ 63) mod 2 ^ 64 + 1) by lia.
  rewrite Zplus_mod_idemp_l. f_equal. f_equal. lia.
Qed.

Lemma incr64_neq x : incr64 x ≠ x.
Proof.
  unfold incr64, wrap64. intros H.
  pose proof (Z.div_mod (x + 1 + 2 ^ 63) (2 ^ 64) ltac:(lia)) as Hdm.
  pose proof (Z.mod_pos_bound (x + 1 + 2 ^ 63) (2 ^ 64) ltac:(lia)) as Hb.
  lia.
Qed.

(** ** The histogram *)

Lemma bucketLoop_length d bs : ∀ i bc,
  length (bucketLoop d i bs bc) = length bc.
Proof.
  induction bs as [|b bs IH]; intros i bc; [reflexivity|].
  cbn [bucketLoop]. rewrite IH.
  destruct (PrimFloat.leb d b); [apply length_alter|reflexivity].
Qed.

Lemma bucketLoop_before d bs : ∀ i bc j,
  (j < i)%nat → bucketLoop d i bs bc !! j = bc !! j.
Proof.
  induction bs as [|b bs IH]; intros i bc j Hj; [reflexivity|].
  cbn [bucketLoop]. rewrite IH by lia.
  destruct (PrimFloat.leb d b); [|reflexivity].
  unfold incrAt. apply list_lookup_alter_ne. lia.
Qed.

Lemma bucketLoop_after d bs : ∀ i bc j,
  (i + length bs ≤ j)%nat → bucketLoop d i bs bc !! j = bc !! j.
Proof.
  induction bs as [|b bs IH]; intros i bc j Hj; [reflexivity|].
  cbn [bucketLoop length] in *. rewrite IH by lia.
  destruct (PrimFloat.leb d b); [|reflexivity].
  unfold incrAt. apply list_lookup_alter_ne. lia.
Qed.

(** One pass of the inner loop adds one to the counter of each bucket
    whose boundary is at least [d], and to no other. *)
Lemma bucketLoop_at d bs : ∀ i bc n b,
  bs !! n = Some b →
  bucketLoop d i bs bc !! (i + n)%nat
  = (if PrimFloat.leb d b then incr64 <$> bc !! (i + n)%nat
     else bc !! (i + n)%nat).
Proof.
  induction bs as [|b0 bs IH]; intros i bc n b Hn; [discriminate|].
  cbn [bucketLoop]. destruct n as [|n].
  - injection Hn as ->. rewrite Nat.add_0_r.
    rewrite bucketLoop_before by lia.
    destruct (PrimFloat.leb d b); [|reflexivity].
    unfold incrAt. apply list_lookup_alter_eq.
  - cbn in Hn. replace (i + S n)%nat with (S i + n)%nat by lia.
    rewrite (IH (S i) _ n b Hn).
    assert (∀ f, alter f i bc !! (S i + n)%nat = bc !! (S i + n)%nat) as Hne.
    { intros f. apply list_lookup_alter_ne. lia. }
    destruct (PrimFloat.leb d b0); unfold incrAt; rewrite ?Hne; reflexivity.
Qed.

Lemma countLe_snoc b ds d :
  countLe b (ds ++ [d])
  = countLe b ds + (if PrimFloat.leb d b then 1 else 0).
Proof.
  unfold countLe. rewrite filter_app, length_app, Nat2Z.inj_add.
  f_equal. rewrite filter_cons, filter_nil.
  destruct (PrimFloat.leb d b); case_decide; try congruence; reflexivity.
Qed.

Lemma countLe_bounds b ds : 0 <= countLe b ds <= Z.of_nat (length ds).
Proof.
  unfold countLe. pose proof (length_filter (λ d, PrimFloat.leb d b = true) ds).
  lia.
Qed.

Lemma histogram_snoc ds d :
  histogram (ds ++ [d]) = observe (histogram ds) d.
Proof. unfold histogram. rewrite fold_left_app. reflexivity. Qed.

(** What the loops of [GetPrometheusMetrics] leave in [bucketCounts] and
    [sum], for any number of durations. *)
Lemma histogram_spec ds :
  length (histogram ds).1 = S (length buckets)
  ∧ (∀ i b, buckets !! i = Some b →
       (histogram ds).1 !! i = Some (wrap64 (countLe b ds)))
  ∧ (histogram ds).1 !! length buckets
    = Some (wrap64 (Z.of_nat (length ds)))
  ∧ (histogram ds).2 = fold_left PrimFloat.add ds 0%float.
Proof.
  induction ds as [|d ds IH] using rev_ind.
  - split; [reflexivity|]. split; [|split; reflexivity].
    intros i b Hi. apply lookup_lt_Some in Hi. cbn in Hi.
    unfold histogram. cbn [fold_left fst].
    rewrite lookup_replicate_2 by (cbn; lia). reflexivity.
  - destruct IH as (Hlen & Hfin & Hinf & Hsum).
    rewrite histogram_snoc. destruct (histogram ds) as [bc sum].
    cbn [fst snd] in *. cbn [observe fst snd].
    split; [|split; [|split]].
    + unfold incrAt. rewrite length_alter, bucketLoop_length. exact Hlen.
    + intros i b Hi. pose proof (lookup_lt_Some _ _ _ Hi) as Hlt.
      unfold incrAt. rewrite list_lookup_alter_ne by lia.
      pose proof (bucketLoop_at d buckets 0 bc i b Hi) as Hat.
      cbn [Nat.add] in Hat. rewrite Hat.
      rewrite (Hfin i b Hi), countLe_snoc.
      destruct (PrimFloat.leb d b); cbn [fmap option_fmap option_map].
      * rewrite incr64_wrap64. reflexivity.
      * rewrite Z.add_0_r. reflexivity.
    + unfold incrAt. rewrite list_lookup_alter_eq.
      rewrite bucketLoop_after by (cbn; lia). rewrite Hinf.
      cbn [fmap option_fmap option_map]. rewrite incr64_wrap64.
      rewrite length_app, Nat2Z.inj_add. reflexivity.
    + rewrite fold_left_app, <- Hsum. reflexivity.
Qed.

Lemma imap_fmap_lookup {A B} (f : A → Z → B) (g : A → Z) (l : list A)
    (bc : list Z) :
  (∀ i a, l !! i = Some a → bc !! i = Some (g a)) →
  imap (λ i a, f a (default 0 (bc !! i))) l = map (λ a, f a (g a)) l.
Proof.
  intros H. apply list_eq. intros i.
  rewrite list_lookup_imap, list_lookup_fmap.
  destruct (l !! i) as [a|] eqn:E; [|reflexivity].
  cbn. rewrite (H i a E). reflexivity.
Qed.

Lemma histogramBlock_lines path ds :
  Z.of_nat (length ds) <= MaxInt64 →
  histogramBlock path ds = histogramLines path ds.
Proof.
  intros Hlen.
  destruct (histogram_spec ds) as (_ & Hfin & Hinf & Hsum).
  unfold histogramBlock, histogramLines.
  destruct (histogram ds) as [bc sum]. cbn [fst snd] in *.
  rewrite Hinf, Hsum. cbn [from_option id].
  rewrite wrap64_small by (unfold MaxInt64 in *; lia).
  f_equal.
  apply (imap_fmap_lookup (λ b n, DurationBucket path (Le b) n)
                          (λ b, countLe b ds)).
  intros i b Hi. rewrite (Hfin i b Hi). f_equal.
  pose proof (countLe_bounds b ds). apply wrap64_small.
  unfold MaxInt64 in *. lia.
Qed.

(** C3: with the eleven fixed boundaries, the line of each finite bucket
    in the histogram of a path carries the number of recorded durations
    that are at most its boundary, the [+Inf] line the number of all of
    them, and the sum and the count follow; one more duration [d] adds
    exactly one to every bucket with [d <= b], nothing to the others, and
    one to [+Inf].  The durations are a slice that can take one more
    element, so their number is below [MaxInt64]. *)
Theorem histogram_cumulative (path : string) (ds : list float) (d : float) :
  Z.of_nat (length ds) < MaxInt64 →
  buckets = [0.005; 0.01; 0.025; 0.05; 0.1; 0.25; 0.5; 1; 2.5; 5; 10]%float
  ∧ histogramBlock path ds = histogramLines path ds
  ∧ histogramBlock path (ds ++ [d])
    = map (λ b, DurationBucket path (Le b)
                  (countLe b ds + (if PrimFloat.leb d b then 1 else 0)))
          buckets
      ++ [ DurationBucket path Inf (Z.of_nat (length ds) + 1);
           DurationSum path
             (PrimFloat.add (fold_left PrimFloat.add ds 0%float) d);
           DurationCount path (Z.of_nat (length ds) + 1) ].
Proof.
  intros Hlen. split; [reflexivity|]. split.
  - apply histogramBlock_lines. lia.
  - rewrite histogramBlock_lines
      by (rewrite length_app, Nat2Z.inj_add; cbn [length]; lia).
    unfold histogramLines.
    rewrite length_app, Nat2Z.inj_add, fold_left_app. cbn [length fold_left].
    f_equal. apply map_ext. intros b. rewrite countLe_snoc. reflexivity.
Qed.

Lemma histogram_cumulative_witness :
  histogramBlock "/a" ([0.003; 0.2]%float ++ [0.03%float])
  = [ DurationBucket "/a" (Le 0.005) 1; DurationBucket "/a" (Le 0.01) 1;
      DurationBucket "/a" (Le 0.025) 1; DurationBucket "/a" (Le 0.05) 2;
      DurationBucket "/a" (Le 0.1) 2; DurationBucket "/a" (Le 0.25) 3;
      DurationBucket "/a" (Le 0.5) 3; DurationBucket "/a" (Le 1) 3;
      DurationBucket "/a" (Le 2.5) 3; DurationBucket "/a" (Le 5) 3;
      DurationBucket "/a" (Le 10) 3; DurationBucket "/a" Inf 3;
      DurationSum "/a"
        (PrimFloat.add (PrimFloat.add (PrimFloat.add 0 0.003) 0.2) 0.03);
      DurationCount "/a" 3 ]%float.
Proof.
  destruct (histogram_cumulative "/a" [0.003; 0.2]%float 0.03%float)
    as (_ & _ & H).
  - vm_compute. reflexivity.
  - rewrite H. vm_compute. reflexivity.
Defined.

(** ** The aggregator: one call of [RecordRequest] *)

Lemma RecordRequest_unlocked p c d m :
  mutex m = Unlocked → RecordRequest p c d m = Some (recordLocked p c d m).
Proof.
  destruct m as [mu tr sc rd t]. cbn [mutex]. intros ->. reflexivity.
Qed.

Lemma RecordRequest_Some p c d m m' :
  RecordRequest p c d m = Some m' →
  mutex m = Unlocked ∧ m' = recordLocked p c d m.
Proof.
  destruct m as [[| |n w] tr sc rd t]; intros H; try discriminate H.
  split; [reflexivity|].
  rewrite RecordRequest_unlocked in H by reflexivity. congruence.
Qed.

Lemma GetPrometheusMetrics_unlocked o v now m :
  mutex m = Unlocked →
  GetPrometheusMetrics o v now m = Some (exposition o v now m, m).
Proof.
  destruct m as [mu tr sc rd t]. cbn [mutex]. intros ->. reflexivity.
Qed.

Lemma GetPrometheusMetrics_Some o v now m out m' :
  GetPrometheusMetrics o v now m = Some (out, m') →
  m' = m ∧ out = exposition o v now m.
Proof.
  destruct m as [[| |n [|]] tr sc rd t]; intros H; try discriminate H;
    injection H as <- <-; split; reflexivity.
Qed.

Lemma recordLocked_mutex p c d m : mutex (recordLocked p c d m) = mutex m.
Proof. reflexivity. Qed.

Lemma recordLocked_start p c d m :
  appStartTimestamp (recordLocked p c d m) = appStartTimestamp m.
Proof. reflexivity. Qed.

Lemma recordLocked_total p c d m k :
  totalRequests (recordLocked p c d m) !! k
  = if decide (cleanPath p = k)
    then Some (incr64 (default 0 (totalRequests m !! k)))
    else totalRequests m !! k.
Proof.
  unfold recordLocked. cbn [totalRequests]. rewrite lookup_insert.
  case_decide; subst; reflexivity.
Qed.

Lemma recordLocked_status p c d m k :
  statusCodes (recordLocked p c d m) !! k
  = if decide (cleanPath p = k)
    then Some (<[c := incr64 (default 0
                       (default ∅ (statusCodes m !! k) !! c))]>
                 (default ∅ (statusCodes m !! k)))
    else statusCodes m !! k.
Proof.
  unfold recordLocked. cbn [statusCodes]. rewrite lookup_insert.
  destruct (statusCodes m !! cleanPath p) as [codes|] eqn:E.
  - case_decide; subst; rewrite ?E; reflexivity.
  - rewrite lookup_insert_eq. case_decide; subst.
    + rewrite E. reflexivity.
    + rewrite lookup_insert_ne by assumption. reflexivity.
Qed.

Lemma recordLocked_durations p c d m k :
  requestDurations (recordLocked p c d m) !! k
  = if decide (cleanPath p = k)
    then Some (default [] (requestDurations m !! k) ++ [Seconds d])
    else requestDurations m !! k.
Proof.
  unfold recordLocked. cbn [requestDurations]. rewrite lookup_insert.
  case_decide; subst; reflexivity.
Qed.

Lemma reachableFrom_unlocked start m :
  reachableFrom start m → mutex m = Unlocked.
Proof.
  induction 1 as [|m p c d m' _ IH H|m o v now out m' _ IH H].
  - reflexivity.
  - apply RecordRequest_Some in H as [_ ->]. exact IH.
  - apply GetPrometheusMetrics_Some in H as [-> _]. exact IH.
Qed.

Lemma reachableFrom_start start m :
  reachableFrom start m → appStartTimestamp m = start.
Proof.
  induction 1 as [|m p c d m' _ IH H|m o v now out m' _ IH H].
  - reflexivity.
  - apply RecordRequest_Some in H as [_ ->]. exact IH.
  - apply GetPrometheusMetrics_Some in H as [-> _]. exact IH.
Qed.

(** ** C10: the frame of [RecordRequest] *)

(** C10: in a state of a run, [RecordRequest] returns, and it leaves the
    total counter, the status-code map and the durations of every key
    other than the key of its path as they were; neither it nor
    [GetPrometheusMetrics] changes the start timestamp, which stays the
    one set by [NewMetrics]. *)
Theorem RecordRequest_frame (start : Z) (m : Metrics) (p : string)
    (c d : Z) :
  reachableFrom start m →
  appStartTimestamp m = start
  ∧ (∃ m', RecordRequest p c d m = Some m'
      ∧ (∀ k, k ≠ cleanPath p →
           totalRequests m' !! k = totalRequests m !! k
           ∧ statusCodes m' !! k = statusCodes m !! k
           ∧ requestDurations m' !! k = requestDurations m !! k)
      ∧ appStartTimestamp m' = start)
  ∧ (∀ o v now, ∃ out,
       GetPrometheusMetrics o v now m = Some (out, m)).
Proof.
  intros Hr. pose proof (reachableFrom_unlocked _ _ Hr) as Hmu.
  pose proof (reachableFrom_start _ _ Hr) as Hst.
  split; [exact Hst|]. split.
  - exists (recordLocked p c d m).
    split; [apply RecordRequest_unlocked, Hmu|]. split; [|exact Hst].
    intros k Hk.
    rewrite recordLocked_total, recordLocked_status, recordLocked_durations.
    repeat case_decide; try congruence. auto.
  - intros o v now. eexists. apply GetPrometheusMetrics_unlocked, Hmu.
Qed.

Lemma RecordRequest_frame_witness :
  ∃ m', RecordRequest "/a" 200 5 (NewMetrics 7) = Some m'
        ∧ totalRequests m' !! "/b" = None.
Proof.
  destruct (RecordRequest_frame 7 (NewMetrics 7) "/a" 200 5 (reach_new 7))
    as (_ & (m' & Hrec & Hframe & _) & _).
  exists m'. split; [exact Hrec|].
  destruct (Hframe "/b") as (Ht & _); [discriminate|].
  rewrite Ht. reflexivity.
Defined.

(** ** C6: the three maps have the same keys *)

Lemma reachableFrom_keys start m :
  reachableFrom start m →
  ∀ k, (is_Some (totalRequests m !! k) ↔ is_Some (statusCodes m !! k))
       ∧ (is_Some (totalRequests m !! k)
          ↔ is_Some (requestDurations m !! k)).
Proof.
  induction 1 as [|m p c d m' _ IH H|m o v now out m' _ IH H]; intros k.
  - cbn. rewrite !lookup_empty. split; split; intros [x Hx]; discriminate.
  - apply RecordRequest_Some in H as [_ ->].
    rewrite recordLocked_total, recordLocked_status, recordLocked_durations.
    case_decide; [|apply IH]. split; split; eauto.
  - apply GetPrometheusMetrics_Some in H as [-> _]. apply IH.
Qed.

(** C6: in every state of a run, a key of [totalRequests] is a key of
    [statusCodes] and of [requestDurations]; a call of [RecordRequest]
    returns with the lock free again and has changed the entry of its key
    in all three maps, in a state in which it held the lock for writing.
    The lock is exclusive: as long as a reader or a writer holds it, no
    call of [RecordRequest] returns, and as long as a writer holds it, as
    this call does during its updates, no call of [GetPrometheusMetrics]
    returns. *)
Theorem RecordRequest_all_three (start : Z) (m : Metrics) (p : string)
    (c d : Z) :
  reachableFrom start m →
  (∀ k, is_Some (totalRequests m !! k) →
        is_Some (statusCodes m !! k) ∧ is_Some (requestDurations m !! k))
  ∧ (∀ m0 p0 c0 d0, mutex m0 ≠ Unlocked → RecordRequest p0 c0 d0 m0 = None)
  ∧ (∀ m0 o v now,
       mutex m0 = WriteLocked → GetPrometheusMetrics o v now m0 = None)
  ∧ ∃ held m',
      RecordRequest p c d m = Some m'
      ∧ mutex m' = Unlocked
      ∧ mutex held = WriteLocked
      ∧ totalRequests held = totalRequests m
      ∧ statusCodes held = statusCodes m
      ∧ requestDurations held = requestDurations m
      ∧ totalRequests m' = totalRequests (recordLocked p c d held)
      ∧ statusCodes m' = statusCodes (recordLocked p c d held)
      ∧ requestDurations m' = requestDurations (recordLocked p c d held)
      ∧ (let k := cleanPath p in
         is_Some (totalRequests m' !! k)
         ∧ is_Some (statusCodes m' !! k)
         ∧ is_Some (requestDurations m' !! k)
         ∧ totalRequests m' !! k ≠ totalRequests m !! k
         ∧ statusCodes m' !! k ≠ statusCodes m !! k
         ∧ requestDurations m' !! k ≠ requestDurations m !! k).
Proof.
  intros Hr. split.
  { intros k Hk. destruct (reachableFrom_keys _ _ Hr k) as [[H1 _] [H2 _]].
    auto. }
  split.
  { intros m0 p0 c0 d0 Hm0.
    destruct (RecordRequest p0 c0 d0 m0) as [m1|] eqn:E; [|reflexivity].
    apply RecordRequest_Some in E as [E _]. contradiction. }
  split.
  { intros [mu tr sc rd t] o v now Hm0. cbn [mutex] in Hm0. subst mu.
    reflexivity. }
  pose proof (reachableFrom_unlocked _ _ Hr) as Hmu.
  clear Hr. destruct m as [mu tr sc rd t]. cbn [mutex] in Hmu. subst mu.
  set (m := mkMetrics Unlocked tr sc rd t).
  exists (withMutex WriteLocked m), (recordLocked p c d m).
  do 9 (split; [reflexivity|]).
  cbv zeta.
  rewrite recordLocked_total, recordLocked_status, recordLocked_durations.
  rewrite !decide_True by reflexivity.
  do 3 (split; [eauto|]). split; [|split].
  - intros H. destruct (totalRequests m !! cleanPath p) as [n|];
      [|discriminate]. injection H as H. cbn in H.
    exact (incr64_neq _ H).
  - intros H. destruct (statusCodes m !! cleanPath p) as [codes|];
      [|discriminate]. injection H as H. cbn [from_option id] in H.
    assert (codes !! c = Some (incr64 (default 0 (codes !! c)))) as Hc.
    { rewrite <- H at 1. apply lookup_insert_eq. }
    destruct (codes !! c) as [n|]; [|discriminate].
    injection Hc as Hc. cbn in Hc. symmetry in Hc.
    exact (incr64_neq _ Hc).
  - intros H. destruct (requestDurations m !! cleanPath p) as [ds|];
      [|discriminate]. injection H as H. cbn [from_option id] in H.
    apply (f_equal length) in H. rewrite length_app in H. cbn in H. lia.
Qed.

(** After the first call of a run the three maps hold the key; a second
    call on a state whose lock a reader holds does not return. *)
Lemma RecordRequest_all_three_witness :
  ∃ m', RecordRequest "/a" 200 5 (NewMetrics 7) = Some m'
        ∧ mutex m' = Unlocked
        ∧ is_Some (requestDurations m' !! "/a")
        ∧ RecordRequest "/a" 200 5 (withMutex (ReadLocked 0 false) m')
          = None
        ∧ RecordRequest "/a" 200 5 (withMutex WriteLocked m') = None.
Proof.
  destruct (RecordRequest_all_three 7 (NewMetrics 7) "/a" 200 5
              (reach_new 7))
    as (_ & Hblock & _ & held & m' & Hrec & Hfree & _ & _ & _ & _ & _ & _
        & _ & _ & _ & Hd & _).
  exists m'. split; [exact Hrec|]. split; [exact Hfree|].
  split; [exact Hd|].
  split; apply Hblock; discriminate.
Defined.

(** ** Sums of status-code counters *)

Lemma sumCodes_insert_fresh (codes : gmap Z Z) c n :
  codes !! c = None → sumCodes (<[c := n]> codes) = n + sumCodes codes.
Proof.
  intros Hc. unfold sumCodes.
  apply (map_fold_insert_L (λ (_ : Z) (n acc : Z), n + acc)); [|exact Hc].
  intros; lia.
Qed.

Lemma sumCodes_delete (codes : gmap Z Z) c :
  sumCodes codes = default 0 (codes !! c) + sumCodes (delete c codes).
Proof.
  destruct (codes !! c) as [n|] eqn:E; cbn [from_option id].
  - rewrite <- (insert_delete_id codes c n E) at 1.
    apply sumCodes_insert_fresh, lookup_delete_eq.
  - rewrite delete_id by exact E. lia.
Qed.

Lemma sumCodes_insert (codes : gmap Z Z) c n :
  sumCodes (<[c := n]> codes) = sumCodes codes - default 0 (codes !! c) + n.
Proof.
  rewrite <- insert_delete_eq.
  rewrite sumCodes_insert_fresh by apply lookup_delete_eq.
  rewrite (sumCodes_delete codes c). lia.
Qed.

Lemma sumCodes_nonneg (codes : gmap Z Z) :
  (∀ c n, codes !! c = Some n → 0 <= n) → 0 <= sumCodes codes.
Proof.
  induction codes as [|c n codes Hc IH] using map_ind; intros Hall.
  - unfold sumCodes. rewrite map_fold_empty. lia.
  - rewrite sumCodes_insert_fresh by exact Hc.
    assert (0 <= n) by (apply (Hall c); apply lookup_insert_eq).
    assert (0 <= sumCodes codes).
    { apply IH. intros c' n' H'. apply (Hall c').
      rewrite lookup_insert_ne; [exact H'|]. intros ->. congruence. }
    lia.
Qed.

Lemma sumCodes_entry (codes : gmap Z Z) c :
  (∀ c n, codes !! c = Some n → 0 <= n) →
  0 <= default 0 (codes !! c) <= sumCodes codes.
Proof.
  intros Hall. rewrite (sumCodes_delete codes c).
  assert (0 <= sumCodes (delete c codes)).
  { apply sumCodes_nonneg. intros c' n' H'.
    apply lookup_delete_Some in H' as [_ H']. exact (Hall _ _ H'). }
  destruct (codes !! c) as [n|] eqn:E; cbn [from_option id];
    [pose proof (Hall c n E)|]; lia.
Qed.

(** ** Counters and durations agree in every state of a run *)

Lemma reachableFrom_counts start m :
  reachableFrom start m →
  ∀ k, Z.of_nat (length (default [] (requestDurations m !! k))) <= MaxInt64 →
    default 0 (totalRequests m !! k)
    = Z.of_nat (length (default [] (requestDurations m !! k)))
    ∧ (∀ c n, default ∅ (statusCodes m !! k) !! c = Some n → 0 <= n)
    ∧ sumCodes (default ∅ (statusCodes m !! k))
      = Z.of_nat (length (default [] (requestDurations m !! k))).
Proof.
  induction 1 as [|m p c d m' _ IH H|m o v now out m' _ IH H]; intros k.
  - cbn. rewrite !lookup_empty. cbn. intros _.
    split; [reflexivity|]. split; [|reflexivity].
    intros c n Hc. rewrite lookup_empty in Hc. discriminate.
  - apply RecordRequest_Some in H as [_ ->].
    rewrite recordLocked_total, recordLocked_status, recordLocked_durations.
    case_decide as Hk; [|apply IH]. cbn [from_option id].
    rewrite length_app, Nat2Z.inj_add. cbn [length]. intros Hlen.
    destruct (IH k) as (Ht & Hnn & Hsum); [lia|].
    pose proof (sumCodes_entry _ c Hnn) as Hc.
    split; [|split].
    + rewrite Ht. rewrite incr64_small; lia.
    + intros c' n'. rewrite lookup_insert. case_decide.
      * intros [= <-]. rewrite incr64_small; lia.
      * apply Hnn.
    + rewrite sumCodes_insert, incr64_small; lia.
  - apply GetPrometheusMetrics_Some in H as [-> _]. apply IH.
Qed.

(** ** Reading the exposition *)

Lemma range_NoDup (o : RangeOrder) {V} (m : gmap string V) :
  NoDup (range o m).*1.
Proof.
  rewrite (range_perm o V m). apply NoDup_fst_map_to_list.
Qed.

Lemma range_to_map (o : RangeOrder) {V} (m : gmap string V) :
  list_to_map (range o m) = m.
Proof.
  rewrite <- (list_to_map_to_list m) at 2.
  apply list_to_map_proper; [apply range_NoDup|apply range_perm].
Qed.

Lemma rangeCodes_to_map (o : RangeOrder) (m : gmap Z Z) :
  list_to_map (rangeCodes o m) = m.
Proof.
  rewrite <- (list_to_map_to_list m) at 2.
  apply list_to_map_proper; [|apply rangeCodes_perm].
  rewrite (rangeCodes_perm o m). apply NoDup_fst_map_to_list.
Qed.

Lemma findLine_app {A} (sel : Line → option A) l1 l2 :
  findLine sel (l1 ++ l2)
  = match findLine sel l1 with
    | Some x => Some x
    | None => findLine sel l2
    end.
Proof.
  induction l1 as [|l l1 IH]; [reflexivity|].
  cbn [app findLine]. destruct (sel l); [reflexivity|exact IH].
Qed.

Lemma findLine_None {A} (sel : Line → option A) out :
  Forall (λ l, sel l = None) out → findLine sel out = None.
Proof.
  induction 1 as [|l out Hl _ IH]; [reflexivity|].
  cbn [findLine]. rewrite Hl. exact IH.
Qed.

Lemma totals_Forall (P : Line → Prop) (l : list (string * Z)) :
  (∀ p n, P (RequestsTotal p n)) →
  Forall P (map (λ '(p, n), RequestsTotal p n) l).
Proof.
  intros HP. apply Forall_fmap, Forall_forall. intros [p n] _. apply HP.
Qed.

Lemma statuses_Forall (P : Line → Prop) (o : RangeOrder)
    (l : list (string * gmap Z Z)) :
  (∀ p c n, P (ResponseStatusTotal p c n)) →
  Forall P (flat_map (λ '(p, codes),
              map (λ '(code, count), ResponseStatusTotal p code count)
                  (rangeCodes o codes)) l).
Proof.
  intros HP. induction l as [|[p codes] l IH]; [constructor|].
  cbn [flat_map]. apply Forall_app. split; [|exact IH].
  apply Forall_fmap, Forall_forall. intros [c n] _. apply HP.
Qed.

Lemma histogramBlock_shape path ds :
  ∃ front,
    histogramBlock path ds
    = front ++ [ DurationBucket path Inf
                   (default 0 ((histogram ds).1 !! length buckets));
                 DurationSum path (histogram ds).2;
                 DurationCount path (Z.of_nat (length ds)) ]
    ∧ Forall (λ l, ∃ b n, l = DurationBucket path (Le b) n) front.
Proof.
  unfold histogramBlock. destruct (histogram ds) as [bc sum].
  eexists. split; [reflexivity|].
  apply Forall_forall. intros l Hl.
  apply list_elem_of_lookup in Hl as [i Hi].
  rewrite list_lookup_imap in Hi.
  destruct (buckets !! i) as [b|]; [|discriminate].
  injection Hi as <-. eauto.
Qed.

Lemma blocks_Forall (P : Line → Prop) (l : list (string * list float)) :
  (∀ p b n, P (DurationBucket p b n)) →
  (∀ p x, P (DurationSum p x)) →
  (∀ p n, P (DurationCount p n)) →
  Forall P (flat_map (λ '(p, ds), histogramBlock p ds) l).
Proof.
  intros Hb Hs Hc. induction l as [|[p ds] l IH]; [constructor|].
  cbn [flat_map]. apply Forall_app. split; [|exact IH].
  destruct (histogramBlock_shape p ds) as (front & -> & Hfront).
  apply Forall_app. split.
  - eapply Forall_impl; [exact Hfront|]. intros ? (b & n & ->). apply Hb.
  - repeat constructor; auto.
Qed.

Lemma findLine_totals (l : list (string * Z)) k :
  findLine (selTotal k) (map (λ '(p, n), RequestsTotal p n) l)
  = (list_to_map l : gmap string Z) !! k.
Proof.
  induction l as [|[p n] l IH]; [reflexivity|].
  cbn [map findLine selTotal list_to_map foldr fst snd].
  rewrite lookup_insert. case_decide; [reflexivity|exact IH].
Qed.

Lemma findLine_codes p (l : list (Z * Z)) k c :
  findLine (selStatus k c)
           (map (λ '(code, count), ResponseStatusTotal p code count) l)
  = if decide (p = k) then (list_to_map l : gmap Z Z) !! c else None.
Proof.
  induction l as [|[c' n] l IH].
  - cbn. case_decide; reflexivity.
  - cbn [map findLine selStatus list_to_map foldr fst snd].
    rewrite lookup_insert.
    destruct (decide (p = k)); [|exact IH].
    destruct (decide (c' = c)); [reflexivity|].
    rewrite IH. reflexivity.
Qed.

Lemma findLine_statuses (o : RangeOrder)
    (l : list (string * gmap Z Z)) k c :
  NoDup l.*1 →
  findLine (selStatus k c)
    (flat_map (λ '(p, codes),
       map (λ '(code, count), ResponseStatusTotal p code count)
           (rangeCodes o codes)) l)
  = (list_to_map l : gmap string (gmap Z Z)) !! k ≫= (.!! c).
Proof.
  induction l as [|[p codes] l IH]; intros Hnd; [reflexivity|].
  cbn [fmap list_fmap fst] in Hnd. apply NoDup_cons in Hnd as [Hp Hnd].
  cbn [flat_map list_to_map foldr fst snd].
  rewrite findLine_app, findLine_codes, rangeCodes_to_map, lookup_insert.
  destruct (decide (p = k)) as [->|Hne]; [|apply IH, Hnd].
  cbn [mbind option_bind]. destruct (codes !! c) as [n|]; [reflexivity|].
  rewrite (IH Hnd).
  rewrite (not_elem_of_list_to_map_1 _ _ Hp).
  reflexivity.
Qed.

Lemma findLine_block_count p ds k :
  findLine (selCount k) (histogramBlock p ds)
  = if decide (p = k) then Some (Z.of_nat (length ds)) else None.
Proof.
  destruct (histogramBlock_shape p ds) as (front & -> & Hfront).
  rewrite findLine_app, findLine_None.
  - cbn. case_decide; reflexivity.
  - eapply Forall_impl; [exact Hfront|]. intros ? (b & n & ->). reflexivity.
Qed.

Lemma findLine_block_sum p ds k :
  findLine (selSum k) (histogramBlock p ds)
  = if decide (p = k) then Some (histogram ds).2 else None.
Proof.
  destruct (histogramBlock_shape p ds) as (front & -> & Hfront).
  rewrite findLine_app, findLine_None.
  - cbn. case_decide; reflexivity.
  - eapply Forall_impl; [exact Hfront|]. intros ? (b & n & ->). reflexivity.
Qed.

Lemma findLine_block_inf p ds k :
  findLine (selInf k) (histogramBlock p ds)
  = if decide (p = k)
    then Some (default 0 ((histogram ds).1 !! length buckets)) else None.
Proof.
  destruct (histogramBlock_shape p ds) as (front & -> & Hfront).
  rewrite findLine_app, findLine_None.
  - cbn [findLine selInf]. case_decide; reflexivity.
  - eapply Forall_impl; [exact Hfront|]. intros ? (b & n & ->). reflexivity.
Qed.

Lemma findLine_blocks {A} (sel : Line → option A) (g : list float → A)
    (l : list (string * list float)) k :
  (∀ p ds, findLine sel (histogramBlock p ds)
           = if decide (p = k) then Some (g ds) else None) →
  findLine sel (flat_map (λ '(p, ds), histogramBlock p ds) l)
  = g <$> (list_to_map l : gmap string (list float)) !! k.
Proof.
  intros Hsel. induction l as [|[p ds] l IH]; [reflexivity|].
  cbn [flat_map list_to_map foldr fst snd].
  rewrite findLine_app, Hsel, lookup_insert.
  case_decide; [reflexivity|exact IH].
Qed.

Ltac no_such_line :=
  apply findLine_None;
  first [ apply totals_Forall | apply statuses_Forall | apply blocks_Forall
        | repeat constructor ];
  intros; reflexivity.

Lemma exposition_total o v now m k :
  requestsTotalOf (exposition o v now m) k = totalRequests m !! k.
Proof.
  unfold requestsTotalOf, exposition. rewrite !findLine_app.
  rewrite findLine_totals, range_to_map.
  replace (findLine (selTotal k) _) with (@None Z) by (symmetry; no_such_line).
  destruct (totalRequests m !! k); [reflexivity|].
  repeat (match goal with
          | |- context [findLine (selTotal k) ?l] =>
            replace (findLine (selTotal k) l) with (@None Z)
              by (symmetry; no_such_line)
          end).
  reflexivity.
Qed.

Ltac other_sections sel T :=
  repeat match goal with
         | |- context [findLine sel ?l] =>
           replace (findLine sel l) with (@None T)
             by (symmetry; no_such_line)
         end.

Lemma exposition_status o v now m k c :
  responseStatusOf (exposition o v now m) k c
  = statusCodes m !! k ≫= (.!! c).
Proof.
  unfold responseStatusOf, exposition. rewrite !findLine_app.
  rewrite findLine_statuses by apply range_NoDup.
  rewrite range_to_map.
  other_sections (selStatus k c) Z.
  destruct (statusCodes m !! k ≫= (.!! c)); reflexivity.
Qed.

Lemma exposition_count o v now m k :
  durationCountOf (exposition o v now m) k
  = (λ ds, Z.of_nat (length ds)) <$> requestDurations m !! k.
Proof.
  unfold durationCountOf, exposition. rewrite !findLine_app.
  rewrite (findLine_blocks (selCount k) (λ ds, Z.of_nat (length ds)) _ k)
    by (intros; apply findLine_block_count).
  rewrite range_to_map.
  other_sections (selCount k) Z. reflexivity.
Qed.

Lemma exposition_sum o v now m k :
  durationSumOf (exposition o v now m) k
  = (λ ds, (histogram ds).2) <$> requestDurations m !! k.
Proof.
  unfold durationSumOf, exposition. rewrite !findLine_app.
  rewrite (findLine_blocks (selSum k) (λ ds, (histogram ds).2) _ k)
    by (intros; apply findLine_block_sum).
  rewrite range_to_map.
  other_sections (selSum k) float. reflexivity.
Qed.

Lemma exposition_inf o v now m k :
  infBucketOf (exposition o v now m) k
  = (λ ds, default 0 ((histogram ds).1 !! length buckets))
    <$> requestDurations m !! k.
Proof.
  unfold infBucketOf, exposition. rewrite !findLine_app.
  rewrite (findLine_blocks (selInf k)
             (λ ds, default 0 ((histogram ds).1 !! length buckets)) _ k)
    by (intros; apply findLine_block_inf).
  rewrite range_to_map.
  other_sections (selInf k) Z. reflexivity.
Qed.

(** ** C5: one more observation after [RecordRequest] *)

(** [Duration.Seconds] as the code computes it is [d] nanoseconds in
    seconds. *)
Lemma Seconds_inSeconds d : Seconds d = inSeconds d.
Proof.
  unfold Seconds, inSeconds, float64_of_Z. cbv zeta.
  rewrite (Z.rem_eq d 1000000000) by lia.
  set (whole := Z.quot d 1000000000).
  set (nanos := d - 1000000000 * whole).
  destruct (Z.ltb_spec whole 0), (Z.leb_spec 0 whole); try lia;
    destruct (Z.ltb_spec nanos 0), (Z.leb_spec 0 nanos); try lia;
    reflexivity.
Qed.

(** C5, as the code has it: in a state of a run whose durations for the
    key of [p] can take one more element, [GetPrometheusMetrics] returns
    before and after [RecordRequest p c d], and for the key of [p] the
    second text shows the total counter larger by one, the counter of code
    [c] larger by one and the histogram count larger by one (a line that
    is missing in the first text counts as zero); the histogram sum is the
    FLOAT64 SUM of the former sum and [d] in seconds, which is larger by
    [d] only up to rounding. *)
Theorem record_then_render (start : Z) (m : Metrics) (p : string)
    (c d : Z) (o : RangeOrder) (v : string) (now now' : Z) :
  reachableFrom start m →
  Z.of_nat (length (default [] (requestDurations m !! cleanPath p)))
    < MaxInt64 →
  ∃ out m' out',
    GetPrometheusMetrics o v now m = Some (out, m)
    ∧ RecordRequest p c d m = Some m'
    ∧ GetPrometheusMetrics o v now' m' = Some (out', m')
    ∧ requestsTotalOf out' (cleanPath p)
      = Some (default 0 (requestsTotalOf out (cleanPath p)) + 1)
    ∧ responseStatusOf out' (cleanPath p) c
      = Some (default 0 (responseStatusOf out (cleanPath p) c) + 1)
    ∧ durationCountOf out' (cleanPath p)
      = Some (default 0 (durationCountOf out (cleanPath p)) + 1)
    ∧ durationSumOf out' (cleanPath p)
      = Some (PrimFloat.add
                (default 0%float (durationSumOf out (cleanPath p)))
                (inSeconds d)).
Proof.
  intros Hr Hlen. pose proof (reachableFrom_unlocked _ _ Hr) as Hmu.
  destruct (reachableFrom_counts _ _ Hr (cleanPath p)) as (Ht & Hnn & Hsum);
    [lia|].
  pose proof (sumCodes_entry _ c Hnn) as Hc.
  exists (exposition o v now m), (recordLocked p c d m),
         (exposition o v now' (recordLocked p c d m)).
  split; [apply GetPrometheusMetrics_unlocked, Hmu|].
  split; [apply RecordRequest_unlocked, Hmu|].
  split; [apply GetPrometheusMetrics_unlocked, Hmu|].
  rewrite !exposition_total, !exposition_status, !exposition_count,
    !exposition_sum.
  rewrite recordLocked_total, recordLocked_status, recordLocked_durations.
  rewrite !decide_True by reflexivity.
  split; [|split; [|split]].
  - rewrite incr64_small by lia. reflexivity.
  - cbn [mbind option_bind]. rewrite lookup_insert_eq.
    rewrite incr64_small by lia.
    destruct (statusCodes m !! cleanPath p) as [codes|];
      cbn [mbind option_bind from_option id]; [reflexivity|].
    rewrite lookup_empty. reflexivity.
  - cbn [fmap option_fmap option_map]. rewrite length_app, Nat2Z.inj_add.
    destruct (requestDurations m !! cleanPath p); reflexivity.
  - cbn [fmap option_fmap option_map]. rewrite histogram_snoc.
    rewrite Seconds_inSeconds.
    destruct (requestDurations m !! cleanPath p) as [ds|];
      cbn [from_option id fmap option_fmap option_map].
    + destruct (histogram ds) as [bc sum]. reflexivity.
    + reflexivity.
Qed.

(** After a request of 250 ms, a request of 1.5 s on the same path: two
    requests, and the sum goes from 0.25 to 1.75. *)
Lemma record_then_render_witness :
  ∃ out m' out',
    GetPrometheusMetrics mapOrder "1.0.0" 9
      (recordLocked "/a" 200 250000000 (NewMetrics 7))
    = Some (out, recordLocked "/a" 200 250000000 (NewMetrics 7))
    ∧ RecordRequest "/a" 200 1500000000
        (recordLocked "/a" 200 250000000 (NewMetrics 7)) = Some m'
    ∧ GetPrometheusMetrics mapOrder "1.0.0" 9 m' = Some (out', m')
    ∧ requestsTotalOf out' "/a" = Some 2
    ∧ durationSumOf out "/a" = Some 0.25%float
    ∧ durationSumOf out' "/a" = Some 1.75%float.
Proof.
  destruct (record_then_render 7
              (recordLocked "/a" 200 250000000 (NewMetrics 7))
              "/a" 200 1500000000 mapOrder "1.0.0" 9 9
              (reach_record 7 (NewMetrics 7) "/a" 200 250000000 _
                 (reach_new 7) eq_refl))
    as (out & m' & out' & H1 & H2 & H3 & H4 & _ & _ & H7).
  - vm_compute. reflexivity.
  - exists out, m', out'. repeat split; try assumption.
    + change (cleanPath "/a") with "/a" in H4. rewrite H4.
      apply GetPrometheusMetrics_Some in H1 as [_ ->]. reflexivity.
    + apply GetPrometheusMetrics_Some in H1 as [_ ->]. reflexivity.
    + change (cleanPath "/a") with "/a" in H7. rewrite H7.
      apply GetPrometheusMetrics_Some in H1 as [_ ->]. reflexivity.
Defined.

(** C5 as the claim has it fails: once the durations of a path add up to
    2^24 seconds, a request of one nanosecond leaves the histogram sum as
    it was; the sum is not larger by the duration. *)
Lemma sum_not_larger :
  ∃ m out m' out',
    reachableFrom 7 m
    ∧ GetPrometheusMetrics mapOrder "1.0.0" 9 m = Some (out, m)
    ∧ RecordRequest "/a" 200 1 m = Some m'
    ∧ GetPrometheusMetrics mapOrder "1.0.0" 9 m' = Some (out', m')
    ∧ durationCountOf out' "/a" = Some 2
    ∧ durationSumOf out "/a" = Some 16777216%float
    ∧ durationSumOf out' "/a" = Some 16777216%float
    ∧ inSeconds 1 = 1e-9%float.
Proof.
  exists (recordLocked "/a" 200 16777216000000000 (NewMetrics 7)).
  eexists _, _, _.
  split; [exact (reach_record 7 (NewMetrics 7) "/a" 200 16777216000000000 _
                   (reach_new 7) eq_refl)|].
  split; [reflexivity|]. split; [reflexivity|]. split; [reflexivity|].
  vm_compute. repeat split.
Qed.

(** ** C9: the counters of a key agree *)

(** C9: in every state of a run and for every key whose durations are a
    slice (at most [MaxInt64] elements), the total counter equals the sum
    of the counters of all status codes and the number of durations; the
    text of [GetPrometheusMetrics] shows that number on the total line,
    on the histogram count line and on the [+Inf] bucket line of the key
    (and none of the three lines when the key has never been recorded). *)
Theorem counters_agree (start : Z) (m : Metrics) (k : string)
    (o : RangeOrder) (v : string) (now : Z) :
  reachableFrom start m →
  Z.of_nat (length (default [] (requestDurations m !! k))) <= MaxInt64 →
  default 0 (totalRequests m !! k)
  = sumCodes (default ∅ (statusCodes m !! k))
  ∧ default 0 (totalRequests m !! k)
    = Z.of_nat (length (default [] (requestDurations m !! k)))
  ∧ ∃ out,
      GetPrometheusMetrics o v now m = Some (out, m)
      ∧ requestsTotalOf out k = totalRequests m !! k
      ∧ durationCountOf out k = totalRequests m !! k
      ∧ infBucketOf out k = totalRequests m !! k.
Proof.
  intros Hr Hlen. pose proof (reachableFrom_unlocked _ _ Hr) as Hmu.
  destruct (reachableFrom_counts _ _ Hr k Hlen) as (Ht & Hnn & Hsum).
  split; [lia|]. split; [exact Ht|].
  exists (exposition o v now m).
  split; [apply GetPrometheusMetrics_unlocked, Hmu|].
  rewrite exposition_total, exposition_count, exposition_inf.
  split; [reflexivity|].
  pose proof (reachableFrom_keys _ _ Hr k) as Hkeys.
  destruct (requestDurations m !! k) as [ds|] eqn:Ed;
    cbn [from_option id fmap option_fmap option_map] in *.
  - destruct (totalRequests m !! k) as [n|] eqn:En.
    + cbn [from_option id] in Ht. subst n.
      split; [reflexivity|]. f_equal.
      destruct (histogram_spec ds) as (_ & _ & Hinf & _).
      rewrite Hinf. cbn [from_option id]. apply wrap64_small.
      unfold MaxInt64 in *. lia.
    + destruct Hkeys as [_ [_ Hk]]. destruct Hk as [n Hn]; [eauto|].
      discriminate.
  - destruct (totalRequests m !! k) as [n|] eqn:En; [|auto].
    destruct Hkeys as [_ [Hk _]]. destruct Hk as [ds Hds]; [eauto|].
    discriminate.
Qed.

Lemma counters_agree_witness :
  ∃ m, RecordRequest "/a" 200 5 (NewMetrics 7) = Some m
       ∧ default 0 (totalRequests m !! "/a")
         = sumCodes (default ∅ (statusCodes m !! "/a")).
Proof.
  exists (recordLocked "/a" 200 5 (NewMetrics 7)).
  split; [reflexivity|].
  refine (proj1 (counters_agree 7 _ "/a" mapOrder "1.0.0" 9 _ _)).
  - exact (reach_record 7 _ "/a" 200 5 _ (reach_new 7) eq_refl).
  - vm_compute. discriminate.
Defined.

(** ** Response writers *)

Lemma calls_app {W} `{http_ResponseWriter W} (a b : list Call) (w : W) :
  calls (a ++ b) w = calls b (calls a w).
Proof. unfold calls. apply fold_left_app. Qed.

Lemma calls_response (cs : list Call) (w : response) : calls cs w = w ++ cs.
Proof.
  revert w. induction cs as [|c cs IH]; intros w.
  - cbn. rewrite app_nil_r. reflexivity.
  - change (calls (c :: cs) w) with (calls cs (call c w)). rewrite IH.
    destruct c; cbn; rewrite <- app_assoc; reflexivity.
Qed.

Lemma last_cons_default {A} (x d : A) (l : list A) :
  default d (last (x :: l)) = default x (last l).
Proof.
  revert x d. induction l as [|a l IH]; intros x d; [reflexivity|].
  change (last (x :: a :: l)) with (last (a :: l)).
  rewrite (IH a d), (IH a x). reflexivity.
Qed.

(** The wrapper passes every call on and keeps the code of the latest
    [WriteHeader]. *)
Lemma calls_wrapper {W} `{http_ResponseWriter W} (cs : list Call)
    (rw : responseWriter W) :
  calls cs rw
  = mkResponseWriter (calls cs (ResponseWriter rw))
                     (default (statusCode rw) (last (headerWrites cs))).
Proof.
  revert rw. induction cs as [|c cs IH]; intros [w s]; [reflexivity|].
  change (calls (c :: cs) (mkResponseWriter w s))
    with (calls cs (call c (mkResponseWriter w s))).
  rewrite IH. destruct c; cbn [call headerWrites ResponseWriter statusCode];
    try reflexivity.
  rewrite last_cons_default. reflexivity.
Qed.

Lemma http_Error_calls {W} `{http_ResponseWriter W} (w : W) error code :
  http_Error w error code = calls (errorCalls error code) w.
Proof. reflexivity. Qed.

Lemma fold_Header_Add {W} `{http_ResponseWriter W}
    (l : list (string * string)) (w : W) :
  fold_left (λ w '(name, value), Header_Add name value w) l w
  = calls (map (λ '(name, value), HeaderAdd name value) l) w.
Proof.
  revert w. induction l as [|[n v] l IH]; intros w; [reflexivity|].
  cbn [fold_left map]. rewrite IH. reflexivity.
Qed.

Lemma fold_Write {W} `{http_ResponseWriter W} (l : list string) (w : W) :
  fold_left (λ w piece, Write (Bytes piece) w) l w
  = calls (map (λ piece, CallWrite (Bytes piece)) l) w.
Proof.
  revert w. induction l as [|s l IH]; intros w; [reflexivity|].
  cbn [fold_left map]. rewrite IH. reflexivity.
Qed.

Lemma headerWrites_app a b :
  headerWrites (a ++ b) = headerWrites a ++ headerWrites b.
Proof.
  induction a as [|c a IH]; [reflexivity|].
  destruct c; cbn [app headerWrites]; rewrite IH; reflexivity.
Qed.

Lemma headerWrites_adds (l : list (string * string)) :
  headerWrites (map (λ '(name, value), HeaderAdd name value) l) = [].
Proof. induction l as [|[n v] l IH]; [reflexivity|exact IH]. Qed.

Lemma headerWrites_writes (l : list string) :
  headerWrites (map (λ piece, CallWrite (Bytes piece)) l) = [].
Proof. induction l as [|s l IH]; [reflexivity|exact IH]. Qed.

Lemma sentStatus_adds (l : list (string * string)) rest :
  sentStatus (map (λ '(name, value), HeaderAdd name value) l ++ rest)
  = sentStatus rest.
Proof. induction l as [|[n v] l IH]; [reflexivity|exact IH]. Qed.

Lemma panics_adds (l : list (string * string)) rest :
  panics (map (λ '(name, value), HeaderAdd name value) l ++ rest)
  = panics rest.
Proof. induction l as [|[n v] l IH]; [reflexivity|exact IH]. Qed.

Lemma finalCode_cases code :
  finalCode code = true →
  validCode code = true ∧ informational code = false.
Proof.
  unfold finalCode. intros H. apply andb_prop in H as [H1 H2].
  apply negb_true_iff in H2. auto.
Qed.

Lemma relayCalls_status resp :
  headerWrites (relayCalls resp) = [StatusCode resp]
  ∧ (finalCode (StatusCode resp) = true →
     sentStatus (relayCalls resp) = Some (StatusCode resp))
  ∧ panics (relayCalls resp) = negb (validCode (StatusCode resp)).
Proof.
  unfold relayCalls. split; [|split].
  - rewrite !headerWrites_app, headerWrites_adds, headerWrites_writes.
    reflexivity.
  - intros H. apply finalCode_cases in H as [H1 H2].
    rewrite sentStatus_adds. cbn [app sentStatus]. rewrite H1, H2.
    reflexivity.
  - rewrite panics_adds. cbn [app panics].
    destruct (validCode (StatusCode resp)); [|reflexivity].
    cbn [negb]. destruct (informational (StatusCode resp)); [|reflexivity].
    destruct (copied resp); reflexivity.
Qed.

(** C2, as the code has it: whatever calls a handler makes on the wrapper
    built by [AccessLogMiddleware], the wrapped writer receives the same
    calls in the same order, and the observed status code is 200 when
    [WriteHeader] was never called and otherwise the argument of the LAST
    call of [WriteHeader]. *)
Theorem statusCode_last_WriteHeader (W : Type) (RW : http_ResponseWriter W)
    (w : W) (cs : list Call) :
  statusCode (calls cs (mkResponseWriter w 200))
  = default 200 (last (headerWrites cs))
  ∧ ResponseWriter (calls cs (mkResponseWriter w 200)) = calls cs w.
Proof. rewrite calls_wrapper. split; reflexivity. Qed.

(** C2 with the FIRST call does not hold: after [WriteHeader(404)] and
    [WriteHeader(500)] the observed status code is 500, not the argument
    of the first call. *)
Lemma statusCode_first_WriteHeader_fails :
  statusCode (calls [CallWriteHeader 404; CallWriteHeader 500] fresh) = 500
  ∧ head (headerWrites [CallWriteHeader 404; CallWriteHeader 500]) = Some 404
  ∧ ¬ (∀ cs : list Call,
         statusCode (calls cs fresh) = default 200 (head (headerWrites cs))).
Proof.
  split; [reflexivity|]. split; [reflexivity|].
  intros H. specialize (H [CallWriteHeader 404; CallWriteHeader 500]).
  discriminate H.
Qed.

(** ** The handlers *)

Lemma calls_fresh (cs : list Call) :
  calls cs fresh
  = mkResponseWriter cs (default 200 (last (headerWrites cs))).
Proof. rewrite calls_wrapper, calls_response. reflexivity. Qed.

Lemma errorCalls_status error code :
  headerWrites (errorCalls error code) = [code]
  ∧ (finalCode code = true → sentStatus (errorCalls error code) = Some code)
  ∧ sentBody (errorCalls error code) = [Bytes (error +:+ newline)]
  ∧ panics (errorCalls error code) = negb (validCode code).
Proof.
  split; [reflexivity|]. split; [|split; [reflexivity|]].
  - intros H. apply finalCode_cases in H as [H1 H2].
    cbn [errorCalls sentStatus]. rewrite H1, H2. reflexivity.
  - cbn [errorCalls panics]. destruct (validCode code); [|reflexivity].
    destruct (informational code); reflexivity.
Qed.

Lemma ForwardToBackend_other env W (RW : http_ResponseWriter W) (w : W) r p :
  URL_Path r ≠ "/" →
  ForwardToBackend env W RW w r p
  = Some (calls (errorCalls "404 page not found" 404) w, p).
Proof.
  intros Hne. unfold ForwardToBackend.
  destruct (String.eqb_spec (URL_Path r) "/"); [contradiction|reflexivity].
Qed.

Lemma ForwardToBackend_root env W (RW : http_ResponseWriter W) (w : W) r p :
  URL_Path r = "/" →
  ForwardToBackend env W RW w r p
  = match NewRequest_err env (Method r) (backendURL env) with
    | Some err =>
      Some (calls (errorCalls ("Error creating request: " +:+ err) 500) w, p)
    | None =>
      match client_Do env (outbound env r) with
      | inl err =>
        Some (calls (errorCalls ("Error forwarding to backend: " +:+ err) 503)
                    w, p)
      | inr resp =>
        Some (calls (relayCalls resp) w,
              {| metrics := metrics p;
                 logged := logged p ++
                   match copyErr resp with
                   | Some err =>
                     [LogLine ("Error copying response body: " +:+ err)]
                   | None => []
                   end |})
      end
    end.
Proof.
  intros Hp. unfold ForwardToBackend. rewrite Hp. cbn [String.eqb negb].
  change (Ascii.eqb "/" "/") with true. cbn [String.eqb negb].
  destruct (NewRequest_err env (Method r) (backendURL env)); [reflexivity|].
  destruct (client_Do env (outbound env r)) as [err|resp]; [reflexivity|].
  rewrite fold_Header_Add.
  change (WriteHeader (StatusCode resp) ?x)
    with (calls [CallWriteHeader (StatusCode resp)] x).
  rewrite fold_Write, <- !calls_app.
  unfold relayCalls.
  destruct (copyErr resp); [reflexivity|].
  rewrite app_nil_r. destruct p; reflexivity.
Qed.

Lemma addedValues_app name a b :
  addedValues name (a ++ b) = addedValues name a ++ addedValues name b.
Proof. unfold addedValues. apply omap_app. Qed.

Lemma addedValues_cons name c cs :
  addedValues name (c :: cs)
  = match c with
    | HeaderAdd key value =>
      if decide (key = name) then value :: addedValues name cs
      else addedValues name cs
    | _ => addedValues name cs
    end.
Proof.
  unfold addedValues. destruct c; try reflexivity.
  cbn. destruct (decide (key = name)); reflexivity.
Qed.

Lemma addedValues_pairs name n (vs : list string) :
  addedValues name (map (λ '(name, value), HeaderAdd name value)
                        (map (λ value, (n, value)) vs))
  = if decide (n = name) then vs else [].
Proof.
  induction vs as [|v vs IH]; [case_decide; reflexivity|].
  cbn [map]. rewrite addedValues_cons, IH.
  destruct (decide (n = name)); reflexivity.
Qed.

(** The [Header.Add] calls made in the two [range] loops over a header
    leave under every name the values of the header under that name. *)
Lemma addedValues_headerPairs name (h : list (string * list string)) :
  addedValues name (map (λ '(name, value), HeaderAdd name value)
                        (headerPairs h))
  = Header_Values h name.
Proof.
  unfold headerPairs, Header_Values.
  induction h as [|[n vs] h IH]; [reflexivity|].
  cbn [flat_map]. rewrite map_app, addedValues_app, addedValues_pairs, IH.
  rewrite filter_cons. cbn [fst].
  destruct (decide (n = name)); reflexivity.
Qed.

Lemma Forall_isHeaderAdd (l : list (string * string)) :
  Forall (λ c, isHeaderAdd c = true)
         (map (λ '(name, value), HeaderAdd name value) l).
Proof. induction l as [|[n v] l IH]; constructor; auto. Qed.

(** C7: for the path "/", [ForwardToBackend] answers 500 with the error
    text when [http.NewRequest] fails and 503 with the error text when
    [client.Do] fails.  When the backend answers, the handler first makes
    [Header.Add] calls and no other call, which leave under every name the
    values that the answer has under that name, and then calls
    [WriteHeader] with the backend's status code, whatever it is.  If
    net/http accepts the code (100 to 999), the handler goes on to write
    the body; the code is the one captured and, unless it is
    informational, the status sent, whether or not the copy of the body
    fails; a failed copy adds one log line and changes nothing else.  If
    net/http refuses the code, that call of [WriteHeader] panics and no
    status is sent. *)
Theorem ForwardToBackend_outcomes (env : Env) (r : Request) (p : Process) :
  URL_Path r = "/" →
  match NewRequest_err env (Method r) (backendURL env) with
  | Some err =>
    ∃ rw,
      ForwardToBackend env _ _ fresh r p = Some (rw, p)
      ∧ statusCode rw = 500
      ∧ sentStatus (ResponseWriter rw) = Some 500
      ∧ sentBody (ResponseWriter rw)
        = [Bytes ("Error creating request: " +:+ err +:+ newline)]
  | None =>
    match client_Do env (outbound env r) with
    | inl err =>
      ∃ rw,
        ForwardToBackend env _ _ fresh r p = Some (rw, p)
        ∧ statusCode rw = 503
        ∧ sentStatus (ResponseWriter rw) = Some 503
        ∧ sentBody (ResponseWriter rw)
          = [Bytes ("Error forwarding to backend: " +:+ err +:+ newline)]
    | inr resp =>
      ∃ rw p' adds,
        ForwardToBackend env _ _ fresh r p = Some (rw, p')
        ∧ Forall (λ c, isHeaderAdd c = true) adds
        ∧ (∀ name, addedValues name adds
                   = Header_Values (respHeader resp) name)
        ∧ take (S (length adds)) (ResponseWriter rw)
          = adds ++ [CallWriteHeader (StatusCode resp)]
        ∧ if validCode (StatusCode resp) then
            ResponseWriter rw
            = adds ++ [CallWriteHeader (StatusCode resp)]
              ++ map (λ piece, CallWrite (Bytes piece)) (copied resp)
            ∧ panics (ResponseWriter rw) = false
            ∧ statusCode rw = StatusCode resp
            ∧ (informational (StatusCode resp) = false →
               sentStatus (ResponseWriter rw) = Some (StatusCode resp))
            ∧ metrics p' = metrics p
            ∧ logged p'
              = logged p ++
                match copyErr resp with
                | Some err =>
                  [LogLine ("Error copying response body: " +:+ err)]
                | None => []
                end
          else
            panics (ResponseWriter rw) = true
            ∧ sentStatus (ResponseWriter rw) = None
    end
  end.
Proof.
  intros Hp. rewrite (ForwardToBackend_root env _ _ fresh r p Hp).
  destruct (NewRequest_err env (Method r) (backendURL env)) as [err|].
  { eexists. split; [reflexivity|]. rewrite calls_fresh.
    cbn [statusCode ResponseWriter]. repeat split. }
  destruct (client_Do env (outbound env r)) as [err|resp].
  { eexists. split; [reflexivity|]. rewrite calls_fresh.
    cbn [statusCode ResponseWriter]. repeat split. }
  eexists _, _, _. split; [reflexivity|]. rewrite calls_fresh.
  cbn [statusCode ResponseWriter metrics logged].
  destruct (relayCalls_status resp) as (Hw & Hs & Hpanic).
  rewrite Hw, Hpanic.
  split; [apply Forall_isHeaderAdd|].
  split; [intros name; apply addedValues_headerPairs|].
  split.
  { unfold relayCalls. rewrite app_assoc, take_app_length'; [reflexivity|].
    rewrite length_app. cbn [length]. lia. }
  destruct (validCode (StatusCode resp)) eqn:Hvalid; cbn [negb].
  - do 3 (split; [reflexivity|]). split; [|split; reflexivity].
    intros Hinf. apply Hs. unfold finalCode. rewrite Hvalid, Hinf.
    reflexivity.
  - split; [reflexivity|]. unfold relayCalls. rewrite sentStatus_adds.
    cbn [app sentStatus]. rewrite Hvalid. reflexivity.
Qed.

(** The backend answers 201 with the header X-Backend: a, b, and its
    body breaks off. *)
Lemma ForwardToBackend_outcomes_witness :
  ∃ rw p',
    ForwardToBackend (envWith true true (backendResponse true)) _ _ fresh
                     (getRequest "/") process0 = Some (rw, p')
    ∧ addedValues "X-Backend" (ResponseWriter rw) = ["a"; "b"]
    ∧ take 3 (ResponseWriter rw)
      = [HeaderAdd "X-Backend" "a"; HeaderAdd "X-Backend" "b";
         CallWriteHeader 201]
    ∧ statusCode rw = 201
    ∧ sentStatus (ResponseWriter rw) = Some 201
    ∧ sentBody (ResponseWriter rw) = [Bytes "he"; Bytes "llo"]
    ∧ logged p' = [LogLine "Error copying response body: unexpected EOF"].
Proof.
  pose proof (ForwardToBackend_outcomes
                (envWith true true (backendResponse true))
                (getRequest "/") process0 eq_refl) as H.
  cbn [envWith NewRequest_err client_Do] in H.
  destruct H as (rw & p' & adds & H1 & _ & _ & _ & _ & _ & H5 & H6 & _ & H9).
  exists rw, p'. split; [exact H1|].
  injection H1 as <- <-.
  split; [reflexivity|]. split; [reflexivity|]. split; [exact H5|].
  split; [exact (H6 eq_refl)|]. split; [reflexivity|exact H9].
Defined.

(** ** The middleware and the routes *)

Lemma AccessLogMiddleware_run env (next : HandlerFunc) r p cs p1 :
  next (responseWriter response) _ fresh r p = Some (calls cs fresh, p1) →
  mutex (metrics p1) = Unlocked →
  AccessLogMiddleware env next response _ [] r p
  = Some (cs,
          {| metrics :=
               recordLocked (URL_Path r) (default 200 (last (headerWrites cs)))
                            (elapsed env) (metrics p1);
             logged := logged p1 ++
               [ AccessLine (RemoteAddr r) (Method r) (URL_Path r) (Proto r)
                            (default 200 (last (headerWrites cs)))
                            (userAgent r) (elapsed env);
                 StdoutLine (RecordRequest_stdout (URL_Path r)) ] |}).
Proof.
  intros Hnext Hmu. unfold AccessLogMiddleware.
  change {| ResponseWriter := ([] : response); statusCode := 200 |} with fresh.
  rewrite Hnext. cbn [mbind option_bind]. rewrite calls_fresh.
  cbn [statusCode ResponseWriter].
  rewrite (RecordRequest_unlocked _ _ _ _ Hmu). reflexivity.
Qed.

(** ** The path of a request *)

Lemma prefix_slash_cons c t :
  String.prefix "/" (String c t) = (byteZ c =? 47).
Proof.
  cbn [String.prefix].
  destruct (Z.eqb_spec (byteZ c) 47) as [He|Hne].
  - assert (c = "/"%char) as ->.
    { rewrite <- (byte_of_Z_byteZ c), He. reflexivity. }
    destruct t; reflexivity.
  - destruct (Ascii.ascii_dec "/"%char c) as [<-|Hc].
    + exfalso. apply Hne. reflexivity.
    + destruct (Ascii.eqb_spec "/"%char c); [contradiction|reflexivity].
Qed.

Lemma slash_byte c : (byteZ c =? 47) = true → c = "/"%char.
Proof.
  intros H. apply Z.eqb_eq in H.
  rewrite <- (byte_of_Z_byteZ c), H. reflexivity.
Qed.

Lemma prefix_slash t : String.prefix "/" t = true → ∃ s, t = String "/" s.
Proof.
  destruct t as [|c s]; [discriminate|]. rewrite prefix_slash_cons.
  intros H. apply slash_byte in H as ->. eauto.
Qed.

Lemma append_nil_r (s : string) : s +:+ "" = s.
Proof.
  induction s as [|c s IH]; [reflexivity|].
  change (String c s +:+ "") with (String c (s +:+ "")).
  rewrite IH. reflexivity.
Qed.

Lemma splitSlash_nonempty s : splitSlash s ≠ [].
Proof.
  destruct s as [|c s]; [discriminate|]. cbn [splitSlash].
  destruct (byteZ c =? 47); [discriminate|].
  destruct (splitSlash s); discriminate.
Qed.

Lemma length_splitSlash s : length (splitSlash s) = S (countSlash s).
Proof.
  induction s as [|c s IH]; [reflexivity|]. cbn [splitSlash countSlash].
  destruct (byteZ c =? 47).
  - cbn [length]. rewrite IH. reflexivity.
  - destruct (splitSlash s) as [|seg segs] eqn:E; [discriminate IH|].
    cbn [length] in *. lia.
Qed.

Lemma splitSlash_noslash s : countSlash s = 0%nat → splitSlash s = [s].
Proof.
  induction s as [|c s IH]; [reflexivity|]. cbn [splitSlash countSlash].
  destruct (byteZ c =? 47); [discriminate|]. cbn [Nat.add].
  intros H. rewrite (IH H). reflexivity.
Qed.

Lemma countSlash_app a b :
  countSlash (a +:+ b) = (countSlash a + countSlash b)%nat.
Proof.
  induction a as [|c a IH]; [reflexivity|].
  change (String c a +:+ b) with (String c (a +:+ b)).
  cbn [countSlash]. rewrite IH. lia.
Qed.

Lemma last_splitSlash_slash s : last (splitSlash (s +:+ "/")) = Some "".
Proof.
  induction s as [|c s IH]; [reflexivity|].
  change (String c s +:+ "/") with (String c (s +:+ "/")).
  cbn [splitSlash].
  pose proof (length_splitSlash (s +:+ "/")) as Hlen.
  rewrite countSlash_app in Hlen.
  change (countSlash "/") with 1%nat in Hlen.
  destruct (splitSlash (s +:+ "/")) as [|seg [|seg' segs]] eqn:E;
    [discriminate Hlen | cbn [length] in Hlen; lia |].
  destruct (byteZ c =? 47); exact IH.
Qed.

Lemma endsInSlash_cons c s :
  s ≠ "" → endsInSlash (String c s) = endsInSlash s.
Proof.
  intros Hs. unfold endsInSlash. destruct s as [|c' s]; [contradiction|].
  cbn [String.length]. rewrite !Nat.sub_succ, !Nat.sub_0_r. reflexivity.
Qed.

Lemma endsInSlash_noslash s : countSlash s = 0%nat → endsInSlash s = false.
Proof.
  induction s as [|c s IH]; [reflexivity|]. cbn [countSlash].
  destruct (byteZ c =? 47) eqn:E; [discriminate|]. cbn [Nat.add]. intros H.
  destruct s as [|c' s].
  - unfold endsInSlash. cbn. exact E.
  - rewrite endsInSlash_cons by discriminate. exact (IH H).
Qed.

Lemma eqb_false (a b : string) : a ≠ b → String.eqb a b = false.
Proof. intros H. destruct (String.eqb_spec a b); [contradiction|reflexivity]. Qed.

(** A path of one segment that is neither empty nor a dot element is in
    canonical form. *)
Lemma mux_cleanPath_one_segment s :
  countSlash s = 0%nat → s ≠ "" → s ≠ "." → s ≠ ".." →
  mux_cleanPath (String "/" s) = String "/" s.
Proof.
  intros Hc H0 H1 H2. unfold mux_cleanPath.
  change (String.eqb (String "/" s) "") with false. cbv iota.
  rewrite prefix_slash_cons. change (byteZ "/" =? 47) with true. cbv iota.
  assert (path_Clean (String "/" s) = String "/" s) as ->.
  { unfold path_Clean. cbn [splitSlash].
    change (byteZ "/" =? 47) with true. cbv iota.
    rewrite (splitSlash_noslash s Hc). cbn [fold_left].
    unfold cleanStep at 2. cbn [String.eqb orb].
    unfold cleanStep. rewrite !eqb_false by assumption. cbn [orb app].
    cbn [fold_right]. rewrite append_nil_r. reflexivity. }
  rewrite endsInSlash_cons by exact H0.
  rewrite (endsInSlash_noslash s Hc). reflexivity.
Qed.

Lemma pathSegments_one_segment s :
  countSlash s = 0%nat → s ≠ "" →
  pathSegments (String "/" s) = [pathUnescape s].
Proof.
  intros Hc H0. unfold pathSegments. cbn [splitSlash].
  change (byteZ "/" =? 47) with true. cbv iota.
  rewrite (splitSlash_noslash s Hc). cbn [tail last].
  destruct s; [contradiction|reflexivity].
Qed.

Lemma mux_cleanPath_prefix p : ∃ t, mux_cleanPath p = String "/" t.
Proof.
  unfold mux_cleanPath. destruct (String.eqb p ""); [eexists; reflexivity|].
  cbv zeta.
  match goal with
  | |- context [path_Clean ?q] =>
    assert (∃ t, path_Clean q = String "/" t) as [t ->]
  end.
  { unfold path_Clean.
    destruct (fold_left cleanStep _ []) as [|x l];
      eexists; reflexivity. }
  match goal with
  | |- context [if ?b then _ else _] => destruct b
  end; eexists; reflexivity.
Qed.

Lemma pathSegments_nonempty t : pathSegments (String "/" t) ≠ [].
Proof.
  unfold pathSegments. cbn [splitSlash].
  change (byteZ "/" =? 47) with true. cbv iota. cbn [tail].
  pose proof (splitSlash_nonempty t) as Hne.
  destruct (last (splitSlash t)) as [[|c s]|].
  - intros H. apply app_eq_nil in H as [_ H]. discriminate H.
  - destruct (splitSlash t); [contradiction|discriminate].
  - destruct (splitSlash t); [contradiction|discriminate].
Qed.

Lemma pathSegments_slash_last t :
  last (pathSegments (String "/" (t +:+ "/"))) = Some "/".
Proof.
  unfold pathSegments. cbn [splitSlash].
  change (byteZ "/" =? 47) with true. cbv iota. cbn [tail].
  rewrite last_splitSlash_slash. apply last_snoc.
Qed.

(** *** Escapes *)

Lemma unescape_plain c s :
  (byteZ c =? 37) = false → unescape (String c s) = String c <$> unescape s.
Proof. intros H. cbn [unescape]. rewrite H. reflexivity. Qed.

Lemma ishex_noslash c : ishex c = true → (byteZ c =? 47) = false.
Proof. unfold ishex. cbv zeta. lia. Qed.

(** Unescaping removes no slash. *)
Lemma unescape_slashes n : ∀ s t,
  (String.length s ≤ n)%nat → unescape s = Some t →
  (countSlash s ≤ countSlash t)%nat.
Proof.
  induction n as [|n IH]; intros s t Hlen Hs.
  - destruct s; [|cbn in Hlen; lia]. injection Hs as <-. reflexivity.
  - destruct s as [|c s]; [injection Hs as <-; reflexivity|].
    cbn [unescape] in Hs. cbn [String.length] in Hlen.
    destruct (byteZ c =? 37) eqn:Ec.
    + destruct s as [|h [|l s]]; try discriminate Hs.
      destruct (ishex h) eqn:Eh; [|discriminate Hs].
      destruct (ishex l) eqn:El; [|discriminate Hs].
      cbn [andb] in Hs.
      destruct (unescape s) as [t'|] eqn:Es; [|discriminate Hs].
      injection Hs as <-. cbn [countSlash String.length] in *.
      rewrite (ishex_noslash h Eh), (ishex_noslash l El).
      assert ((byteZ c =? 47) = false) as -> by lia.
      specialize (IH s t' ltac:(lia) Es).
      destruct (byteZ (byte_of_Z _) =? 47); lia.
    + destruct (unescape s) as [t'|] eqn:Es; [|discriminate Hs].
      injection Hs as <-. cbn [countSlash].
      specialize (IH s t' ltac:(lia) Es). lia.
Qed.

Lemma unescape_noslash s t :
  unescape s = Some t → countSlash t = 0%nat → countSlash s = 0%nat.
Proof.
  intros Hs Ht. pose proof (unescape_slashes _ s t (le_n _) Hs). lia.
Qed.

Lemma hex_roundtrip c :
  ishex (upperhex (byteZ c / 16)) = true
  ∧ ishex (upperhex (byteZ c mod 16)) = true
  ∧ byte_of_Z (16 * unhex (upperhex (byteZ c / 16))
               + unhex (upperhex (byteZ c mod 16))) = c.
Proof.
  destruct c as [[] [] [] [] [] [] [] []]; vm_compute; repeat split.
Qed.

Lemma shouldEscape_percent c :
  shouldEscape c = false → (byteZ c =? 37) = false.
Proof. unfold shouldEscape, alnum. cbv zeta. lia. Qed.

(** What [url.escape] writes, [url.unescape] reads back. *)
Lemma unescape_escape p : unescape (escape p) = Some p.
Proof.
  induction p as [|c p IH]; [reflexivity|]. cbn [escape].
  destruct (shouldEscape c) eqn:E.
  - cbn [unescape]. change (byteZ "%" =? 37) with true. cbv iota.
    destruct (hex_roundtrip c) as (-> & -> & ->). cbn [andb].
    rewrite IH. reflexivity.
  - rewrite unescape_plain by (apply shouldEscape_percent, E).
    rewrite IH. reflexivity.
Qed.

(** *** The fields of [r.URL] *)

Lemma accepted_shape r :
  targetAccepted (PathAndQuery r) = true →
  (TargetPath r = "" ∧ URL_Path r = "")
  ∨ ∃ s u, TargetPath r = String "/" s ∧ unescape s = Some u
           ∧ URL_Path r = String "/" u.
Proof.
  intros Hacc. unfold URL_Path. rewrite Hacc.
  unfold targetAccepted in Hacc. fold (TargetPath r) in Hacc.
  apply andb_prop in Hacc as [Hacc Hun]. apply andb_prop in Hacc as [Hsh _].
  destruct (TargetPath r) as [|c s] eqn:Et; [left; split; reflexivity|].
  right. cbn [String.eqb orb] in Hsh. rewrite prefix_slash_cons in Hsh.
  apply slash_byte in Hsh as ->.
  rewrite unescape_plain in * by reflexivity.
  destruct (unescape s) as [u|] eqn:Es; [|discriminate Hun].
  exists s, u. split; [reflexivity|]. split; [exact Es|reflexivity].
Qed.

Lemma URL_Path_accepted r :
  URL_Path r ≠ "" → targetAccepted (PathAndQuery r) = true.
Proof.
  unfold URL_Path. destruct (targetAccepted (PathAndQuery r)); [reflexivity|].
  contradiction.
Qed.

Lemma escape_slash u : escape (String "/" u) = String "/" (escape u).
Proof. reflexivity. Qed.

Lemma EscapedPath_cases r :
  targetAccepted (PathAndQuery r) = true →
  EscapedPath r = TargetPath r ∨ EscapedPath r = escape (URL_Path r).
Proof.
  intros Hacc.
  assert (String.eqb (URL_Path r) "*" = false) as Hstar.
  { destruct (accepted_shape r Hacc) as [[_ ->]|(s & u & _ & _ & ->)];
      reflexivity. }
  unfold EscapedPath, URL_RawPath. cbv zeta.
  destruct (String.eqb_spec (TargetPath r) (escape (URL_Path r))) as [He|He].
  - cbn [String.eqb negb andb]. rewrite Hstar. right. reflexivity.
  - match goal with
    | |- context [if ?b then TargetPath r else _] => destruct b
    end; [left; reflexivity|].
    rewrite Hstar. right. reflexivity.
Qed.

(** The escaped path of a request begins with '/' unless it is empty, and
    unescapes to the path. *)
Lemma EscapedPath_shape r :
  targetAccepted (PathAndQuery r) = true →
  (EscapedPath r = "" ∧ URL_Path r = "")
  ∨ ∃ s u, EscapedPath r = String "/" s ∧ unescape s = Some u
           ∧ URL_Path r = String "/" u.
Proof.
  intros Hacc.
  destruct (EscapedPath_cases r Hacc) as [He|He]; rewrite He;
    destruct (accepted_shape r Hacc) as [[Ht Hu]|(s & u & Ht & Hs & Hu)].
  - left. split; assumption.
  - right. exists s, u. repeat split; assumption.
  - left. rewrite Hu. split; reflexivity.
  - right. exists (escape u), u. rewrite Hu, escape_slash.
    repeat split. apply unescape_escape.
Qed.

(** A request for a path of one segment is handed to a handler, whatever
    the encoding of its target, and the mux sees that one segment. *)
Lemma one_segment r name :
  URL_Path r = String "/" name →
  countSlash name = 0%nat → name ≠ "" → name ≠ "." → name ≠ ".." →
  dispatched r = true ∧ pathSegments (EscapedPath r) = [name].
Proof.
  intros Hp Hc H0 H1 H2.
  assert (targetAccepted (PathAndQuery r) = true) as Hacc
    by (apply URL_Path_accepted; rewrite Hp; discriminate).
  destruct (EscapedPath_shape r Hacc) as [[_ Hu]|(s & u & He & Hs & Hu)];
    [rewrite Hp in Hu; discriminate Hu|].
  rewrite Hp in Hu. injection Hu as <-.
  pose proof (unescape_noslash s name Hs Hc) as Hcs.
  assert (s ≠ "") as Hs0 by (intros ->; injection Hs as <-; auto).
  assert (s ≠ ".") as Hs1 by (intros ->; injection Hs as <-; auto).
  assert (s ≠ "..") as Hs2 by (intros ->; injection Hs as <-; auto).
  split.
  - unfold dispatched. rewrite Hacc, He. cbn [andb].
    rewrite (mux_cleanPath_one_segment s Hcs Hs0 Hs1 Hs2).
    rewrite String.eqb_refl. destruct (String.eqb (Method r) "CONNECT");
      reflexivity.
  - rewrite He, (pathSegments_one_segment s Hcs Hs0).
    unfold pathUnescape. rewrite Hs. reflexivity.
Qed.

Lemma dispatched_slash r :
  dispatched r = true →
  targetAccepted (PathAndQuery r) = true ∧ ∃ t, EscapedPath r = String "/" t.
Proof.
  unfold dispatched. intros H. apply andb_prop in H as [Hacc H].
  split; [exact Hacc|].
  destruct (String.eqb (Method r) "CONNECT").
  - destruct (EscapedPath_shape r Hacc) as [[He _]|(s & u & He & _)].
    + rewrite He in H. discriminate H.
    + eauto.
  - apply String.eqb_eq in H. rewrite <- H. apply mux_cleanPath_prefix.
Qed.

(** *** The routes of [main] *)

Lemma parsePattern_routes :
  parsePattern "/" = mkPattern [] true
  ∧ parsePattern "/version" = mkPattern ["version"] false
  ∧ parsePattern "/health/live" = mkPattern ["health"; "live"] false
  ∧ parsePattern "/health/ready" = mkPattern ["health"; "ready"] false
  ∧ parsePattern "/metrics" = mkPattern ["metrics"] false.
Proof. repeat split. Qed.

(** The handler that the routing tree finds for the segments of a path:
    the one registered for exactly these segments, and the one of "/" for
    all others. *)
Lemma treeMatch_routes env segs :
  segs ≠ [] →
  ∃ h : HandlerFunc,
    (routeOf segs, h) ∈ handlers env
    ∧ treeMatch (routes env) segs
      = Some (routeOf segs, AccessLogMiddleware env h).
Proof.
  intros Hne. unfold routes, handlers, routeOf. cbn [treeMatch].
  destruct parsePattern_routes as (-> & -> & -> & -> & ->).
  cbn [literals multi length].
  destruct segs as [|s1 [|s2 [|s3 rest]]]; [contradiction| | |];
    cbn [matchSegs negb andb];
    repeat match goal with
    | |- context [String.eqb ?a ?b] =>
      destruct (String.eqb_spec a b); subst; cbn [andb]; try discriminate
    end;
    repeat (rewrite decide_True by reflexivity);
    repeat (rewrite decide_False by congruence);
    eexists; (split; [|reflexivity]); set_solver.
Qed.

Lemma routeOf_slash_last segs : last segs = Some "/" → routeOf segs = "/".
Proof.
  intros Hl. unfold routeOf.
  repeat case_decide; subst; try discriminate Hl; reflexivity.
Qed.

(** No pattern of [main] but "/" ends in a slash, so the mux never
    redirects a path to the same path with a slash added. *)
Lemma matchOrRedirect_routes env t uPath :
  matchOrRedirect (routes env) (String "/" t) uPath
  = (treeMatch (routes env) (pathSegments (String "/" t)), None).
Proof.
  unfold matchOrRedirect.
  change (String "/" t +:+ "/") with (String "/" (t +:+ "/")).
  destruct (treeMatch_routes env (pathSegments (String "/" (t +:+ "/"))))
    as (h & _ & ->).
  { intros H. pose proof (pathSegments_slash_last t) as Hl.
    rewrite H in Hl. discriminate Hl. }
  rewrite (routeOf_slash_last _ (pathSegments_slash_last t)).
  unfold exactMatch at 2.
  destruct parsePattern_routes as (-> & _). cbn [multi literals negb length].
  cbn [countSlash]. change (byteZ "/" =? 47) with true. cbv iota.
  rewrite countSlash_app. change (countSlash "/") with 1%nat.
  replace (0 + 1 =? 1 + (countSlash t + 1))%nat with false
    by (symmetry; apply Nat.eqb_neq; lia).
  rewrite !andb_false_r. reflexivity.
Qed.

(** A request in canonical form goes to the handler of its segments. *)
Lemma findHandler_routes env r :
  dispatched r = true →
  ∃ h : HandlerFunc,
    (routeOf (pathSegments (EscapedPath r)), h) ∈ handlers env
    ∧ findHandler (routes env) r
      = Handle (routeOf (pathSegments (EscapedPath r)))
               (AccessLogMiddleware env h).
Proof.
  intros Hd. destruct (dispatched_slash r Hd) as (Hacc & t & He).
  destruct (treeMatch_routes env (pathSegments (EscapedPath r)))
    as (h & Hin & Htree).
  { rewrite He. apply pathSegments_nonempty. }
  exists h. split; [exact Hin|].
  unfold findHandler. cbv zeta. unfold dispatched in Hd.
  rewrite Hacc in Hd. cbn [andb] in Hd.
  destruct (String.eqb (Method r) "CONNECT").
  - pose proof (matchOrRedirect_routes env t (URL_Path r)) as Hm.
    rewrite <- He in Hm. rewrite Hm, Htree. reflexivity.
  - apply String.eqb_eq in Hd. rewrite Hd.
    pose proof (matchOrRedirect_routes env t (URL_Path r)) as Hm.
    rewrite <- He in Hm. rewrite Hm, Htree.
    rewrite String.eqb_refl. reflexivity.
Qed.

(** Any other request that the server accepts is answered by the mux
    itself, with a redirect. *)
Lemma findHandler_redirect env r :
  targetAccepted (PathAndQuery r) = true →
  dispatched r = false →
  ∃ location, findHandler (routes env) r = RedirectTo location.
Proof.
  intros Hacc Hd. unfold dispatched in Hd. rewrite Hacc in Hd.
  cbn [andb] in Hd. unfold findHandler. cbv zeta.
  destruct (String.eqb (Method r) "CONNECT").
  - apply negb_false_iff, String.eqb_eq in Hd. rewrite Hd.
    eexists. reflexivity.
  - destruct (mux_cleanPath_prefix (EscapedPath r)) as [t Ht].
    pose proof (matchOrRedirect_routes env t (URL_Path r)) as Hm.
    rewrite <- Ht in Hm. rewrite Hm, Hd.
    eexists. reflexivity.
Qed.

(** ** The five handlers *)

(** Each handler makes the same calls on whatever writer it is given,
    leaves the aggregator as it is, and logs no access line itself. *)
Lemma handler_calls env own (h : HandlerFunc) r p :
  (own, h) ∈ handlers env →
  mutex (metrics p) = Unlocked →
  ∃ cs p1 extra,
    (∀ W (RW : http_ResponseWriter W) (w : W),
       h W RW w r p = Some (calls cs w, p1))
    ∧ metrics p1 = metrics p
    ∧ logged p1 = logged p ++ extra
    ∧ Forall (λ e, isAccessLine e = false) extra
    ∧ (backendCodeValid env r → panics cs = false)
    ∧ (URL_Path r ≠ own → cs = errorCalls "404 page not found" 404 ∧ p1 = p)
    ∧ (URL_Path r = own → own ≠ "/" →
       sentStatus cs = Some 200 ∧ sentBody cs = [okBody env p own]
       ∧ default 200 (last (headerWrites cs)) = 200).
Proof.
  intros Hin Hmu. unfold handlers in Hin.
  assert (∀ q : Process, logged q = logged q ++ []) as Hnil
    by (intros; rewrite app_nil_r; reflexivity).
  destruct (decide (URL_Path r = own)) as [Hp|Hp].
  - repeat (apply elem_of_cons in Hin as [Hin|Hin];
            [injection Hin as -> ->|]); [| | | | |inversion Hin].
    + pose proof (λ W RW w, ForwardToBackend_root env W RW w r p Hp) as Hf.
      destruct (NewRequest_err env (Method r) (backendURL env)) as [err|].
      { eexists _, p, []. split; [exact Hf|].
        repeat split; auto; congruence. }
      destruct (client_Do env (outbound env r)) as [err|resp] eqn:Edo.
      { eexists _, p, []. split; [exact Hf|].
        repeat split; auto; congruence. }
      eexists _, _, _. split; [exact Hf|]. cbn [metrics logged].
      destruct (relayCalls_status resp) as (Hw & Hs & Hpanic).
      split; [reflexivity|]. split; [reflexivity|].
      split; [destruct (copyErr resp); repeat constructor|].
      split.
      { intros Hvalid. rewrite Hpanic, (Hvalid resp Edo). reflexivity. }
      split; [congruence|congruence].
    + exists [ HeaderSet "Content-Type" "text/plain";
               CallWrite (okBody env p "/version") ], p, [].
      split; [intros; unfold VersionHandler; rewrite Hp; reflexivity|].
      repeat split; auto; congruence.
    + exists [ HeaderSet "Content-Type" "application/json";
               CallWrite (okBody env p "/health/live") ], p, [].
      split; [intros; unfold LivenessHandler; rewrite Hp; reflexivity|].
      repeat split; auto; congruence.
    + exists [ HeaderSet "Content-Type" "application/json";
               CallWriteHeader 200;
               CallWrite (okBody env p "/health/ready") ], p, [].
      split; [intros; unfold ReadinessHandler; rewrite Hp; reflexivity|].
      repeat split; auto; congruence.
    + exists [ HeaderSet "Content-Type" "text/plain";
               CallWrite (okBody env p "/metrics") ],
             {| metrics := metrics p; logged := logged p |}, [].
      split.
      { intros. unfold MetricsHandler. rewrite Hp.
        rewrite (GetPrometheusMetrics_unlocked _ _ _ _ Hmu). reflexivity. }
      cbn [metrics logged]. repeat split; auto; congruence.
  - exists (errorCalls "404 page not found" 404), p, [].
    split.
    { intros W RW w.
      repeat (apply elem_of_cons in Hin as [Hin|Hin];
              [injection Hin as -> ->|]); [| | | | |inversion Hin].
      - apply ForwardToBackend_other, Hp.
      - unfold VersionHandler.
        destruct (String.eqb_spec (URL_Path r) "/version");
          [contradiction|reflexivity].
      - unfold LivenessHandler.
        destruct (String.eqb_spec (URL_Path r) "/health/live");
          [contradiction|reflexivity].
      - unfold ReadinessHandler.
        destruct (String.eqb_spec (URL_Path r) "/health/ready");
          [contradiction|reflexivity].
      - unfold MetricsHandler.
        destruct (String.eqb_spec (URL_Path r) "/metrics");
          [contradiction|reflexivity]. }
    repeat split; auto; congruence.
Qed.

(** ** The server: from a request to the response *)

(** A request that the mux hands to a handler is served by the handler of
    its segments behind the middleware. *)
Lemma serve_dispatched env r p :
  dispatched r = true →
  mutex (metrics p) = Unlocked →
  ∃ (h : HandlerFunc) cs p1 extra,
    (routeOf (pathSegments (EscapedPath r)), h) ∈ handlers env
    ∧ (∀ W (RW : http_ResponseWriter W) (w : W),
         h W RW w r p = Some (calls cs w, p1))
    ∧ metrics p1 = metrics p
    ∧ logged p1 = logged p ++ extra
    ∧ Forall (λ e, isAccessLine e = false) extra
    ∧ (backendCodeValid env r → panics cs = false)
    ∧ (URL_Path r ≠ routeOf (pathSegments (EscapedPath r)) →
       cs = errorCalls "404 page not found" 404 ∧ p1 = p)
    ∧ (URL_Path r = routeOf (pathSegments (EscapedPath r)) →
       routeOf (pathSegments (EscapedPath r)) ≠ "/" →
       sentStatus cs = Some 200
       ∧ sentBody cs = [okBody env p (URL_Path r)]
       ∧ default 200 (last (headerWrites cs)) = 200)
    ∧ serve env r p
      = if panics cs then None
        else Some (cs,
              {| metrics :=
                   recordLocked (URL_Path r)
                     (default 200 (last (headerWrites cs)))
                     (elapsed env) (metrics p);
                 logged := logged p ++ extra ++
                   [ AccessLine (RemoteAddr r) (Method r) (URL_Path r)
                                (Proto r)
                                (default 200 (last (headerWrites cs)))
                                (userAgent r) (elapsed env);
                     StdoutLine (RecordRequest_stdout (URL_Path r)) ] |}).
Proof.
  intros Hd Hmu.
  destruct (findHandler_routes env r Hd) as (h & Hin & Hfind).
  destruct (handler_calls env _ h r p Hin Hmu)
    as (cs & p1 & extra & Hh & Hm & Hl & Hex & Hpanic & H404 & Hok).
  exists h, cs, p1, extra.
  do 7 (split; [first [assumption | apply Hh]|]).
  split.
  { intros Hown Hroot. destruct (Hok Hown Hroot) as (H200 & Hbody & Hcode).
    rewrite Hown. auto. }
  unfold serve. destruct (dispatched_slash r Hd) as [-> _]. cbn [negb].
  rewrite Hfind.
  rewrite (AccessLogMiddleware_run env h r p cs p1 (Hh _ _ _))
    by congruence.
  cbn [mbind option_bind]. rewrite Hm, Hl, <- app_assoc. reflexivity.
Qed.

(** Any other request leaves the process as it is: the server refuses it,
    or the mux answers it with a redirect; no handler and no middleware
    runs. *)
Lemma serve_not_dispatched env r p :
  dispatched r = false →
  ∃ w, serve env r p = Some (w, p)
       ∧ (targetAccepted (PathAndQuery r) = false → w = badRequest)
       ∧ (targetAccepted (PathAndQuery r) = true →
          ∃ location, w = redirectCalls env location).
Proof.
  intros Hd. unfold serve.
  destruct (targetAccepted (PathAndQuery r)) eqn:Hacc; cbn [negb].
  - destruct (findHandler_redirect env r Hacc Hd) as [location ->].
    eexists. split; [reflexivity|]. split; [discriminate|eauto].
  - eexists. split; [reflexivity|]. split; [reflexivity|discriminate].
Qed.

Lemma routeOf_served segs : routeOf segs ∈ servedRoutes.
Proof. unfold routeOf, servedRoutes. repeat case_decide; set_solver. Qed.

(** C8, as the code has it: a request that the mux hands to a handler (the
    server accepts its target and the escaped path is in canonical form)
    and whose handler returns (the backend, if asked, answers with a code
    that [WriteHeader] accepts) is answered, and [RecordRequest] is then
    called with the raw path of the request, the status code that the
    wrapper captured and the elapsed time, whichever handler ran; the
    code is 404 whenever the path is not the one the handler owns, in
    particular for every path that is not one of the five registered
    ones; the counter under the key of that raw path grows, and the access
    line carries the same path and code. *)
Theorem middleware_records_raw_path (env : Env) (r : Request)
    (p : Process) :
  dispatched r = true →
  backendCodeValid env r →
  mutex (metrics p) = Unlocked →
  ∃ w p' code,
    serve env r p = Some (w, p')
    ∧ code = default 200 (last (headerWrites w))
    ∧ RecordRequest (URL_Path r) code (elapsed env) (metrics p)
      = Some (metrics p')
    ∧ (URL_Path r ≠ routeOf (pathSegments (EscapedPath r)) → code = 404)
    ∧ (URL_Path r ∉ servedRoutes → code = 404)
    ∧ totalRequests (metrics p') !! cleanPath (URL_Path r)
      = Some (incr64 (default 0 (totalRequests (metrics p)
                                   !! cleanPath (URL_Path r))))
    ∧ AccessLine (RemoteAddr r) (Method r) (URL_Path r) (Proto r) code
                 (userAgent r) (elapsed env) ∈ logged p'.
Proof.
  intros Hd Hvalid Hmu.
  destruct (serve_dispatched env r p Hd Hmu)
    as (h & cs & p1 & extra & _ & _ & _ & _ & _ & Hpanic & H404 & _ & Hserve).
  rewrite (Hpanic Hvalid) in Hserve.
  eexists _, _, _. split; [exact Hserve|]. cbn [metrics logged].
  split; [reflexivity|].
  split; [apply RecordRequest_unlocked, Hmu|].
  assert (URL_Path r ≠ routeOf (pathSegments (EscapedPath r)) →
          default 200 (last (headerWrites cs)) = 404) as Hcode.
  { intros Hne. destruct (H404 Hne) as [-> _]. reflexivity. }
  split; [exact Hcode|]. split.
  { intros Hn. apply Hcode. intros Heq. apply Hn. rewrite Heq.
    apply routeOf_served. }
  split.
  { rewrite recordLocked_total, decide_True by reflexivity. reflexivity. }
  rewrite !elem_of_app. right. right. left.
Qed.

(** A trailing-slash variant of a served route: answered 404 by the
    handler of "/", and counted under its own key. *)
Lemma middleware_records_raw_path_witness :
  ∃ w p',
    serve (envWith true false (backendResponse false))
          (getRequest "/version/") process0 = Some (w, p')
    ∧ sentStatus w = Some 404
    ∧ RecordRequest "/version/" 404 1500000 (NewMetrics 0)
      = Some (metrics p')
    ∧ totalRequests (metrics p') !! "/version/" = Some 1
    ∧ totalRequests (metrics p') !! "/version" = None.
Proof.
  destruct (middleware_records_raw_path
              (envWith true false (backendResponse false))
              (getRequest "/version/") process0 eq_refl
              ltac:(intros resp H; discriminate H) eq_refl)
    as (w & p' & code & Hserve & Hcode & Hrec & _ & H404 & _).
  assert (code = 404) as Hc.
  { apply H404. vm_compute. intros Hin.
    repeat (apply elem_of_cons in Hin as [Hin|Hin]; [discriminate Hin|]).
    inversion Hin. }
  rewrite Hc in Hrec. exists w, p'. split; [exact Hserve|].
  vm_compute in Hserve. injection Hserve as <- <-.
  split; [reflexivity|]. split; [exact Hrec|]. split; reflexivity.
Defined.

(** C8 as the claim has it fails: the mux answers the request for
    [//version] itself, with a redirect to [/version]; no handler and no
    middleware runs, nothing is logged and nothing is recorded. *)
Lemma redirect_not_recorded :
  let env := envWith true true (backendResponse false) in
  serve env (getRequest "//version") process0
  = Some (redirectCalls env "/version", process0)
  ∧ totalRequests (metrics process0) = ∅
  ∧ logged process0 = []
  ∧ ¬ (∃ w p' code,
         serve env (getRequest "//version") process0 = Some (w, p')
         ∧ RecordRequest "//version" code (elapsed env) (metrics process0)
           = Some (metrics p')).
Proof.
  cbv zeta. split; [vm_compute; reflexivity|].
  split; [reflexivity|]. split; [reflexivity|].
  intros (w & p' & code & Hserve & Hrec).
  assert (p' = process0) as ->.
  { vm_compute in Hserve. injection Hserve as _ <-. reflexivity. }
  apply RecordRequest_Some in Hrec as [_ Hrec].
  apply (f_equal (λ m, totalRequests m !! cleanPath "//version")) in Hrec.
  rewrite recordLocked_total, decide_True in Hrec by reflexivity.
  discriminate Hrec.
Qed.

(** ** C1: paths that no route serves *)

(** C1, on the code: [GET /unknown/path] is answered 404, but with the
    plain text of [http.NotFound] and not with the JSON body that
    [NotFoundHandler] would write; [main] registers no route for
    [NotFoundHandler]. *)
Theorem unknown_path_plain_text (env : Env) :
  ∃ w p',
    serve env (getRequest "/unknown/path") process0 = Some (w, p')
    ∧ sentStatus w = Some 404
    ∧ sentBody w = [Bytes ("404 page not found" +:+ newline)]
    ∧ sentBody w ≠ [Bytes (notFoundJSON "/unknown/path")]
    ∧ (∃ w' p'',
         NotFoundHandler response _ [] (getRequest "/unknown/path") process0
         = Some (w', p'')
         ∧ sentStatus w' = Some 404
         ∧ sentBody w' = [Bytes (notFoundJSON "/unknown/path")]).
Proof.
  destruct (serve_dispatched env (getRequest "/unknown/path") process0)
    as (h & cs & p1 & extra & _ & _ & _ & _ & _ & _ & H404 & _ & Hserve);
    [vm_compute; reflexivity|reflexivity|].
  destruct H404 as [-> _]; [vm_compute; discriminate|].
  change (panics (errorCalls "404 page not found" 404)) with false in Hserve.
  eexists _, _. split; [exact Hserve|]. split; [reflexivity|].
  split; [reflexivity|]. split; [discriminate|].
  eexists _, _. split; [reflexivity|]. split; reflexivity.
Qed.

(** ** Runs on concrete inputs *)

Example serve_version :
  fst <$> serve (envWith true true (backendResponse false))
                (getRequest "/version") process0
  = Some [ HeaderSet "Content-Type" "text/plain";
           CallWrite (Bytes ("Version: 1.0.0" +:+ newline)) ].
Proof. vm_compute. reflexivity. Qed.

Example serve_ready :
  (λ wp, (sentStatus wp.1, sentBody wp.1))
  <$> serve (envWith true true (backendResponse false))
            (getRequest "/health/ready") process0
  = Some (Some 200,
          [Bytes ("{" +:+ quoted "status" +:+ ":" +:+ quoted "UP" +:+ ","
                  +:+ quoted "backend" +:+ ":"
                  +:+ quoted "http://localhost:8080/version" +:+ "}")]).
Proof. vm_compute. reflexivity. Qed.

Example serve_backend_down :
  (λ wp, sentStatus wp.1)
  <$> serve (envWith true false (backendResponse false))
            (getRequest "/") process0
  = Some (Some 503).
Proof. vm_compute. reflexivity. Qed.

Example serve_relays_backend :
  fst <$> serve (envWith true true (backendResponse false))
                (getRequest "/") process0
  = Some [ HeaderAdd "X-Backend" "a"; HeaderAdd "X-Backend" "b";
           CallWriteHeader 201;
           CallWrite (Bytes "he"); CallWrite (Bytes "llo") ].
Proof. vm_compute. reflexivity. Qed.

(** 1.5 ms fall into every bucket; the sum is a float64. *)
Example Seconds_bucket :
  Seconds 1500000 = 0.0015%float
  ∧ countLe 0.005 [Seconds 1500000] = 1
  ∧ countLe 0.005 [Seconds 7000000] = 0.
Proof. vm_compute. repeat split. Qed.

(** The sum of a histogram is a float64 sum: a nanosecond added to nine
    billion seconds is rounded away. *)
Example sum_is_float64 :
  PrimFloat.add (Seconds 9000000000000000000) (Seconds 1)
  = Seconds 9000000000000000000.
Proof. vm_compute. reflexivity. Qed.

(** Requests of 100 ms and of 200 ms: the sum is rounded, and is not the
    float64 nearest to 0.3. *)
Example sum_of_tenths :
  (histogram [Seconds 100000000; Seconds 200000000]).2
  = 0.30000000000000004%float
  ∧ PrimFloat.eqb 0.30000000000000004 0.3 = false.
Proof. vm_compute. split; reflexivity. Qed.

(** ** The order of float64 *)

Lemma SFleb_trans x y z :
  SpecFloat.SFleb x y = true → SpecFloat.SFleb y z = true →
  SpecFloat.SFleb x z = true.
Proof.
  unfold SpecFloat.SFleb.
  destruct x as [[]|[]| |[] m1 e1], y as [[]|[]| |[] m2 e2],
           z as [[]|[]| |[] m3 e3];
    cbn; try discriminate; try reflexivity;
    rewrite ?Pos.compare_cont_spec; cbn;
    destruct (Z.compare_spec e1 e2), (Z.compare_spec e2 e3),
             (Z.compare_spec e1 e3);
    try lia; cbn; try discriminate; try reflexivity;
    destruct (Pos.compare_spec m1 m2), (Pos.compare_spec m2 m3),
             (Pos.compare_spec m1 m3);
    cbn; try discriminate; try reflexivity; lia.
Qed.

Lemma leb_trans x y z :
  PrimFloat.leb x y = true → PrimFloat.leb y z = true →
  PrimFloat.leb x z = true.
Proof. rewrite !FloatAxioms.leb_spec. apply SFleb_trans. Qed.

(** * Further properties *)

(** ** The space of keys *)

Lemma prefix_underscore c t :
  String.prefix "_" (String c t) = (byteZ c =? 95).
Proof.
  cbn [String.prefix].
  destruct (Z.eqb_spec (byteZ c) 95) as [He|Hne].
  - assert (c = "_"%char) as ->.
    { rewrite <- (byte_of_Z_byteZ c), He. reflexivity. }
    destruct t; reflexivity.
  - destruct (Ascii.ascii_dec "_"%char c) as [<-|Hc].
    + exfalso. apply Hne. reflexivity.
    + destruct (Ascii.eqb_spec "_"%char c); [contradiction|reflexivity].
Qed.

Lemma isKey_cleanPath p : isKey (cleanPath p) = true.
Proof.
  destruct (cleanPath_shape p) as [Hall (c & t & Heq & Hne)].
  unfold isKey. rewrite Hall, Heq, prefix_underscore.
  destruct (Z.eqb_spec (byteZ c) 95); [contradiction|reflexivity].
Qed.

Lemma isKey_fixed k : isKey k = true → cleanPath k = k.
Proof.
  unfold isKey. intros [Hall Hneg]%andb_prop.
  rewrite cleanPath_cases, (mapped_key k Hall).
  apply negb_true_iff in Hneg. rewrite Hneg. reflexivity.
Qed.

(** X1: The keys of the aggregator are exactly the strings that are not
    empty, do not begin with '_' and are made of letters, digits, '/' and
    '_'; on these strings, and on no others, the normalisation changes
    nothing. *)
Theorem cleanPath_image (k : string) :
  ((∃ p, cleanPath p = k) ↔ isKey k = true)
  ∧ (cleanPath k = k ↔ isKey k = true).
Proof.
  split; split.
  - intros [p <-]. apply isKey_cleanPath.
  - intros Hk. exists k. apply isKey_fixed, Hk.
  - intros <-. apply isKey_cleanPath.
  - apply isKey_fixed.
Qed.

Lemma mapped_ascii_cons c t :
  byteZ c < 128 →
  mapped (String c t) = String (byte_of_Z (cleanRune (byteZ c))) (mapped t).
Proof.
  intros Hc. unfold mapped, strings_Map. cbn [MapFrom].
  rewrite Decode_ascii by exact Hc. rewrite emit_cleanRune. reflexivity.
Qed.

Lemma RecordRequest_key p1 p2 c d m :
  cleanPath p1 = cleanPath p2 →
  RecordRequest p1 c d m = RecordRequest p2 c d m.
Proof.
  intros H. unfold RecordRequest, recordLocked. rewrite H. reflexivity.
Qed.

(** X2: The normalisation is not injective: a raw path that begins with an
    ASCII byte other than a letter, a digit or '/' has the key of the raw
    path that begins with "root_" instead, and [RecordRequest] cannot
    tell the two apart. *)
Theorem cleanPath_collision (c : ascii) (t : string) :
  byteZ c < 128 →
  letterDigitSlash (byteZ c) = false →
  cleanPath (String c t) = "root_" +:+ mapped t
  ∧ cleanPath ("root_" +:+ t) = "root_" +:+ mapped t
  ∧ ∀ code d m,
      RecordRequest (String c t) code d m
      = RecordRequest ("root_" +:+ t) code d m.
Proof.
  intros Hc Hrune.
  assert (cleanPath (String c t) = "root_" +:+ mapped t) as H1.
  { unfold cleanPath. rewrite (mapped_ascii_cons c t Hc).
    rewrite cleanRune_cases, Hrune. reflexivity. }
  assert (cleanPath ("root_" +:+ t) = "root_" +:+ mapped t) as H2.
  { unfold cleanPath.
    change ("root_" +:+ t)
      with (String "r" (String "o" (String "o" (String "t" (String "_" t))))).
    rewrite !mapped_ascii_cons by (vm_compute; reflexivity). reflexivity. }
  split; [exact H1|]. split; [exact H2|].
  intros code d m. apply RecordRequest_key. rewrite H1, H2. reflexivity.
Qed.

Lemma cleanPath_collision_witness :
  cleanPath "-x" = "root_x" ∧ cleanPath "root_x" = "root_x".
Proof.
  destruct (cleanPath_collision "-"%char "x") as (H1 & H2 & _).
  - vm_compute. reflexivity.
  - vm_compute. reflexivity.
  - split; [exact H1|exact H2].
Defined.

Lemma length_string_of_bytes l :
  String.length (string_of_bytes l) = length l.
Proof. induction l as [|b l IH]; [reflexivity|]. cbn. rewrite IH. reflexivity. Qed.

Lemma length_runesFrom skip s :
  (length (runesFrom skip s) ≤ String.length s)%nat.
Proof.
  revert skip. induction s as [|c t IH]; intros skip; [cbn; lia|].
  destruct skip as [|k]; cbn [runesFrom String.length].
  - destruct (DecodeRuneInString (String c t)) as [r w].
    cbn [length]. specialize (IH (w - 1)%nat). lia.
  - specialize (IH k). lia.
Qed.

(** X3: A key has one byte for each rune of the raw path, and at most four
    bytes more than the raw path has bytes. *)
Theorem cleanPath_length (p : string) :
  String.length (mapped p) = length (runes p)
  ∧ (String.length (cleanPath p) ≤ String.length p + 4)%nat.
Proof.
  assert (String.length (mapped p) = length (runes p)) as Hm.
  { unfold mapped, strings_Map, runes.
    rewrite MapFrom_runes, length_string_of_bytes, length_map.
    reflexivity. }
  split; [exact Hm|].
  pose proof (length_runesFrom 0 p) as Hle. fold (runes p) in Hle.
  rewrite cleanPath_cases.
  destruct (String.eqb (mapped p) EmptyString || String.prefix "_" (mapped p)).
  - change (String.length ("root" +:+ mapped p))
      with (4 + String.length (mapped p))%nat. lia.
  - lia.
Qed.

(** ** The aggregator after a run of calls *)

Lemma recordAll_snoc log e m :
  recordAll (log ++ [e]) m
  = recordAll log m ≫= RecordRequest e.1.1 e.1.2 e.2.
Proof.
  revert m. induction log as [|[[p c] d] log IH]; intros m.
  - destruct e as [[p c] d]. cbn.
    destruct (RecordRequest p c d m); reflexivity.
  - cbn [app recordAll].
    destruct (RecordRequest p c d m) as [m'|]; [|reflexivity].
    cbn [mbind option_bind]. apply IH.
Qed.

Lemma hits_snoc k log e :
  hits k (log ++ [e])
  = hits k log ++ (if decide (cleanPath e.1.1 = k) then [e] else []).
Proof.
  unfold hits. rewrite filter_app, filter_cons, filter_nil. reflexivity.
Qed.

Lemma hits_length k log : (length (hits k log) ≤ length log)%nat.
Proof. apply length_filter. Qed.

Lemma status_read (sc : gmap string (gmap Z Z)) k c :
  default 0 (sc !! k ≫= (.!! c)) = default 0 (default ∅ (sc !! k) !! c).
Proof.
  destruct (sc !! k) as [codes|]; cbn; [reflexivity|].
  rewrite lookup_empty. reflexivity.
Qed.

Lemma recordAll_state log start :
  ∃ m,
    recordAll log (NewMetrics start) = Some m
    ∧ mutex m = Unlocked
    ∧ ∀ k,
        default [] (requestDurations m !! k)
        = map (λ e, Seconds e.2) (hits k log)
        ∧ (Z.of_nat (length log) <= MaxInt64 →
           default 0 (totalRequests m !! k) = Z.of_nat (length (hits k log))
           ∧ ∀ c, default 0 (statusCodes m !! k ≫= (.!! c))
                  = Z.of_nat (length (filter (λ e, e.1.2 = c) (hits k log)))).
Proof.
  induction log as [|[[p c0] d] log IH] using rev_ind.
  - exists (NewMetrics start). split; [reflexivity|]. split; [reflexivity|].
    intros k. cbn. rewrite !lookup_empty. cbn. auto.
  - destruct IH as (m & Hrun & Hmu & Hm).
    exists (recordLocked p c0 d m).
    split; [rewrite recordAll_snoc, Hrun; apply RecordRequest_unlocked, Hmu|].
    split; [exact Hmu|]. intros k.
    destruct (Hm k) as [Hds Hcnt].
    rewrite recordLocked_durations, recordLocked_total, recordLocked_status,
      hits_snoc.
    cbn [fst snd]. rewrite (length_app log), Nat2Z.inj_add. cbn [length].
    pose proof (hits_length k log) as Hle.
    case_decide as Hk.
    + cbn [from_option id]. split.
      * rewrite Hds, map_app. reflexivity.
      * intros Hlen. destruct Hcnt as [Ht Hs]; [lia|].
        rewrite length_app, Nat2Z.inj_add. cbn [length].
        split; [rewrite Ht, incr64_small; lia|].
        intros c. cbn [mbind option_bind]. rewrite lookup_insert.
        rewrite filter_app, length_app, Nat2Z.inj_add.
        rewrite filter_cons, filter_nil. cbn [fst snd].
        specialize (Hs c). rewrite status_read in Hs.
        pose proof (length_filter (λ e : string * Z * Z, e.1.2 = c)
                                  (hits k log)) as Hf.
        case_decide as Hc.
        -- subst c0. cbn [from_option id length]. rewrite Hs.
           rewrite incr64_small; lia.
        -- cbn [length]. rewrite Hs. lia.
    + rewrite app_nil_r. split; [exact Hds|].
      intros Hlen. apply Hcnt. lia.
Qed.

(** X4: After any run of [RecordRequest] calls on a new aggregator (at most
    [MaxInt64] of them), every call has returned, and for every key the
    total counter is the number of calls whose path has that key, the
    counter of a status code the number of those with that code, and the
    durations are theirs, in seconds and in the order of the calls. *)
Theorem recordAll_counts (log : list (string * Z * Z)) (start : Z) :
  Z.of_nat (length log) <= MaxInt64 →
  ∃ m,
    recordAll log (NewMetrics start) = Some m
    ∧ ∀ k,
        default 0 (totalRequests m !! k) = Z.of_nat (length (hits k log))
        ∧ (∀ c, default 0 (statusCodes m !! k ≫= (.!! c))
                = Z.of_nat (length (filter (λ e, e.1.2 = c) (hits k log))))
        ∧ default [] (requestDurations m !! k)
          = map (λ e, Seconds e.2) (hits k log).
Proof.
  intros Hlen. destruct (recordAll_state log start) as (m & Hrun & _ & Hm).
  exists m. split; [exact Hrun|]. intros k.
  destruct (Hm k) as [Hds Hcnt]. destruct (Hcnt Hlen) as [Ht Hs]. auto.
Qed.

Lemma recordAll_counts_witness :
  ∃ m,
    recordAll [("/a", 200, 5); ("/b", 404, 7); ("/a?x", 200, 9);
               ("/a", 500, 11)] (NewMetrics 0) = Some m
    ∧ default 0 (totalRequests m !! "/a") = 2
    ∧ default 0 (statusCodes m !! "/a" ≫= (.!! 500)) = 1
    ∧ default [] (requestDurations m !! "/a") = [Seconds 5; Seconds 11].
Proof.
  destruct (recordAll_counts
              [("/a", 200, 5); ("/b", 404, 7); ("/a?x", 200, 9);
               ("/a", 500, 11)] 0) as (m & Hrun & Hm).
  - vm_compute. discriminate.
  - exists m. split; [exact Hrun|].
    destruct (Hm "/a") as (Ht & Hs & Hd).
    rewrite Ht, (Hs 500), Hd. repeat split.
Defined.

Lemma Metrics_eq (a b : Metrics) :
  mutex a = mutex b →
  totalRequests a = totalRequests b →
  statusCodes a = statusCodes b →
  requestDurations a = requestDurations b →
  appStartTimestamp a = appStartTimestamp b →
  a = b.
Proof. destruct a, b. cbn. intros; subst; reflexivity. Qed.

Lemma recordLocked_commute p1 c1 d1 p2 c2 d2 m :
  cleanPath p1 ≠ cleanPath p2 →
  recordLocked p2 c2 d2 (recordLocked p1 c1 d1 m)
  = recordLocked p1 c1 d1 (recordLocked p2 c2 d2 m).
Proof.
  intros Hne. apply Metrics_eq; try reflexivity; apply map_eq; intros k.
  - rewrite !recordLocked_total.
    repeat case_decide; subst; try congruence; reflexivity.
  - rewrite !recordLocked_status.
    repeat case_decide; subst; try congruence; reflexivity.
  - rewrite !recordLocked_durations.
    repeat case_decide; subst; try congruence; reflexivity.
Qed.

(** X5: Two calls of [RecordRequest] whose paths have different keys can be
    made in either order: both orders return, with the same state. *)
Theorem RecordRequest_commute (p1 p2 : string) (c1 d1 c2 d2 : Z)
    (m : Metrics) :
  cleanPath p1 ≠ cleanPath p2 →
  mutex m = Unlocked →
  ∃ m',
    RecordRequest p1 c1 d1 m ≫= RecordRequest p2 c2 d2 = Some m'
    ∧ RecordRequest p2 c2 d2 m ≫= RecordRequest p1 c1 d1 = Some m'.
Proof.
  intros Hne Hmu. exists (recordLocked p2 c2 d2 (recordLocked p1 c1 d1 m)).
  rewrite !(RecordRequest_unlocked _ _ _ m Hmu). cbn [mbind option_bind].
  rewrite !RecordRequest_unlocked by exact Hmu.
  split; [reflexivity|].
  rewrite (recordLocked_commute p1 c1 d1 p2 c2 d2 m Hne). reflexivity.
Qed.

Lemma RecordRequest_commute_witness :
  RecordRequest "/a" 200 5 (NewMetrics 0) ≫= RecordRequest "/b" 404 7
  = RecordRequest "/b" 404 7 (NewMetrics 0) ≫= RecordRequest "/a" 200 5.
Proof.
  destruct (RecordRequest_commute "/a" "/b" 200 5 404 7 (NewMetrics 0))
    as (m' & H1 & H2).
  - vm_compute. discriminate.
  - reflexivity.
  - rewrite H1, H2. reflexivity.
Defined.

(** X6: [RecordRequest] returns exactly when the lock is free, and leaves
    it free.  [GetPrometheusMetrics] returns exactly when no writer holds
    the lock and none waits for it, other readers or not, and leaves the
    aggregator, the reader count of the lock included, as it found it;
    once a writer waits behind the readers, it does not return. *)
Theorem lock_discipline (m : Metrics) (p : string) (c d : Z)
    (o : RangeOrder) (v : string) (now : Z) :
  (is_Some (RecordRequest p c d m) ↔ mutex m = Unlocked)
  ∧ (∀ m', RecordRequest p c d m = Some m' → mutex m' = Unlocked)
  ∧ (is_Some (GetPrometheusMetrics o v now m)
     ↔ mutex m = Unlocked ∨ ∃ n, mutex m = ReadLocked n false)
  ∧ (∀ out m', GetPrometheusMetrics o v now m = Some (out, m') → m' = m)
  ∧ (mutex m ≠ Unlocked →
     GetPrometheusMetrics o v now (withMutex (LockWaiting (mutex m)) m)
     = None).
Proof.
  split; [|split; [|split; [|split]]].
  - split.
    + intros [m' H]. apply RecordRequest_Some in H as [H _]. exact H.
    + intros H. rewrite (RecordRequest_unlocked _ _ _ _ H). eauto.
  - intros m' H. apply RecordRequest_Some in H as [Hmu ->]. exact Hmu.
  - destruct m as [[| |n [|]] tr sc rd t]; cbn [mutex].
    + split; [intros _; left; reflexivity|intros _; eexists; reflexivity].
    + split; [intros [x Hx]; discriminate Hx|].
      intros [H|[n H]]; discriminate H.
    + split; [intros [x Hx]; discriminate Hx|].
      intros [H|[n' H]]; discriminate H.
    + split; [intros _; right; eauto|intros _; eexists; reflexivity].
  - intros out m' H. apply GetPrometheusMetrics_Some in H as [H _]. exact H.
  - destruct m as [[| |n w] tr sc rd t]; cbn [mutex]; intros H;
      [contradiction|reflexivity|reflexivity].
Qed.

(** A reader is at work and a writer waits: a second reader does not pass. *)
Lemma lock_discipline_witness :
  GetPrometheusMetrics mapOrder "1.0.0" 9
    (withMutex (ReadLocked 0 true) (NewMetrics 7)) = None.
Proof.
  exact (proj2 (proj2 (proj2 (proj2
           (lock_discipline (withMutex (ReadLocked 0 false) (NewMetrics 7))
              "/a" 200 5 mapOrder "1.0.0" 9)))) ltac:(discriminate)).
Defined.

(** ** The paths that a text mentions *)

Lemma range_elem (o : RangeOrder) {V} (m : gmap string V) k x :
  (k, x) ∈ range o m → m !! k = Some x.
Proof.
  intros H. rewrite (range_perm o V m) in H.
  apply elem_of_map_to_list in H. exact H.
Qed.

Lemma elem_of_flat_map {A B} (f : A → list B) (l : list A) (y : B) :
  y ∈ flat_map f l ↔ ∃ x, x ∈ l ∧ y ∈ f x.
Proof.
  rewrite list_elem_of_In, in_flat_map. split.
  - intros (x & Hx & Hy). exists x. rewrite !list_elem_of_In. auto.
  - intros (x & Hx & Hy). exists x. rewrite <- !list_elem_of_In. auto.
Qed.

Lemma histogramBlock_path p ds l :
  l ∈ histogramBlock p ds → linePath l = Some p.
Proof.
  destruct (histogramBlock_shape p ds) as (front & -> & Hfront).
  rewrite elem_of_app. intros [H|H].
  - rewrite Forall_forall in Hfront.
    destruct (Hfront l H) as (b & n & ->). reflexivity.
  - repeat (apply elem_of_cons in H as [->|H]; [reflexivity|]).
    inversion H.
Qed.

Lemma exposition_paths o v now m l k :
  l ∈ exposition o v now m →
  linePath l = Some k →
  is_Some (totalRequests m !! k) ∨ is_Some (statusCodes m !! k)
  ∨ is_Some (requestDurations m !! k).
Proof.
  unfold exposition. rewrite !elem_of_app.
  intros [H|[H|[H|[H|[H|H]]]]] Hk.
  - repeat (apply elem_of_cons in H as [->|H]; [discriminate Hk|]).
    inversion H.
  - apply list_elem_of_fmap in H as ([p n] & -> & H).
    injection Hk as <-. left. apply range_elem in H. eauto.
  - repeat (apply elem_of_cons in H as [->|H]; [discriminate Hk|]).
    inversion H.
  - apply elem_of_flat_map in H as ([p codes] & Hp & H).
    apply list_elem_of_fmap in H as ([c n] & -> & _).
    injection Hk as <-. right. left. apply range_elem in Hp. eauto.
  - repeat (apply elem_of_cons in H as [->|H]; [discriminate Hk|]).
    inversion H.
  - apply elem_of_flat_map in H as ([p ds] & Hp & H).
    apply histogramBlock_path in H. rewrite H in Hk. injection Hk as <-.
    right. right. apply range_elem in Hp. eauto.
Qed.

Lemma reachableFrom_isKey start m :
  reachableFrom start m →
  ∀ k, is_Some (totalRequests m !! k) → isKey k = true.
Proof.
  induction 1 as [|m p c d m' _ IH H|m o v now out m' _ IH H]; intros k.
  - cbn. rewrite lookup_empty. intros [x Hx]. discriminate.
  - apply RecordRequest_Some in H as [_ ->]. rewrite recordLocked_total.
    case_decide as Hk; [|apply IH]. subst k. intros _. apply isKey_cleanPath.
  - apply GetPrometheusMetrics_Some in H as [-> _]. apply IH.
Qed.

Lemma reachableFrom_any_key start m k :
  reachableFrom start m →
  is_Some (totalRequests m !! k) ∨ is_Some (statusCodes m !! k)
  ∨ is_Some (requestDurations m !! k) →
  is_Some (totalRequests m !! k).
Proof.
  intros Hr. destruct (reachableFrom_keys _ _ Hr k) as [[_ H1] [_ H2]].
  intros [H|[H|H]]; auto.
Qed.

(** X7: In every state of a run the keys of the three maps are normalised
    keys, and so is every [path] label in the text of
    [GetPrometheusMetrics]: the labels hold letters, digits, '/' and '_'
    only, and nothing that the text format would need to escape. *)
Theorem labels_are_keys (start : Z) (m : Metrics) (o : RangeOrder)
    (v : string) (now : Z) :
  reachableFrom start m →
  (∀ k, is_Some (totalRequests m !! k) ∨ is_Some (statusCodes m !! k)
        ∨ is_Some (requestDurations m !! k) → isKey k = true)
  ∧ ∃ out,
      GetPrometheusMetrics o v now m = Some (out, m)
      ∧ Forall (λ l, ∀ k, linePath l = Some k → isKey k = true) out.
Proof.
  intros Hr.
  assert (∀ k, is_Some (totalRequests m !! k) ∨ is_Some (statusCodes m !! k)
               ∨ is_Some (requestDurations m !! k) → isKey k = true) as Hkeys.
  { intros k Hk. apply (reachableFrom_isKey _ _ Hr).
    apply (reachableFrom_any_key _ _ _ Hr Hk). }
  split; [exact Hkeys|]. exists (exposition o v now m).
  split; [apply GetPrometheusMetrics_unlocked, (reachableFrom_unlocked _ _ Hr)|].
  apply Forall_forall. intros l Hl k Hk.
  apply Hkeys, (exposition_paths o v now m l k Hl Hk).
Qed.

Lemma labels_are_keys_witness :
  ∃ m, RecordRequest "/a b" 200 5 (NewMetrics 0) = Some m
       ∧ is_Some (totalRequests m !! "/a_b")
       ∧ isKey "/a_b" = true.
Proof.
  exists (recordLocked "/a b" 200 5 (NewMetrics 0)).
  split; [reflexivity|]. split; [vm_compute; eauto|].
  refine (proj1 (labels_are_keys 0 _ mapOrder "1.0.0" 9 _) "/a_b" _).
  - exact (reach_record 0 _ "/a b" 200 5 _ (reach_new 0) eq_refl).
  - left. vm_compute. eauto.
Defined.

(** X8: A key that was never recorded appears on no line of the text. *)
Theorem unrecorded_path_absent (start : Z) (m : Metrics) (k : string)
    (o : RangeOrder) (v : string) (now : Z) :
  reachableFrom start m →
  totalRequests m !! k = None →
  ∃ out,
    GetPrometheusMetrics o v now m = Some (out, m)
    ∧ Forall (λ l, linePath l ≠ Some k) out.
Proof.
  intros Hr Hk. exists (exposition o v now m).
  split; [apply GetPrometheusMetrics_unlocked, (reachableFrom_unlocked _ _ Hr)|].
  apply Forall_forall. intros l Hl Hp.
  pose proof (exposition_paths o v now m l k Hl Hp) as Hany.
  apply (reachableFrom_any_key _ _ _ Hr) in Hany.
  rewrite Hk in Hany. destruct Hany as [x Hx]. discriminate.
Qed.

Lemma unrecorded_path_absent_witness :
  ∃ out,
    GetPrometheusMetrics mapOrder "1.0.0" 9 (NewMetrics 0)
    = Some (out, NewMetrics 0)
    ∧ Forall (λ l, linePath l ≠ Some "/a") out.
Proof.
  exact (unrecorded_path_absent 0 (NewMetrics 0) "/a" mapOrder "1.0.0" 9
           (reach_new 0) eq_refl).
Defined.

(** ** No series twice *)

Lemma omap_flat_map {A B C} (f : B → option C) (g : A → list B)
    (l : list A) :
  omap f (flat_map g l) = flat_map (λ x, omap f (g x)) l.
Proof.
  induction l as [|x l IH]; [reflexivity|].
  cbn [flat_map]. rewrite omap_app, IH. reflexivity.
Qed.

Lemma NoDup_flat_map_keyed {A C} (key : C → string) (kx : A → string)
    (f : A → list C) (l : list A) :
  (∀ x c, c ∈ f x → key c = kx x) →
  NoDup (kx <$> l) →
  (∀ x, x ∈ l → NoDup (f x)) →
  NoDup (flat_map f l).
Proof.
  intros Hkey. induction l as [|x l IH]; intros Hnd Hin; [constructor|].
  cbn [flat_map]. cbn [fmap list_fmap] in Hnd.
  apply NoDup_cons in Hnd as [Hx Hnd]. apply NoDup_app.
  split; [apply Hin; left|]. split.
  - intros c Hc Hc'. apply elem_of_flat_map in Hc' as (y & Hy & Hcy).
    apply Hx. rewrite <- (Hkey x c Hc), (Hkey y c Hcy).
    apply list_elem_of_fmap_2, Hy.
  - apply IH; [exact Hnd|]. intros y Hy. apply Hin. right. exact Hy.
Qed.

Lemma omap_series_buckets p (g : nat → Z) (l : list float) :
  omap seriesOf (imap (λ i b, DurationBucket p (Le b) (g i)) l)
  = map (λ b, SBucket p (Le b)) l.
Proof.
  revert g. induction l as [|b l IH]; intros g; [reflexivity|].
  rewrite imap_cons. cbn [omap list_omap seriesOf map]. f_equal.
  apply (IH (g ∘ S)).
Qed.

Lemma histogramBlock_series p ds :
  omap seriesOf (histogramBlock p ds) = blockSeries p.
Proof.
  unfold histogramBlock, blockSeries. destruct (histogram ds) as [bc sum].
  rewrite omap_app.
  rewrite (omap_series_buckets p (λ i, default 0 (bc !! i)) buckets).
  reflexivity.
Qed.

Lemma buckets_NoDup : NoDup buckets.
Proof.
  apply (NoDup_fmap_1 (λ b, map (PrimFloat.leb b) buckets)).
  apply (bool_decide_unpack _). vm_compute. exact I.
Qed.

Lemma blockSeries_NoDup p : NoDup (blockSeries p).
Proof.
  unfold blockSeries. apply NoDup_app. split; [|split].
  - apply NoDup_fmap_2; [|exact buckets_NoDup].
    intros a b H. injection H as H. exact H.
  - intros x Hx Hx'. apply list_elem_of_fmap in Hx as (b & -> & _).
    repeat (apply elem_of_cons in Hx' as [Hx'|Hx']; [discriminate Hx'|]).
    inversion Hx'.
  - repeat (apply NoDup_cons; split;
            [intros H; repeat (apply elem_of_cons in H as [H|H];
                               [discriminate H|]); inversion H|]).
    constructor.
Qed.

Lemma exposition_series o v now m :
  omap seriesOf (exposition o v now m)
  = [SAppInfo v; SUptime]
    ++ (STotal <$> (range o (totalRequests m)).*1)
    ++ flat_map (λ x : string * gmap Z Z,
                   SStatus x.1 <$> (rangeCodes o x.2).*1)
                (range o (statusCodes m))
    ++ flat_map (λ x : string * list float, blockSeries x.1)
                (range o (requestDurations m)).
Proof.
  unfold exposition. rewrite !omap_app, !omap_flat_map.
  cbn [omap list_omap seriesOf app]. f_equal. f_equal. f_equal.
  - induction (range o (totalRequests m)) as [|[p n] l IH]; [reflexivity|].
    cbn [omap list_omap map fmap list_fmap seriesOf fst]. f_equal. exact IH.
  - f_equal.
    + induction (range o (statusCodes m)) as [|[p codes] l IH];
        [reflexivity|].
      cbn [flat_map fst snd]. f_equal; [|exact IH].
      induction (rangeCodes o codes) as [|[c n] l' IH']; [reflexivity|].
      cbn [omap list_omap map fmap list_fmap seriesOf fst]. f_equal.
      exact IH'.
    + induction (range o (requestDurations m)) as [|[p ds] l IH];
        [reflexivity|].
      cbn [flat_map fst]. rewrite histogramBlock_series. f_equal. exact IH.
Qed.

(** X9: In any state and for any order of the [range] loops, no two lines of
    the text of [GetPrometheusMetrics] carry the same metric name with the
    same labels. *)
Theorem exposition_no_duplicate_series (o : RangeOrder) (v : string)
    (now : Z) (m : Metrics) :
  NoDup (omap seriesOf (exposition o v now m)).
Proof.
  rewrite exposition_series.
  assert (NoDup (STotal <$> (range o (totalRequests m)).*1)) as H1.
  { apply NoDup_fmap_2; [|apply range_NoDup].
    intros a b H. injection H as H. exact H. }
  assert (NoDup (flat_map (λ x : string * gmap Z Z,
                             SStatus x.1 <$> (rangeCodes o x.2).*1)
                          (range o (statusCodes m)))) as H2.
  { apply (NoDup_flat_map_keyed seriesPath fst).
    - intros x c Hc. apply list_elem_of_fmap in Hc as (c' & -> & _).
      reflexivity.
    - apply range_NoDup.
    - intros x _. apply NoDup_fmap_2.
      + intros a b H. injection H as H. exact H.
      + rewrite (rangeCodes_perm o x.2). apply NoDup_fst_map_to_list. }
  assert (NoDup (flat_map (λ x : string * list float, blockSeries x.1)
                          (range o (requestDurations m)))) as H3.
  { apply (NoDup_flat_map_keyed seriesPath fst).
    - intros x c Hc. unfold blockSeries in Hc.
      apply elem_of_app in Hc as [Hc|Hc].
      + apply list_elem_of_fmap in Hc as (b & -> & _). reflexivity.
      + repeat (apply elem_of_cons in Hc as [->|Hc]; [reflexivity|]).
        inversion Hc.
    - apply range_NoDup.
    - intros x _. apply blockSeries_NoDup. }
  assert (∀ x, x ∈ flat_map (λ x : string * gmap Z Z,
                               SStatus x.1 <$> (rangeCodes o x.2).*1)
                            (range o (statusCodes m)) →
               ∃ p c, x = SStatus p c) as Hst.
  { intros x Hx. apply elem_of_flat_map in Hx as (y & _ & Hx).
    apply list_elem_of_fmap in Hx as (c & -> & _). eauto. }
  assert (∀ x, x ∈ flat_map (λ x : string * list float, blockSeries x.1)
                            (range o (requestDurations m)) →
               ∃ p, x ∈ blockSeries p) as Hbl.
  { intros x Hx. apply elem_of_flat_map in Hx as (y & _ & Hx). eauto. }
  assert (∀ p x, x ∈ blockSeries p →
                 (∃ b, x = SBucket p b) ∨ x = SSum p ∨ x = SCount p) as Hbs.
  { intros p x Hx. unfold blockSeries in Hx.
    apply elem_of_app in Hx as [Hx|Hx].
    - apply list_elem_of_fmap in Hx as (b & -> & _). eauto.
    - repeat (apply elem_of_cons in Hx as [->|Hx]; [eauto|]). inversion Hx. }
  apply NoDup_app. split; [|split].
  - repeat constructor; rewrite ?elem_of_cons, ?elem_of_nil;
      intros H; decompose [or] H; discriminate || contradiction.
  - intros x Hx Hx'.
    assert (x = SAppInfo v ∨ x = SUptime) as Hx0.
    { repeat (apply elem_of_cons in Hx as [->|Hx]; [auto|]). inversion Hx. }
    rewrite !elem_of_app in Hx'. destruct Hx' as [H|[H|H]].
    + apply list_elem_of_fmap in H as (p & -> & _).
      destruct Hx0; discriminate.
    + apply Hst in H as (p & c & ->). destruct Hx0; discriminate.
    + apply Hbl in H as (p & H). apply Hbs in H as [[b ->]|[->| ->]];
        destruct Hx0; discriminate.
  - apply NoDup_app. split; [exact H1|]. split.
    + intros x Hx Hx'. apply list_elem_of_fmap in Hx as (p & -> & _).
      rewrite elem_of_app in Hx'. destruct Hx' as [H|H].
      * apply Hst in H as (p' & c & H). discriminate.
      * apply Hbl in H as (p' & H). apply Hbs in H as [[b H]|[H|H]];
          discriminate.
    + apply NoDup_app. split; [exact H2|]. split; [|exact H3].
      intros x Hx Hx'. apply Hst in Hx as (p & c & ->).
      apply Hbl in Hx' as (p' & H). apply Hbs in H as [[b H]|[H|H]];
        discriminate.
Qed.

(** ** The buckets are cumulative *)

Lemma countLe_mono b b' ds :
  PrimFloat.leb b b' = true → countLe b ds <= countLe b' ds.
Proof.
  intros Hb. unfold countLe. apply inj_le.
  induction ds as [|d ds IH]; [reflexivity|].
  rewrite !filter_cons. repeat case_decide; cbn [length]; try lia.
  exfalso. eauto using leb_trans.
Qed.

Lemma buckets_sorted i j bi bj :
  (i ≤ j)%nat → buckets !! i = Some bi → buckets !! j = Some bj →
  PrimFloat.leb bi bj = true.
Proof.
  intros Hij Hi Hj.
  assert (forallb (λ i, forallb (λ j,
            implb (i <=? j)%nat
                  (PrimFloat.leb (nth i buckets 0%float)
                                 (nth j buckets 0%float)))
            (seq 0 (length buckets))) (seq 0 (length buckets)) = true)
    as Hall by (vm_compute; reflexivity).
  rewrite forallb_forall in Hall.
  pose proof (lookup_lt_Some _ _ _ Hi) as Hli.
  pose proof (lookup_lt_Some _ _ _ Hj) as Hlj.
  specialize (Hall i). rewrite in_seq in Hall.
  specialize (Hall ltac:(lia)). rewrite forallb_forall in Hall.
  specialize (Hall j). rewrite in_seq in Hall.
  specialize (Hall ltac:(lia)).
  rewrite !nth_lookup, Hi, Hj in Hall. cbn [from_option id] in Hall.
  destruct (Nat.leb_spec i j); [exact Hall|lia].
Qed.

Lemma bucketValues_lines path ds :
  bucketValues (histogramLines path ds)
  = map (λ b, countLe b ds) buckets ++ [Z.of_nat (length ds)].
Proof.
  unfold bucketValues, histogramLines. rewrite omap_app. reflexivity.
Qed.

Lemma values_lookup ds i a :
  (map (λ b, countLe b ds) buckets ++ [Z.of_nat (length ds)]) !! i = Some a →
  (∃ bi, buckets !! i = Some bi ∧ a = countLe bi ds)
  ∨ (i = length buckets ∧ a = Z.of_nat (length ds)).
Proof.
  intros H. apply lookup_app_Some in H as [H|[Hge H]].
  - left. rewrite list_lookup_fmap in H.
    destruct (buckets !! i) as [bi|]; [|discriminate].
    injection H as <-. eauto.
  - right. rewrite length_map in Hge, H.
    destruct (i - length buckets)%nat as [|n] eqn:E; [|discriminate].
    injection H as <-. split; [lia|reflexivity].
Qed.

(** X10: The bucket lines of a histogram never decrease from one boundary to
    the next, and none exceeds the [+Inf] line: the boundaries ascend
    and a duration counted for one boundary is counted for every larger
    one.  (For a slice of durations, at most [MaxInt64] long.) *)
Theorem bucket_values_ascend (path : string) (ds : list float)
    (i j : nat) (a b : Z) :
  Z.of_nat (length ds) <= MaxInt64 →
  (i ≤ j)%nat →
  bucketValues (histogramBlock path ds) !! i = Some a →
  bucketValues (histogramBlock path ds) !! j = Some b →
  0 <= a <= b ∧ b <= Z.of_nat (length ds).
Proof.
  intros Hlen Hij. rewrite (histogramBlock_lines path ds Hlen).
  rewrite bucketValues_lines. intros Ha Hb.
  apply values_lookup in Ha as [(bi & Hi & ->)|[Hi ->]];
    apply values_lookup in Hb as [(bj & Hj & ->)|[Hj ->]].
  - pose proof (countLe_mono bi bj ds (buckets_sorted i j bi bj Hij Hi Hj)).
    pose proof (countLe_bounds bi ds). pose proof (countLe_bounds bj ds). lia.
  - pose proof (countLe_bounds bi ds). lia.
  - apply lookup_lt_Some in Hj. lia.
  - lia.
Qed.

Lemma bucket_values_ascend_witness :
  bucketValues (histogramBlock "/a" [0.003; 0.2; 0.03]%float) !! 2%nat
  = Some 1
  ∧ bucketValues (histogramBlock "/a" [0.003; 0.2; 0.03]%float) !! 5%nat
    = Some 3
  ∧ 0 <= 1 <= 3.
Proof.
  split; [vm_compute; reflexivity|]. split; [vm_compute; reflexivity|].
  refine (proj1 (bucket_values_ascend "/a" [0.003; 0.2; 0.03]%float
                   2 5 1 3 _ _ _ _)).
  - vm_compute. discriminate.
  - lia.
  - vm_compute. reflexivity.
  - vm_compute. reflexivity.
Defined.

(** ** The captured code and the code sent *)

Lemma sentStatus_quiet pre rest :
  headerWrites pre = [] → sentBody pre = [] →
  sentStatus (pre ++ rest) = sentStatus rest.
Proof.
  induction pre as [|c pre IH]; [reflexivity|].
  destruct c; cbn [headerWrites sentBody app sentStatus]; try discriminate;
    exact IH.
Qed.

Lemma sentStatus_no_header post :
  headerWrites post = [] →
  sentStatus post = match sentBody post with [] => None | _ => Some 200 end.
Proof.
  induction post as [|c post IH]; [reflexivity|].
  destruct c; cbn [headerWrites sentStatus sentBody]; try exact IH;
    [discriminate|reflexivity].
Qed.

(** X11: When a handler sets headers, calls [WriteHeader] once with a code
    that net/http accepts (100 to 999) and only then writes, the wrapper
    captures that code.  It is the code sent unless it is informational
    (100 to 199, except 101): then the captured code is not the status of
    the response, which is 200 once a body is written. *)
Theorem captured_is_sent (pre post : list Call) (code : Z) :
  headerWrites pre = [] → sentBody pre = [] → headerWrites post = [] →
  validCode code = true →
  statusCode (calls (pre ++ [CallWriteHeader code] ++ post) fresh) = code
  ∧ (informational code = false →
     sentStatus (ResponseWriter
                   (calls (pre ++ [CallWriteHeader code] ++ post) fresh))
     = Some code)
  ∧ (informational code = true → sentBody post ≠ [] →
     sentStatus (ResponseWriter
                   (calls (pre ++ [CallWriteHeader code] ++ post) fresh))
     = Some 200).
Proof.
  intros Hpre Hbody Hpost Hvalid. rewrite calls_fresh.
  cbn [statusCode ResponseWriter].
  rewrite !headerWrites_app, Hpre, Hpost.
  rewrite (sentStatus_quiet pre _ Hpre Hbody). cbn [app sentStatus].
  rewrite Hvalid. cbn [negb].
  split; [reflexivity|]. split; [intros ->; reflexivity|].
  intros -> Hne. rewrite (sentStatus_no_header post Hpost).
  destruct (sentBody post); [contradiction|reflexivity].
Qed.

Lemma captured_is_sent_witness :
  statusCode (calls (errorCalls "gone" 410) fresh) = 410
  ∧ sentStatus (ResponseWriter (calls (errorCalls "gone" 410) fresh))
    = Some 410.
Proof.
  destruct (captured_is_sent
              [ HeaderDel "Content-Length";
                HeaderSet "Content-Type" "text/plain; charset=utf-8";
                HeaderSet "X-Content-Type-Options" "nosniff" ]
              [ CallWrite (Bytes ("gone" +:+ newline)) ] 410
              eq_refl eq_refl eq_refl eq_refl) as (H1 & H2 & _).
  split; [exact H1|exact (H2 eq_refl)].
Defined.

(** X12: When a handler writes body bytes before it calls [WriteHeader], 200
    is sent, yet the wrapper captures the later code, which is the one
    that reaches the access log and the metrics. *)
Theorem captured_after_write (pre mid post : list Call) (data : Chunk)
    (code : Z) :
  headerWrites pre = [] → sentBody pre = [] → headerWrites post = [] →
  sentStatus (ResponseWriter
                (calls (pre ++ [CallWrite data] ++ mid
                        ++ [CallWriteHeader code] ++ post) fresh))
  = Some 200
  ∧ statusCode (calls (pre ++ [CallWrite data] ++ mid
                       ++ [CallWriteHeader code] ++ post) fresh) = code.
Proof.
  intros Hpre Hbody Hpost. rewrite calls_fresh.
  cbn [statusCode ResponseWriter].
  rewrite (sentStatus_quiet pre _ Hpre Hbody). split; [reflexivity|].
  rewrite !headerWrites_app, Hpre, Hpost. cbn [headerWrites app].
  rewrite last_snoc. reflexivity.
Qed.

Lemma captured_after_write_witness :
  sentStatus (ResponseWriter
                (calls [CallWrite (Bytes "partial"); CallWriteHeader 500]
                       fresh)) = Some 200
  ∧ statusCode (calls [CallWrite (Bytes "partial"); CallWriteHeader 500]
                      fresh) = 500.
Proof.
  exact (captured_after_write [] [] [] (Bytes "partial") 500
           eq_refl eq_refl eq_refl).
Defined.

(** ** The handlers on paths that are not theirs *)

(** X13: A handler called with a path that is not its own makes the calls of
    [http.NotFound] and nothing else: it changes no state, takes no lock
    and contacts no backend, whichever of the five it is. *)
Theorem handlers_reject_other_paths (env : Env) (own : string)
    (h : HandlerFunc) (r : Request) (p : Process) (W : Type)
    (RW : http_ResponseWriter W) (w : W) :
  (own, h) ∈ handlers env →
  URL_Path r ≠ own →
  h W RW w r p = Some (calls (errorCalls "404 page not found" 404) w, p).
Proof.
  intros Hin Hp. unfold handlers in Hin.
  repeat (apply elem_of_cons in Hin as [Hin|Hin];
          [injection Hin as -> ->|]); [| | | | |inversion Hin].
  - apply ForwardToBackend_other, Hp.
  - unfold VersionHandler.
    destruct (String.eqb_spec (URL_Path r) "/version");
      [contradiction|reflexivity].
  - unfold LivenessHandler.
    destruct (String.eqb_spec (URL_Path r) "/health/live");
      [contradiction|reflexivity].
  - unfold ReadinessHandler.
    destruct (String.eqb_spec (URL_Path r) "/health/ready");
      [contradiction|reflexivity].
  - unfold MetricsHandler.
    destruct (String.eqb_spec (URL_Path r) "/metrics");
      [contradiction|reflexivity].
Qed.

Lemma handlers_reject_other_paths_witness :
  MetricsHandler (envWith true true (backendResponse false)) response _ []
                 (getRequest "/metrics/") process0
  = Some (errorCalls "404 page not found" 404, process0).
Proof.
  refine (handlers_reject_other_paths
            (envWith true true (backendResponse false)) "/metrics"
            _ (getRequest "/metrics/") process0 response _ [] _ _).
  - unfold handlers. do 4 right. left.
  - discriminate.
Defined.

(** X14: [ForwardToBackend] consults [client.Do] only for the path "/", only
    after [http.NewRequest] has succeeded, and only on the one request it
    has built (the method and body of the inbound request, the backend
    URL, every inbound header value): replacing the backend by one that
    answers that request alike changes nothing. *)
Theorem ForwardToBackend_backend_use (env : Env)
    (Do : Outbound → string + Response) (r : Request) (p : Process)
    (W : Type) (RW : http_ResponseWriter W) (w : W) :
  URL_Path r ≠ "/"
  ∨ is_Some (NewRequest_err env (Method r) (backendURL env))
  ∨ Do (outbound env r) = client_Do env (outbound env r) →
  ForwardToBackend (withDo env Do) W RW w r p
  = ForwardToBackend env W RW w r p.
Proof.
  intros H. destruct (decide (URL_Path r = "/")) as [Hp|Hp].
  - rewrite !ForwardToBackend_root by exact Hp.
    cbn [withDo NewRequest_err backendURL client_Do].
    destruct (NewRequest_err env (Method r) (backendURL env)) as [err|];
      [reflexivity|].
    destruct H as [H|[[x H]|H]]; [contradiction|discriminate|].
    change (outbound (withDo env Do) r) with (outbound env r).
    rewrite H. reflexivity.
  - rewrite !ForwardToBackend_other by exact Hp. reflexivity.
Qed.

Lemma ForwardToBackend_backend_use_witness :
  ForwardToBackend (withDo (envWith false true (backendResponse false))
                           (λ _, inl "never asked"))
                   response _ [] (getRequest "/") process0
  = ForwardToBackend (envWith false true (backendResponse false))
                     response _ [] (getRequest "/") process0.
Proof.
  apply ForwardToBackend_backend_use. right. left. vm_compute. eauto.
Defined.

(** ** The middleware around a handler *)



Lemma sentStatus_panics w : is_Some (sentStatus w) → panics w = false.
Proof.
  induction w as [|c w IH]; [reflexivity|].
  destruct c; cbn [sentStatus panics]; try exact IH; [|reflexivity].
  destruct (validCode code); cbn [negb]; [|intros [x Hx]; discriminate Hx].
  destruct (informational code); [exact IH|reflexivity].
Qed.

(** A request whose path is spelled as one of the patterns of [main]:
    that is its path and its escaped path, and the mux hands it to a
    handler. *)
Lemma plain_target r :
  TargetPath r ∈ servedRoutes →
  targetAccepted (PathAndQuery r) = true →
  URL_Path r = TargetPath r ∧ EscapedPath r = TargetPath r
  ∧ dispatched r = true.
Proof.
  intros Hin Hacc. unfold servedRoutes in Hin.
  assert (URL_Path r = TargetPath r ∧ EscapedPath r = TargetPath r)
    as [Hu He].
  { unfold EscapedPath, URL_RawPath, URL_Path. rewrite Hacc.
    repeat (apply elem_of_cons in Hin as [->|Hin]; [split; reflexivity|]).
    inversion Hin. }
  split; [exact Hu|]. split; [exact He|].
  unfold dispatched. rewrite Hacc, He.
  repeat (apply elem_of_cons in Hin as [->|Hin];
          [destruct (String.eqb (Method r) "CONNECT"); reflexivity|]).
  inversion Hin.
Qed.

(** X16: The four fixed routes: a request that the server accepts and
    whose target has exactly the path [/version], [/health/live],
    [/health/ready] or [/metrics], with or without a query, is answered
    200 with the one body of its handler, and is counted with the code 200
    under its own path, which is its own key. *)
Theorem fixed_routes_ok (env : Env) (r : Request) (p : Process) :
  TargetPath r ∈ fixedRoutes →
  targetAccepted (PathAndQuery r) = true →
  mutex (metrics p) = Unlocked →
  ∃ w p',
    URL_Path r = TargetPath r
    ∧ serve env r p = Some (w, p')
    ∧ sentStatus w = Some 200
    ∧ sentBody w = [okBody env p (URL_Path r)]
    ∧ RecordRequest (URL_Path r) 200 (elapsed env) (metrics p)
      = Some (metrics p')
    ∧ cleanPath (URL_Path r) = URL_Path r.
Proof.
  intros Hfix Hacc Hmu.
  destruct (plain_target r) as (Hu & He & Hd); [|exact Hacc|].
  { apply elem_of_cons. right. exact Hfix. }
  destruct (serve_dispatched env r p Hd Hmu)
    as (h & cs & p1 & extra & _ & _ & _ & _ & _ & _ & _ & Hok & Hserve).
  rewrite He, Hu in Hok.
  assert (TargetPath r = routeOf (pathSegments (TargetPath r))
          ∧ routeOf (pathSegments (TargetPath r)) ≠ "/"
          ∧ cleanPath (TargetPath r) = TargetPath r) as (Hown & Hroot & Hkey).
  { unfold fixedRoutes in Hfix.
    repeat (apply elem_of_cons in Hfix as [->|Hfix];
            [repeat split; discriminate|]).
    inversion Hfix. }
  destruct (Hok Hown Hroot) as (H200 & Hbody & Hcode).
  rewrite (sentStatus_panics cs) in Hserve by (rewrite H200; eauto).
  rewrite Hcode in Hserve.
  exists cs. eexists. split; [exact Hu|]. split; [exact Hserve|].
  split; [exact H200|]. rewrite Hu. split; [exact Hbody|].
  split; [|exact Hkey].
  cbn [metrics]. rewrite <- Hu. apply RecordRequest_unlocked, Hmu.
Qed.

(** [/health/live] with a query. *)
Lemma fixed_routes_ok_witness :
  ∃ w p',
    serve (envWith true true (backendResponse false))
          (getRequest "/health/live?verbose=1") process0 = Some (w, p')
    ∧ sentStatus w = Some 200
    ∧ totalRequests (metrics p') !! "/health/live" = Some 1.
Proof.
  destruct (fixed_routes_ok (envWith true true (backendResponse false))
              (getRequest "/health/live?verbose=1") process0)
    as (w & p' & _ & H1 & H2 & _ & H4 & _).
  - unfold fixedRoutes. right. left.
  - reflexivity.
  - reflexivity.
  - exists w, p'. split; [exact H1|]. split; [exact H2|].
    apply RecordRequest_Some in H4 as [_ H4]. rewrite H4. reflexivity.
Defined.

(** The same path with its inner slash escaped is the path of one segment
    for the mux: the handler of "/" answers 404, and the request is
    counted, with 404, under the key of [/health/live]. *)
Example escaped_slash_is_not_routed :
  let r := getRequest "/health%2Flive" in
  URL_Path r = "/health/live"
  ∧ (λ wp, (sentStatus wp.1,
            totalRequests (metrics wp.2) !! "/health/live",
            responseStatusOf
              (exposition mapOrder "1.0.0" 10 (metrics wp.2))
              "/health/live" 404))
    <$> serve (envWith true true (backendResponse false)) r process0
    = Some (Some 404, Some 1, Some 1).
Proof. vm_compute. split; reflexivity. Qed.

(** X17: A request for [/metrics] is answered with the counters as they were
    before it: its own observation is recorded after the text is written,
    so the total for "/metrics" afterwards is one more than the text
    shows. *)
Theorem metrics_request_not_in_its_text (env : Env) (r : Request)
    (p : Process) :
  URL_Path r = "/metrics" →
  mutex (metrics p) = Unlocked →
  0 <= default 0 (totalRequests (metrics p) !! "/metrics") < MaxInt64 →
  ∃ out w p',
    serve env r p = Some (w, p')
    ∧ sentBody w = [Lines out]
    ∧ requestsTotalOf out "/metrics" = totalRequests (metrics p) !! "/metrics"
    ∧ totalRequests (metrics p') !! "/metrics"
      = Some (default 0 (requestsTotalOf out "/metrics") + 1).
Proof.
  intros Hp Hmu Hrange.
  destruct (one_segment r "metrics" Hp) as [Hd Hsegs];
    [reflexivity|discriminate|discriminate|discriminate|].
  destruct (serve_dispatched env r p Hd Hmu)
    as (h & cs & p1 & extra & _ & _ & _ & _ & _ & _ & _ & Hok & Hserve).
  rewrite Hsegs in Hok. change (routeOf ["metrics"]) with "/metrics" in Hok.
  destruct (Hok Hp ltac:(discriminate)) as (H200 & Hbody & Hcode).
  rewrite (sentStatus_panics cs) in Hserve by (rewrite H200; eauto).
  exists (exposition (order env) (version env) (nowUnix env) (metrics p)),
         cs.
  eexists. split; [exact Hserve|].
  split; [rewrite Hbody, Hp; reflexivity|].
  rewrite exposition_total. split; [reflexivity|].
  cbn [metrics]. rewrite recordLocked_total, Hp.
  change (cleanPath "/metrics") with "/metrics".
  rewrite decide_True by reflexivity. rewrite incr64_small by exact Hrange.
  reflexivity.
Qed.

Lemma metrics_request_not_in_its_text_witness :
  ∃ out w p',
    serve (envWith true true (backendResponse false))
          (getRequest "/metrics") process0 = Some (w, p')
    ∧ sentBody w = [Lines out]
    ∧ requestsTotalOf out "/metrics" = None
    ∧ totalRequests (metrics p') !! "/metrics" = Some 1.
Proof.
  destruct (metrics_request_not_in_its_text
              (envWith true true (backendResponse false))
              (getRequest "/metrics") process0)
    as (out & w & p' & H1 & H2 & H3 & H4).
  - reflexivity.
  - reflexivity.
  - vm_compute. split; [discriminate|reflexivity].
  - exists out, w, p'. split; [exact H1|]. split; [exact H2|].
    rewrite H4, H3. split; reflexivity.
Defined.

(** ** Requests one after the other *)

Lemma accessLines_app l1 l2 :
  accessLines (l1 ++ l2) = (accessLines l1 + accessLines l2)%nat.
Proof. unfold accessLines. rewrite filter_app, length_app. reflexivity. Qed.

Lemma accessLines_none extra :
  Forall (λ e, isAccessLine e = false) extra → accessLines extra = 0%nat.
Proof.
  unfold accessLines. induction 1 as [|e l He _ IH]; [reflexivity|].
  rewrite filter_cons. case_decide; [congruence|exact IH].
Qed.

(** X18: Served one after the other, requests never find the lock of the
    aggregator taken.  As long as no backend answers with a status code
    that [WriteHeader] refuses, every request is answered and leaves the
    lock free and the aggregator in a state of the run; the log gains
    exactly one access line for every request that the mux hands to a
    handler, and none for a request that the server refuses or the mux
    redirects. *)
Theorem serveAll_sequential (reqs : list (Env * Request)) (p : Process) :
  Forall (λ er, backendCodeValid er.1 er.2) reqs →
  mutex (metrics p) = Unlocked →
  ∃ ws p',
    serveAll reqs p = Some (ws, p')
    ∧ length ws = length reqs
    ∧ mutex (metrics p') = Unlocked
    ∧ accessLines (logged p')
      = (accessLines (logged p)
         + length (filter (λ er, dispatched er.2 = true) reqs))%nat
    ∧ ∀ start, reachableFrom start (metrics p) →
               reachableFrom start (metrics p').
Proof.
  intros Hall. revert p.
  induction Hall as [|[env r] reqs Hvalid _ IH]; intros p Hmu.
  - exists [], p. cbn [length filter]. rewrite Nat.add_0_r.
    repeat split; auto.
  - cbn [fst snd] in Hvalid. rewrite filter_cons. cbn [snd].
    destruct (dispatched r) eqn:Hd.
    + destruct (serve_dispatched env r p Hd Hmu)
        as (h & cs & p1 & extra & _ & _ & _ & _ & Hex & Hpanic & _ & _
            & Hserve).
      rewrite (Hpanic Hvalid) in Hserve.
      set (p2 := {| metrics := recordLocked (URL_Path r)
                      (default 200 (last (headerWrites cs)))
                      (elapsed env) (metrics p);
                    logged := logged p ++ extra ++
                      [ AccessLine (RemoteAddr r) (Method r) (URL_Path r)
                          (Proto r) (default 200 (last (headerWrites cs)))
                          (userAgent r) (elapsed env);
                        StdoutLine (RecordRequest_stdout (URL_Path r)) ] |})
        in Hserve.
      destruct (IH p2 Hmu) as (ws & p' & Hrun & Hlen & Hmu' & Hacc & Hreach).
      exists (cs :: ws), p'. split.
      { cbn [serveAll]. rewrite Hserve. cbn [mbind option_bind].
        rewrite Hrun. reflexivity. }
      split; [cbn [length]; rewrite Hlen; reflexivity|].
      split; [exact Hmu'|]. split.
      * rewrite Hacc, decide_True by reflexivity. unfold p2.
        cbn [logged length].
        rewrite !accessLines_app, (accessLines_none extra Hex).
        match goal with
        | |- context [accessLines [?a; ?b]] =>
          change (accessLines [a; b]) with 1%nat
        end.
        lia.
      * intros start Hr. apply Hreach. unfold p2. cbn [metrics].
        eapply reach_record; [exact Hr|].
        apply RecordRequest_unlocked, Hmu.
    + destruct (serve_not_dispatched env r p Hd) as (w & Hserve & _).
      destruct (IH p Hmu) as (ws & p' & Hrun & Hlen & Hmu' & Hacc & Hreach).
      exists (w :: ws), p'. split.
      { cbn [serveAll]. rewrite Hserve. cbn [mbind option_bind].
        rewrite Hrun. reflexivity. }
      split; [cbn [length]; rewrite Hlen; reflexivity|].
      split; [exact Hmu'|]. split; [|exact Hreach].
      rewrite Hacc, decide_False by discriminate. reflexivity.
Qed.

(** Four requests, one of them for a path that the mux redirects: three
    access lines. *)
Lemma serveAll_sequential_witness :
  ∃ ws p',
    serveAll [ (envWith true true (backendResponse true), getRequest "/");
               (envWith true false (backendResponse false),
                getRequest "/metrics");
               (envWith true false (backendResponse false),
                getRequest "//version");
               (envWith true false (backendResponse false),
                getRequest "/nowhere") ] process0 = Some (ws, p')
    ∧ length ws = 4%nat
    ∧ accessLines (logged p') = 3%nat.
Proof.
  destruct (serveAll_sequential
              [ (envWith true true (backendResponse true), getRequest "/");
                (envWith true false (backendResponse false),
                 getRequest "/metrics");
                (envWith true false (backendResponse false),
                 getRequest "//version");
                (envWith true false (backendResponse false),
                 getRequest "/nowhere") ] process0)
    as (ws & p' & H1 & H2 & _ & H4 & _).
  - repeat constructor; intros resp H;
      first [discriminate H | injection H as <-; reflexivity].
  - reflexivity.
  - exists ws, p'. split; [exact H1|]. split; [exact H2|exact H4].
Defined.

(** ** Configuration *)

Lemma eqb_empty_decide {A} (s : string) (a b : A) :
  (if String.eqb s EmptyString then a else b)
  = (if decide (s = EmptyString) then a else b).
Proof.
  destruct (String.eqb_spec s EmptyString); case_decide; congruence.
Qed.

(** X19: [init] never leaves [version] or [backendURL] empty: a variable that
    is set to a non-empty value is taken as it is, and a variable that is
    unset or empty gives the default; the listen address is ':' followed
    by a port chosen the same way. *)
Theorem init_defaults (environ : gmap string string) :
  (init environ).1 ≠ EmptyString
  ∧ (init environ).2 ≠ EmptyString
  ∧ (init environ).1
    = (if decide (Getenv environ "VERSION" = EmptyString) then "1.0.0"
       else Getenv environ "VERSION")
  ∧ (init environ).2
    = (if decide (Getenv environ "BACKEND" = EmptyString)
       then "http://localhost:8080/version"
       else Getenv environ "BACKEND")
  ∧ listenAddr environ
    = ":" +:+ (if decide (Getenv environ "PORT" = EmptyString) then "8080"
               else Getenv environ "PORT")
  ∧ (environ !! "VERSION" = None → (init environ).1 = "1.0.0")
  ∧ (environ !! "VERSION" = Some EmptyString → (init environ).1 = "1.0.0").
Proof.
  unfold init, listenAddr. cbn [fst snd]. rewrite !eqb_empty_decide.
  split; [case_decide; [discriminate|assumption]|].
  split; [case_decide; [discriminate|assumption]|].
  do 3 (split; [reflexivity|]).
  split; intros H; unfold Getenv; rewrite H; reflexivity.
Qed.

(** X20: The version route shows what [init] configured: the value of
    [VERSION], or "1.0.0" when the variable is unset or empty. *)
Theorem version_route_configured (environ : gmap string string) (env : Env)
    (r : Request) (p : Process) :
  URL_Path r = "/version" →
  mutex (metrics p) = Unlocked →
  ∃ w p',
    serve (configured environ env) r p = Some (w, p')
    ∧ sentStatus w = Some 200
    ∧ sentBody w
      = [Bytes ("Version: "
                +:+ (if decide (Getenv environ "VERSION" = EmptyString)
                     then "1.0.0" else Getenv environ "VERSION")
                +:+ newline)].
Proof.
  intros Hp Hmu.
  destruct (one_segment r "version" Hp) as [Hd Hsegs];
    [reflexivity|discriminate|discriminate|discriminate|].
  destruct (serve_dispatched (configured environ env) r p Hd Hmu)
    as (h & cs & p1 & extra & _ & _ & _ & _ & _ & _ & _ & Hok & Hserve).
  rewrite Hsegs in Hok. change (routeOf ["version"]) with "/version" in Hok.
  destruct (Hok Hp ltac:(discriminate)) as (H200 & Hbody & Hcode).
  rewrite (sentStatus_panics cs) in Hserve by (rewrite H200; eauto).
  exists cs. eexists. split; [exact Hserve|]. split; [exact H200|].
  rewrite Hbody, Hp. unfold okBody, configured, init. cbn [version fst].
  change (String.eqb "/version" "/version") with true. cbv iota.
  rewrite eqb_empty_decide. reflexivity.
Qed.

Lemma version_route_configured_witness :
  ∃ w p',
    serve (configured ∅ (envWith true true (backendResponse false)))
          (getRequest "/version") process0 = Some (w, p')
    ∧ sentBody w = [Bytes ("Version: 1.0.0" +:+ newline)].
Proof.
  destruct (version_route_configured ∅
              (envWith true true (backendResponse false))
              (getRequest "/version") process0 eq_refl eq_refl)
    as (w & p' & H1 & _ & H3).
  exists w, p'. split; [exact H1|exact H3].
Defined.

(** ** The headers of the outbound request *)

Lemma valuesOf_app name a b :
  valuesOf name (a ++ b) = valuesOf name a ++ valuesOf name b.
Proof. unfold valuesOf. rewrite filter_app, fmap_app. reflexivity. Qed.

Lemma valuesOf_pairs name n (vs : list string) :
  valuesOf name (map (λ value, (n, value)) vs)
  = if decide (n = name) then vs else [].
Proof.
  unfold valuesOf. induction vs as [|v vs IH].
  - case_decide; reflexivity.
  - cbn [map]. rewrite filter_cons. cbn [fst].
    destruct (decide (n = name)); [|exact IH].
    cbn [fmap list_fmap snd]. f_equal. exact IH.
Qed.

Lemma canonical_pairs n (vs : list string) :
  map (λ '(name, value), (CanonicalMIMEHeaderKey name, value))
      (map (λ value, (n, value)) vs)
  = map (λ value, (CanonicalMIMEHeaderKey n, value)) vs.
Proof. rewrite map_map. reflexivity. Qed.

(** X21: What [http.NewRequest] and the [Header.Add] calls of
    [ForwardToBackend] make of the inbound request: the method sent is
    never empty, it is the inbound method unless that is empty and GET
    then; under every header name the request holds the inbound values
    whose name has that canonical form, each once and in their order (so
    values under names that differ only in case are merged), and the
    number of values is preserved. *)
Theorem outbound_headers (env : Env) (r : Request) (name : string) :
  outMethod (outbound env r) ≠ EmptyString
  ∧ (Method r ≠ EmptyString → outMethod (outbound env r) = Method r)
  ∧ (Method r = EmptyString → outMethod (outbound env r) = "GET")
  ∧ valuesOf name (outHeader (outbound env r))
    = concat (filter (λ e, CanonicalMIMEHeaderKey e.1 = name) (Header r)).*2
  ∧ length (outHeader (outbound env r))
    = length (concat (Header r).*2).
Proof.
  cbn [outbound outMethod outHeader].
  split; [destruct (String.eqb_spec (Method r) ""); [discriminate|assumption]|].
  split; [intros H; rewrite eqb_false by exact H; reflexivity|].
  split; [intros ->; reflexivity|].
  unfold headerPairs.
  induction (Header r) as [|[n vs] h [IH1 IH2]]; [split; reflexivity|].
  cbn [flat_map]. rewrite map_app, canonical_pairs. split.
  - rewrite valuesOf_app, valuesOf_pairs, IH1, filter_cons. cbn [fst].
    case_decide; reflexivity.
  - cbn [fmap list_fmap snd concat]. rewrite !length_app, length_map, IH2.
    reflexivity.
Qed.

(** Two inbound names that differ in case: one outbound name. *)
Example outbound_merges_names :
  valuesOf "X-Trace"
    (outHeader (outbound (envWith true true (backendResponse false))
                  {| Method := EmptyString; PathAndQuery := "/";
                     Proto := "HTTP/1.1"; RemoteAddr := "127.0.0.1:50000";
                     Header := [("x-trace", ["1"]); ("X-TRACE", ["2"; "3"])];
                     Body := EmptyString |}))
  = ["1"; "2"; "3"].
Proof. vm_compute. reflexivity. Qed.

(** ** No empty entries *)

(** X22: In every state of a run, a key that is present has at least one
    duration and at least one status code: no histogram of the text is
    empty. *)
Theorem recorded_path_nonempty (start : Z) (m : Metrics) (k : string) :
  reachableFrom start m →
  is_Some (totalRequests m !! k) →
  ∃ ds codes,
    requestDurations m !! k = Some ds ∧ ds ≠ []
    ∧ statusCodes m !! k = Some codes ∧ codes ≠ ∅.
Proof.
  induction 1 as [|m p c d m' _ IH H|m o v now out m' _ IH H].
  - cbn. rewrite lookup_empty. intros [x Hx]. discriminate.
  - apply RecordRequest_Some in H as [_ ->].
    rewrite recordLocked_total, recordLocked_status, recordLocked_durations.
    case_decide; [|exact IH]. intros _. eexists _, _.
    split; [reflexivity|]. split; [intros Hnil; destruct (default [] _);
                                   discriminate Hnil|].
    split; [reflexivity|]. apply insert_non_empty.
  - apply GetPrometheusMetrics_Some in H as [-> _]. exact IH.
Qed.

Lemma recorded_path_nonempty_witness :
  ∃ ds codes,
    requestDurations (recordLocked "/a" 200 5 (NewMetrics 0)) !! "/a" = Some ds
    ∧ ds ≠ []
    ∧ statusCodes (recordLocked "/a" 200 5 (NewMetrics 0)) !! "/a"
      = Some codes
    ∧ codes ≠ ∅.
Proof.
  apply (recorded_path_nonempty 0).
  - exact (reach_record 0 _ "/a" 200 5 _ (reach_new 0) eq_refl).
  - vm_compute. eauto.
Defined.
